(** * AI character chat: engagement scheduler, model gateway decoder,
      voice selector and persona store

    A shallow embedding of the application root ([App.tsx]), of the
    voice picker and the speaker button of the chat window
    ([ChatWindow.tsx]), of the persona editor ([CharacterModal.tsx]) and
    of the quiz that builds a persona ([DynamicQuizModal.tsx]).  React state is a
    record, the three [useRef] cells are fields of that record, and the
    browser (its timer table, its clock, [alert], [console.error], the
    pending promises of the model API) is an explicit environment that
    every handler threads through.  An [async] handler is split at its
    [await]: the part before it runs when the event is dispatched, the
    part after it when the promise settles, and React renders (running
    the effects whose dependencies changed) after each part. *)

From Stdlib Require Import String Ascii List ZArith NArith QArith Qround Bool Lia.
From stdpp Require Import gmap strings.
Import ListNotations.

Local Open Scope string_scope.
Local Open Scope list_scope.

(** ** JavaScript string primitives used by the sources

    A JavaScript string is the Rocq string of its UTF-8 encoding, which
    is what a string literal of this file holds.  ASCII text (the
    identifiers of [crypto.randomUUID], BCP-47 language tags, the
    keywords of the voice picker) has one byte per UTF-16 code unit, the
    sequence [charCodeAt] enumerates.  Prefix and substring tests on
    encoded text are those on the text, UTF-8 being self-synchronising;
    [toLowerCase] lowers the ASCII letters; [trim] removes every
    white-space and line-terminator character of ECMAScript, ASCII or
    not.  A byte string that is not well-formed UTF-8 stands for no
    JavaScript string: U+00A0 is the two bytes C2 A0, never the byte A0
    alone. *)

Module JS.

(** [s.startsWith(p)] *)
Definition startsWith (s p : string) : bool := String.prefix p s.

(** [s.includes(sub)] *)
Fixpoint includes (s sub : string) : bool :=
  String.prefix sub s ||
  match s with
  | EmptyString => false
  | String _ rest => includes rest sub
  end.

Definition lowerCodeUnit (c : ascii) : ascii :=
  let n := nat_of_ascii c in
  if (65 <=? n)%nat && (n <=? 90)%nat then ascii_of_nat (n + 32) else c.

(** [s.toLowerCase()]: the ASCII letters are lowered, the bytes of any
    other character stay as they are. *)
Fixpoint toLowerCase (s : string) : string :=
  match s with
  | EmptyString => EmptyString
  | String c rest => String (lowerCodeUnit c) (toLowerCase rest)
  end.

(** [s.split(sep)[0]] for a one-character separator: the text before
    its first occurrence, the whole string when there is none. *)
Fixpoint splitHead (sep : ascii) (s : string) : string :=
  match s with
  | EmptyString => EmptyString
  | String c rest =>
      if Ascii.eqb c sep then EmptyString else String c (splitHead sep rest)
  end.

(** [s.split('').reduce((acc, ch) => acc + ch.charCodeAt(0), 0)] *)
Fixpoint charCodeSum (s : string) : nat :=
  match s with
  | EmptyString => 0
  | String c rest => nat_of_ascii c + charCodeSum rest
  end.

(** Truthiness of a string: only the empty string is falsy. *)
Definition nonEmpty (s : string) : bool :=
  match s with EmptyString => false | String _ _ => true end.

(** White space that [trim] removes: the WhiteSpace and LineTerminator
    characters of ECMAScript, each in its UTF-8 encoding.  One byte:
    U+0009 to U+000D and U+0020. *)
Definition isSpace (c : ascii) : bool :=
  let n := nat_of_ascii c in
  ((9 <=? n)%nat && (n <=? 13)%nat) || (n =? 32)%nat.

(** Two bytes: U+00A0 (C2 A0). *)
Definition isSpace2 (c d : ascii) : bool :=
  (nat_of_ascii c =? 194)%nat && (nat_of_ascii d =? 160)%nat.

(** Three bytes: U+1680 (E1 9A 80); U+2000 to U+200A, U+2028, U+2029
    and U+202F (E2 80 80 to 8A, A8, A9, AF); U+205F (E2 81 9F); U+3000
    (E3 80 80); U+FEFF (EF BB BF). *)
Definition isSpace3 (c d e : ascii) : bool :=
  let c := nat_of_ascii c in
  let d := nat_of_ascii d in
  let e := nat_of_ascii e in
  ((c =? 225) && (d =? 154) && (e =? 128))%nat
  || ((c =? 226) && (d =? 128)
      && (((128 <=? e) && (e <=? 138)) || (e =? 168) || (e =? 169) || (e =? 175)))%nat
  || ((c =? 226) && (d =? 129) && (e =? 159))%nat
  || ((c =? 227) && (d =? 128) && (e =? 128))%nat
  || ((c =? 239) && (d =? 187) && (e =? 191))%nat.

(** [s.trimStart()] *)
Fixpoint trimStart (s : string) : string :=
  match s with
  | EmptyString => EmptyString
  | String c rest1 =>
      if isSpace c then trimStart rest1
      else
        match rest1 with
        | EmptyString => s
        | String d rest2 =>
            if isSpace2 c d then trimStart rest2
            else
              match rest2 with
              | EmptyString => s
              | String e rest3 =>
                  if isSpace3 c d e then trimStart rest3 else s
              end
        end
  end.

(** [s.trimEnd()]: the text is cut where only white space follows.  A
    suffix that starts inside a character starts with a continuation
    byte, which begins no white-space character. *)
Fixpoint trimEnd (s : string) : string :=
  match s with
  | EmptyString => EmptyString
  | String c rest =>
      if nonEmpty (trimStart s) then String c (trimEnd rest) else EmptyString
  end.

(** [s.trim()] *)
Definition trim (s : string) : string := trimEnd (trimStart s).

(** The 25 white-space and line-terminator characters, encoded. *)
Definition whiteSpace : list string :=
  [ String "009" ""; String "010" ""; String "011" ""; String "012" "";
    String "013" ""; String "032" "";
    String "194" (String "160" "");
    String "225" (String "154" (String "128" ""));
    String "226" (String "128" (String "128" ""));
    String "226" (String "128" (String "129" ""));
    String "226" (String "128" (String "130" ""));
    String "226" (String "128" (String "131" ""));
    String "226" (String "128" (String "132" ""));
    String "226" (String "128" (String "133" ""));
    String "226" (String "128" (String "134" ""));
    String "226" (String "128" (String "135" ""));
    String "226" (String "128" (String "136" ""));
    String "226" (String "128" (String "137" ""));
    String "226" (String "128" (String "138" ""));
    String "226" (String "128" (String "168" ""));
    String "226" (String "128" (String "169" ""));
    String "226" (String "128" (String "175" ""));
    String "226" (String "129" (String "159" ""));
    String "227" (String "128" (String "128" ""));
    String "239" (String "187" (String "191" "")) ].

(** A text that holds white space only (the empty text included). *)
Inductive blank : string -> Prop :=
| blank_nil : blank EmptyString
| blank_cons (w rest : string) :
    In w whiteSpace -> blank rest -> blank (String.append w rest).

(** The text after the white-space character [s] starts with. *)
Definition afterSpace (s : string) : option string :=
  match s with
  | EmptyString => None
  | String c rest1 =>
      if isSpace c then Some rest1
      else
        match rest1 with
        | EmptyString => None
        | String d rest2 =>
            if isSpace2 c d then Some rest2
            else
              match rest2 with
              | EmptyString => None
              | String e rest3 => if isSpace3 c d e then Some rest3 else None
              end
        end
  end.

(** [a || b] on strings. *)
Definition orElse (a b : string) : string := if nonEmpty a then a else b.

(** [Array.prototype.some] *)
Definition some {A} (p : A -> bool) (l : list A) : bool := existsb p l.

(** [Array.prototype.sort(cmp)] with [cmp = (a, b) => key b - key a]:
    the sort is stable, so equal keys keep their input order.  An
    element travels past the strictly larger keys only. *)
Fixpoint insertDesc {A} (key : A -> Z) (x : A) (l : list A) : list A :=
  match l with
  | [] => [x]
  | y :: rest =>
      if (key x <? key y)%Z then y :: insertDesc key x rest
      else x :: y :: rest
  end.

Fixpoint sortDesc {A} (key : A -> Z) (l : list A) : list A :=
  match l with
  | [] => []
  | x :: rest => insertDesc key x (sortDesc key rest)
  end.

End JS.

(** ** Data model ([types.ts]) *)

Inductive Gender := male | female | neutral.
Inductive VoiceProfile := low | medium | high.
Inductive VoiceSpeed := slow | normalSpeed | fast.
Inductive ChatMode := normal | game.
Inductive Role := user | model.

Record Character := {
  c_id : string;
  c_name : string;
  c_avatar : string;
  c_personality : string;
  c_memory : string;
  c_purpose : option string;          (* [purpose?: string] *)
  c_gender : Gender;
  c_language : string;
  c_voiceProfile : VoiceProfile;
  c_voiceSpeed : VoiceSpeed
}.

(** The fields of a [SpeechSynthesisVoice] the picker reads. *)
Record Voice := {
  v_name : string;
  v_lang : string;
  v_localService : bool;
  v_default : bool
}.

(** ** Voice selector ([getCharacterVoice], ChatWindow.tsx) *)

Definition maleKeywords : list string :=
  ["male"; "david"; "mark"; "james"; "tom"; "alex"; "daniel"; "fred"; "rishi"].

Definition femaleKeywords : list string :=
  ["female"; "zira"; "susan"; "linda"; "hazel"; "karen"; "moira"; "samantha"; "tessa"].

(** The score the sort comparator computes for one voice. *)
Definition voiceScore (gender : Gender) (v : Voice) : Z :=
  let vName := JS.toLowerCase (v_name v) in
  let genderScore :=
    match gender with
    | neutral => 0%Z
    | _ =>
        let targetKeywords :=
          match gender with male => maleKeywords | _ => femaleKeywords end in
        let oppositeKeywords :=
          match gender with male => femaleKeywords | _ => maleKeywords end in
        ((if JS.some (fun kw => JS.includes vName kw) targetKeywords then 100 else 0)
         - (if JS.some (fun kw => JS.includes vName kw) oppositeKeywords then 50 else 0))%Z
    end in
  (genderScore
   + (if v_localService v then 10 else 0)
   + (if JS.includes vName "google" then 5 else 0)
   + (if JS.includes vName "microsoft" then 3 else 0)
   - (if v_default v then 1 else 0))%Z.

Definition isNil {A} (l : list A) : bool :=
  match l with [] => true | _ => false end.

(** [!x] for a value that is an object, a non-empty string or [null]. *)
Definition isNull {A} (x : option A) : bool :=
  match x with None => true | Some _ => false end.

(** [l[0] || null] *)
Definition first {A} (l : list A) : option A :=
  match l with [] => None | x :: _ => Some x end.

Definition getCharacterVoice (voices : list Voice) (character : Character)
  : option Voice :=
  if isNil voices then None
  else
    let lang := JS.orElse (c_language character) "en-US" in
    let langVoices :=
      List.filter (fun v => JS.startsWith (v_lang v) (JS.splitHead "-" lang)) voices in
    let langVoices :=
      if isNil langVoices
      then List.filter (fun v => JS.startsWith (v_lang v) "en") voices
      else langVoices in
    if isNil langVoices then first voices
    else
      let sortedVoices := JS.sortDesc (voiceScore (c_gender character)) langVoices in
      if isNil sortedVoices
      then match first langVoices with Some v => Some v | None => first voices end
      else
        let charCodeSum := JS.charCodeSum (c_id character) in
        let voiceIndex := (charCodeSum mod length sortedVoices)%nat in
        nth_error sortedVoices voiceIndex.

(** ** JSON values and messages

    [JSON.parse] is the platform's; the development is parametric in it
    (Section [Gateway] below).  A parsed value is one of the six JSON
    kinds; a number is the rational its finite double denotes, an object
    is its list of members, keys distinct. *)

#[warnings="-register-all"]
Inductive JSValue :=
| JNull
| JBool (b : bool)
| JNum (q : Q)
| JStr (s : string)
| JArr (items : list JSValue)
| JObj (members : list (string * JSValue)).

(** Truthiness, as [||] tests it. *)
Definition truthy (v : JSValue) : bool :=
  match v with
  | JNull => false
  | JBool b => b
  | JNum q => negb (Qeq_bool q 0)
  | JStr s => JS.nonEmpty s
  | JArr _ | JObj _ => true
  end.

(** [v.key] for a non-null [v] and a key that is no built-in property
    ([dialogue], [thought], [action], [user_response_options]): the
    member of an object, [undefined] ([None]) on anything else. *)
Definition member (key : string) (v : JSValue) : option JSValue :=
  match v with
  | JObj members =>
      match List.find (fun kv => String.eqb (fst kv) key) members with
      | Some kv => Some (snd kv)
      | None => None
      end
  | _ => None
  end.

(** A [Message] as the application root builds it; identifiers come from
    [crypto.randomUUID], modelled by a counter of fresh tokens.  The image
    fields of [types.ts] are never set by these handlers.  The fields
    copied out of a parsed reply hold whatever JSON value the reply
    had there. *)
Record Message := {
  m_id : nat;
  m_role : Role;
  m_text : JSValue;
  m_thought : option JSValue;
  m_action : option JSValue;
  m_userResponseOptions : option JSValue
}.

Definition textMessage (uuid : nat) (role : Role) (text : string) : Message :=
  {| m_id := uuid; m_role := role; m_text := JStr text;
     m_thought := None; m_action := None; m_userResponseOptions := None |}.

Definition isUser (m : Message) : bool :=
  match m_role m with user => true | model => false end.

(** ** Application state and browser environment *)

(** What a pending timer runs when it fires:
    [latestHandleProactiveGreeting.current()] or
    [latestHandleSendFollowUp.current()]. *)
Inductive TimerCallback := GreetingTimer | InactivityTimer.

(** One entry of the browser's timer table; [setTimeout] returns
    [t_handle], a positive integer. *)
Record Timer := {
  t_handle : positive;
  t_callback : TimerCallback;
  t_due : N
}.

Inductive CallKind := SendCall | GreetingCall | FollowUpCall | AnalysisCall.

(** One call to the model API together with what its continuation
    closes over: the persona id and mode of the render that issued it and
    the history the reply is appended to. *)
Record GatewayCall := {
  gc_kind : CallKind;
  gc_character : string;
  gc_mode : ChatMode;
  gc_history : list Message;
  gc_message : string;
  gc_appendTo : list Message
}.

(** React state ([useState]), the three [useRef] cells, the two
    dependency flags React derives between renders, and the browser:
    timer table, clock (ms), fresh handles and identifiers, the promises
    not yet settled, the log of every model call issued, and the texts
    passed to [alert] and [console.error].

    Persona ids are [crypto.randomUUID] strings, hence non-empty:
    [!activeCharacterId] holds exactly when the id is [null] ([None]).
    The persistence effects write [characters] and [chats] to local
    storage as they are after every change.  The flags of the persona
    editor and of the quiz modal play no part in the handlers below. *)
Record App := {
  characters : list Character;
  activeCharacterId : option string;
  chats : gmap string (list Message);
  isLoading : bool;
  chatMode : ChatMode;
  isAnalyzing : bool;
  isAnalysisModalOpen : bool;
  analysisResult : option JSValue;
  inactivityTimerRef : option positive;
  proactiveGreetingTimerRef : option positive;
  followUpSentRef : bool;
  activeChanged : bool;
  chatsChanged : bool;
  timers : list Timer;
  now : N;
  nextHandle : positive;
  nextUuid : nat;
  inflight : list GatewayCall;
  calls : list GatewayCall;
  alerts : list string;
  console : list string
}.

(** Field updates. *)

Definition with_characters (v : list Character) (s : App) : App :=
  match s with
  | Build_App _ x1 x2 x3 x4 x5 x6 x7 x8 x9 x10 x11 x12 x13 x14 x15 x16 x17 x18 x19 x20 =>
      Build_App v x1 x2 x3 x4 x5 x6 x7 x8 x9 x10 x11 x12 x13 x14 x15 x16 x17 x18 x19 x20
  end.

Definition with_activeCharacterId (v : option string) (s : App) : App :=
  match s with
  | Build_App x0 _ x2 x3 x4 x5 x6 x7 x8 x9 x10 x11 x12 x13 x14 x15 x16 x17 x18 x19 x20 =>
      Build_App x0 v x2 x3 x4 x5 x6 x7 x8 x9 x10 x11 x12 x13 x14 x15 x16 x17 x18 x19 x20
  end.

Definition with_chats (v : gmap string (list Message)) (s : App) : App :=
  match s with
  | Build_App x0 x1 _ x3 x4 x5 x6 x7 x8 x9 x10 x11 x12 x13 x14 x15 x16 x17 x18 x19 x20 =>
      Build_App x0 x1 v x3 x4 x5 x6 x7 x8 x9 x10 x11 x12 x13 x14 x15 x16 x17 x18 x19 x20
  end.

Definition with_isLoading (v : bool) (s : App) : App :=
  match s with
  | Build_App x0 x1 x2 _ x4 x5 x6 x7 x8 x9 x10 x11 x12 x13 x14 x15 x16 x17 x18 x19 x20 =>
      Build_App x0 x1 x2 v x4 x5 x6 x7 x8 x9 x10 x11 x12 x13 x14 x15 x16 x17 x18 x19 x20
  end.

Definition with_chatMode (v : ChatMode) (s : App) : App :=
  match s with
  | Build_App x0 x1 x2 x3 _ x5 x6 x7 x8 x9 x10 x11 x12 x13 x14 x15 x16 x17 x18 x19 x20 =>
      Build_App x0 x1 x2 x3 v x5 x6 x7 x8 x9 x10 x11 x12 x13 x14 x15 x16 x17 x18 x19 x20
  end.

Definition with_isAnalyzing (v : bool) (s : App) : App :=
  match s with
  | Build_App x0 x1 x2 x3 x4 _ x6 x7 x8 x9 x10 x11 x12 x13 x14 x15 x16 x17 x18 x19 x20 =>
      Build_App x0 x1 x2 x3 x4 v x6 x7 x8 x9 x10 x11 x12 x13 x14 x15 x16 x17 x18 x19 x20
  end.

Definition with_isAnalysisModalOpen (v : bool) (s : App) : App :=
  match s with
  | Build_App x0 x1 x2 x3 x4 x5 _ x7 x8 x9 x10 x11 x12 x13 x14 x15 x16 x17 x18 x19 x20 =>
      Build_App x0 x1 x2 x3 x4 x5 v x7 x8 x9 x10 x11 x12 x13 x14 x15 x16 x17 x18 x19 x20
  end.

Definition with_analysisResult (v : option JSValue) (s : App) : App :=
  match s with
  | Build_App x0 x1 x2 x3 x4 x5 x6 _ x8 x9 x10 x11 x12 x13 x14 x15 x16 x17 x18 x19 x20 =>
      Build_App x0 x1 x2 x3 x4 x5 x6 v x8 x9 x10 x11 x12 x13 x14 x15 x16 x17 x18 x19 x20
  end.

Definition with_inactivityTimerRef (v : option positive) (s : App) : App :=
  match s with
  | Build_App x0 x1 x2 x3 x4 x5 x6 x7 _ x9 x10 x11 x12 x13 x14 x15 x16 x17 x18 x19 x20 =>
      Build_App x0 x1 x2 x3 x4 x5 x6 x7 v x9 x10 x11 x12 x13 x14 x15 x16 x17 x18 x19 x20
  end.

Definition with_proactiveGreetingTimerRef (v : option positive) (s : App) : App :=
  match s with
  | Build_App x0 x1 x2 x3 x4 x5 x6 x7 x8 _ x10 x11 x12 x13 x14 x15 x16 x17 x18 x19 x20 =>
      Build_App x0 x1 x2 x3 x4 x5 x6 x7 x8 v x10 x11 x12 x13 x14 x15 x16 x17 x18 x19 x20
  end.

Definition with_followUpSentRef (v : bool) (s : App) : App :=
  match s with
  | Build_App x0 x1 x2 x3 x4 x5 x6 x7 x8 x9 _ x11 x12 x13 x14 x15 x16 x17 x18 x19 x20 =>
      Build_App x0 x1 x2 x3 x4 x5 x6 x7 x8 x9 v x11 x12 x13 x14 x15 x16 x17 x18 x19 x20
  end.

Definition with_activeChanged (v : bool) (s : App) : App :=
  match s with
  | Build_App x0 x1 x2 x3 x4 x5 x6 x7 x8 x9 x10 _ x12 x13 x14 x15 x16 x17 x18 x19 x20 =>
      Build_App x0 x1 x2 x3 x4 x5 x6 x7 x8 x9 x10 v x12 x13 x14 x15 x16 x17 x18 x19 x20
  end.

Definition with_chatsChanged (v : bool) (s : App) : App :=
  match s with
  | Build_App x0 x1 x2 x3 x4 x5 x6 x7 x8 x9 x10 x11 _ x13 x14 x15 x16 x17 x18 x19 x20 =>
      Build_App x0 x1 x2 x3 x4 x5 x6 x7 x8 x9 x10 x11 v x13 x14 x15 x16 x17 x18 x19 x20
  end.

Definition with_timers (v : list Timer) (s : App) : App :=
  match s with
  | Build_App x0 x1 x2 x3 x4 x5 x6 x7 x8 x9 x10 x11 x12 _ x14 x15 x16 x17 x18 x19 x20 =>
      Build_App x0 x1 x2 x3 x4 x5 x6 x7 x8 x9 x10 x11 x12 v x14 x15 x16 x17 x18 x19 x20
  end.

Definition with_now (v : N) (s : App) : App :=
  match s with
  | Build_App x0 x1 x2 x3 x4 x5 x6 x7 x8 x9 x10 x11 x12 x13 _ x15 x16 x17 x18 x19 x20 =>
      Build_App x0 x1 x2 x3 x4 x5 x6 x7 x8 x9 x10 x11 x12 x13 v x15 x16 x17 x18 x19 x20
  end.

Definition with_nextHandle (v : positive) (s : App) : App :=
  match s with
  | Build_App x0 x1 x2 x3 x4 x5 x6 x7 x8 x9 x10 x11 x12 x13 x14 _ x16 x17 x18 x19 x20 =>
      Build_App x0 x1 x2 x3 x4 x5 x6 x7 x8 x9 x10 x11 x12 x13 x14 v x16 x17 x18 x19 x20
  end.

Definition with_nextUuid (v : nat) (s : App) : App :=
  match s with
  | Build_App x0 x1 x2 x3 x4 x5 x6 x7 x8 x9 x10 x11 x12 x13 x14 x15 _ x17 x18 x19 x20 =>
      Build_App x0 x1 x2 x3 x4 x5 x6 x7 x8 x9 x10 x11 x12 x13 x14 x15 v x17 x18 x19 x20
  end.

Definition with_inflight (v : list GatewayCall) (s : App) : App :=
  match s with
  | Build_App x0 x1 x2 x3 x4 x5 x6 x7 x8 x9 x10 x11 x12 x13 x14 x15 x16 _ x18 x19 x20 =>
      Build_App x0 x1 x2 x3 x4 x5 x6 x7 x8 x9 x10 x11 x12 x13 x14 x15 x16 v x18 x19 x20
  end.

Definition with_calls (v : list GatewayCall) (s : App) : App :=
  match s with
  | Build_App x0 x1 x2 x3 x4 x5 x6 x7 x8 x9 x10 x11 x12 x13 x14 x15 x16 x17 _ x19 x20 =>
      Build_App x0 x1 x2 x3 x4 x5 x6 x7 x8 x9 x10 x11 x12 x13 x14 x15 x16 x17 v x19 x20
  end.

Definition with_alerts (v : list string) (s : App) : App :=
  match s with
  | Build_App x0 x1 x2 x3 x4 x5 x6 x7 x8 x9 x10 x11 x12 x13 x14 x15 x16 x17 x18 _ x20 =>
      Build_App x0 x1 x2 x3 x4 x5 x6 x7 x8 x9 x10 x11 x12 x13 x14 x15 x16 x17 x18 v x20
  end.

Definition with_console (v : list string) (s : App) : App :=
  match s with
  | Build_App x0 x1 x2 x3 x4 x5 x6 x7 x8 x9 x10 x11 x12 x13 x14 x15 x16 x17 x18 x19 _ =>
      Build_App x0 x1 x2 x3 x4 x5 x6 x7 x8 x9 x10 x11 x12 x13 x14 x15 x16 x17 x18 x19 v
  end.

(** ** Browser and React primitives *)

(** [clearTimeout(h)]: the entry leaves the timer table; a handle that is
    not pending is ignored. *)
Definition clearTimeout (h : positive) (s : App) : App :=
  with_timers (List.filter (fun t => negb (Pos.eqb (t_handle t) h)) (timers s)) s.

(** [if (ref.current) clearTimeout(ref.current)] *)
Definition clearIfSet (ref : option positive) (s : App) : App :=
  match ref with
  | Some h => clearTimeout h s
  | None => s
  end.

(** [setTimeout(callback, delay)] *)
Definition setTimeout (callback : TimerCallback) (delay : N) (s : App)
  : positive * App :=
  let h := nextHandle s in
  let entry := {| t_handle := h; t_callback := callback; t_due := (now s + delay)%N |} in
  (h, with_nextHandle (Pos.succ h) (with_timers (timers s ++ [entry]) s)).

(** [crypto.randomUUID()] *)
Definition randomUUID (s : App) : nat * App :=
  (nextUuid s, with_nextUuid (S (nextUuid s)) s).

(** [setChats(prev => f prev)]: always a new object, so effects that
    depend on [chats] run after the handler. *)
Definition setChats (f : gmap string (list Message) -> gmap string (list Message))
    (s : App) : App :=
  with_chatsChanged true (with_chats (f (chats s)) s).

(** [setActiveCharacterId(v)]: setting the value it already has changes
    nothing, and no effect runs. *)
Definition setActiveCharacterId (v : option string) (s : App) : App :=
  if decide (activeCharacterId s = v) then s
  else with_activeChanged true (with_activeCharacterId v s).

(** [characters.find(c => c.id === id)] *)
Definition findCharacter (id : string) (cs : list Character) : option Character :=
  List.find (fun c => String.eqb (c_id c) id) cs.

(** [chats[id] || []] *)
Definition historyOf (id : string) (s : App) : list Message :=
  default [] (chats s !! id).

(** The call leaves for the model API: it is logged and its promise is
    pending. *)
Definition sendToModel (call : GatewayCall) (s : App) : App :=
  with_inflight (inflight s ++ [call]) (with_calls (calls s ++ [call]) s).

Definition isGreetingTimer (t : Timer) : bool :=
  match t_callback t with GreetingTimer => true | InactivityTimer => false end.

Definition isInactivityTimer (t : Timer) : bool :=
  match t_callback t with InactivityTimer => true | GreetingTimer => false end.

(** The pending timers of each kind. *)
Definition greetingTimers (s : App) : list Timer :=
  List.filter isGreetingTimer (timers s).

Definition followUpTimers (s : App) : list Timer :=
  List.filter isInactivityTimer (timers s).

Definition isFollowUpCall (c : GatewayCall) : bool :=
  match gc_kind c with FollowUpCall => true | _ => false end.

(** Number of follow-up calls issued so far. *)
Definition followUpsIssued (s : App) : nat :=
  length (List.filter isFollowUpCall (calls s)).

(** ** Persona store ([handleSaveCharacter], [handleDeleteCharacter]) *)

Definition RANDOM_PURPOSES : list string :=
  [ "To convince the user to invest in a new, slightly absurd invention.";
    "To find a missing piece of an ancient artifact and believes the user knows something about it.";
    "To recruit the user for a secret society that communicates exclusively through puns.";
    "To get advice on a difficult personal problem, like how to tell their robot pet it's adopted.";
    "To plan the perfect surprise party for a mutual friend who might be a figment of their imagination.";
    "To seek help in solving a cryptic riddle that was left on a napkin.";
    "To borrow a cup of sugar, but for a strange, otherworldly recipe.";
    "To find a worthy opponent for a high-stakes game of intergalactic chess." ].

(** [!purpose?.trim()] *)
Definition purposeMissing (purpose : option string) : bool :=
  match purpose with
  | None => true
  | Some text => negb (JS.nonEmpty (JS.trim text))
  end.

(** [RANDOM_PURPOSES[Math.floor(random * RANDOM_PURPOSES.length)]], where
    [random] is the value [Math.random()] returned; an index outside the
    array reads [undefined]. *)
Definition randomPurpose (random : Q) : option string :=
  let i := Qfloor (random * inject_Z (Z.of_nat (length RANDOM_PURPOSES)))%Q in
  if (i <? 0)%Z then None else nth_error RANDOM_PURPOSES (Z.to_nat i).

Definition withPurpose (purpose : option string) (c : Character) : Character :=
  {| c_id := c_id c; c_name := c_name c; c_avatar := c_avatar c;
     c_personality := c_personality c; c_memory := c_memory c;
     c_purpose := purpose;
     c_gender := c_gender c; c_language := c_language c;
     c_voiceProfile := c_voiceProfile c; c_voiceSpeed := c_voiceSpeed c |}.

(** The record [handleSaveCharacter] stores for [character]. *)
Definition characterToSave (random : Q) (character : Character) : Character :=
  if purposeMissing (c_purpose character)
  then withPurpose (randomPurpose random) character
  else character.

Definition handleSaveCharacter (random : Q) (character : Character) (s : App) : App :=
  let saved := characterToSave random character in
  let sameId := fun c => String.eqb (c_id c) (c_id saved) in
  let s :=
    with_characters
      (match List.find sameId (characters s) with
       | Some _ => List.map (fun c => if sameId c then saved else c) (characters s)
       | None => characters s ++ [saved]
       end) s in
  match chats s !! c_id saved with
  | None => setChats (fun prev => <[c_id saved := []]> prev) s
  | Some _ => s
  end.

Definition handleDeleteCharacter (id : string) (s : App) : App :=
  let s := with_characters
             (List.filter (fun c => negb (String.eqb (c_id c) id)) (characters s)) s in
  let s := setChats (fun prev => delete id prev) s in
  if decide (activeCharacterId s = Some id) then setActiveCharacterId None s else s.

(** ** Model gateway, engagement scheduler and analysis requestor *)

(** How the promise of a model call settles: with the reply body
    ([response.text]) or with a network or transport failure. *)
Inductive Response :=
| Fulfilled (text : string)
| Rejected.

(** What the user, the clock and the network can do to the page. *)
Inductive Event :=
| SelectCharacter (id : string)                   (* Sidebar: [onSelectCharacter] *)
| Submit (input : string)                         (* ChatWindow: [handleSubmit] *)
| OptionClick (option : string)                   (* ChatWindow: [handleOptionClick] *)
| SetChatMode (mode : ChatMode)                   (* ChatWindow: [onSetChatMode] *)
| SaveCharacter (random : Q) (character : Character)
| DeleteCharacter (id : string)
| AnalyzeUser                                     (* ChatWindow: [onAnalyzeUser] *)
| Elapse (dt : N)                                 (* [dt] ms go by *)
| TimerFires (h : positive)                       (* the pending timer [h] runs *)
| Settles (i : nat) (r : Response).               (* the i-th pending promise *)

Definition sendFallback : string := "I seem to be having trouble thinking straight...".
Definition greetingFallback : string := "Hello there.".
Definition followUpFallback : string := "Hmm..?".

Definition followUpPrompt : string :=
  "The user has been silent for a moment. Send a short, natural message to re-engage them. You could ask a question, make an observation, or gently remind them of your goal. Crucially, DO NOT mention that they've been silent or ask if they are still there. Just continue the conversation smoothly.".

Definition greetingPrompt : string :=
  "You are starting the conversation. Say hello in your own unique way and say something to engage the user, based on your purpose. Be proactive. DO NOT mention that the user has been silent or that you are starting because they were idle.".

Definition analysisPrompt : string :=
  "Please analyze the user from the conversation provided in the system instructions.".

Definition analysisNotice : string :=
  "Please have a bit more conversation before analyzing the user.".

Definition analysisFailed : string :=
  "An error occurred while analyzing the user. Please try again.".

Definition sendErrorText : string :=
  "Oops! Something went wrong. Please check your API key and try again.".

Section Gateway.

(** [JSON.parse]: the value of a JSON text, [None] when it throws its
    [SyntaxError]. *)
Variable JSON_parse : string -> option JSValue.

(** The [try] block of the decoder; [None] stands for an exception:
    the [SyntaxError] of [JSON.parse], or the [TypeError] of reading
    [.dialogue] of [null]. *)
Definition tryParse (uuid : nat) (text : string) : option Message :=
  match JSON_parse text with
  | None => None
  | Some JNull => None
  | Some responseJson =>
      Some {| m_id := uuid;
              m_role := model;
              m_text := match member "dialogue" responseJson with
                        | Some dialogue => if truthy dialogue then dialogue else JStr "..."
                        | None => JStr "..."
                        end;
              m_thought := member "thought" responseJson;
              m_action := member "action" responseJson;
              m_userResponseOptions := member "user_response_options" responseJson |}
  end.

(** The decoder with its [catch]: the three handlers differ in the
    fallback text only. *)
Definition parseAiMessage (fallback : string) (uuid : nat) (text : string) : Message :=
  match tryParse uuid text with
  | Some aiMessage => aiMessage
  | None => textMessage uuid model (JS.orElse text fallback)
  end.

(** The [console.error] of that [catch]. *)
Definition logParseFailure (label text : string) (s : App) : App :=
  match tryParse 0 text with
  | Some _ => s
  | None => with_console (console s ++ [label]) s
  end.

(** [inactivityTimerRef.current = setTimeout(..., 15000)] *)
Definition armInactivityTimer (s : App) : App :=
  let '(h, s) := setTimeout InactivityTimer 15000 s in
  with_inactivityTimerRef (Some h) s.

Definition handleSendMessage (messageText : string) (s : App) : App :=
  match activeCharacterId s with
  | None => s
  | Some activeId =>
      let s := with_inactivityTimerRef None (clearIfSet (inactivityTimerRef s) s) in
      let s := with_proactiveGreetingTimerRef None
                 (clearIfSet (proactiveGreetingTimerRef s) s) in
      let s := with_followUpSentRef false s in
      match findCharacter activeId (characters s) with
      | None => s
      | Some _ =>
          let '(uuid, s) := randomUUID s in
          let userMessage := textMessage uuid user messageText in
          let currentHistory := historyOf activeId s in
          let updatedHistory := currentHistory ++ [userMessage] in
          let s := setChats (fun prev => <[activeId := updatedHistory]> prev) s in
          let s := with_isLoading true s in
          sendToModel {| gc_kind := SendCall; gc_character := activeId;
                         gc_mode := chatMode s; gc_history := currentHistory;
                         gc_message := messageText;
                         gc_appendTo := updatedHistory |} s
      end
  end.

Definition handleSendFollowUp (s : App) : App :=
  if isLoading s || isNull (activeCharacterId s) || followUpSentRef s then s
  else
    match activeCharacterId s with
    | None => s
    | Some activeId =>
        match findCharacter activeId (characters s) with
        | None => s
        | Some _ =>
            let s := with_inactivityTimerRef None (clearIfSet (inactivityTimerRef s) s) in
            let s := with_followUpSentRef true s in
            let s := with_isLoading true s in
            let currentHistory := historyOf activeId s in
            sendToModel {| gc_kind := FollowUpCall; gc_character := activeId;
                           gc_mode := chatMode s; gc_history := currentHistory;
                           gc_message := followUpPrompt;
                           gc_appendTo := currentHistory |} s
        end
    end.

Definition handleProactiveGreeting (s : App) : App :=
  if isLoading s || isNull (activeCharacterId s) then s
  else
    match activeCharacterId s with
    | None => s
    | Some activeId =>
        match findCharacter activeId (characters s) with
        | None => s
        | Some _ =>
            let currentHistory := historyOf activeId s in
            if negb (isNil currentHistory) then s
            else
              let s := with_proactiveGreetingTimerRef None
                         (clearIfSet (proactiveGreetingTimerRef s) s) in
              let s := with_isLoading true s in
              sendToModel {| gc_kind := GreetingCall; gc_character := activeId;
                             gc_mode := chatMode s; gc_history := [];
                             gc_message := greetingPrompt;
                             gc_appendTo := currentHistory |} s
        end
    end.

Definition handleAnalyzeUser (s : App) : App :=
  match activeCharacterId s with
  | None => s
  | Some activeId =>
      let currentHistory := historyOf activeId s in
      let userMessages := List.filter isUser currentHistory in
      if (length userMessages <? 2)%nat
      then with_alerts (alerts s ++ [analysisNotice]) s
      else
        let s := with_isAnalyzing true s in
        let s := with_isAnalysisModalOpen true s in
        let s := with_analysisResult None s in
        sendToModel {| gc_kind := AnalysisCall; gc_character := activeId;
                       gc_mode := chatMode s; gc_history := currentHistory;
                       gc_message := analysisPrompt;
                       gc_appendTo := [] |} s
  end.

(** The rest of an [async] handler, run when its promise settles:
    the code after [await], its [catch] and its [finally].  It works on
    what the handler closed over ([call]), not on the current render. *)
Definition settle (call : GatewayCall) (r : Response) (s : App) : App :=
  let activeId := gc_character call in
  match gc_kind call, r with
  | SendCall, Fulfilled text =>
      let s := logParseFailure "Failed to parse AI JSON response:" text s in
      let '(uuid, s) := randomUUID s in
      let aiMessage := parseAiMessage sendFallback uuid text in
      let s := setChats (fun prev => <[activeId := gc_appendTo call ++ [aiMessage]]> prev) s in
      let s := match gc_mode call with
               | normal => armInactivityTimer s
               | game => s
               end in
      with_isLoading false s
  | SendCall, Rejected =>
      let s := with_console (console s ++ ["Error communicating with Gemini API:"]) s in
      let '(uuid, s) := randomUUID s in
      let errorMessage := textMessage uuid model sendErrorText in
      let s := setChats (fun prev => <[activeId := gc_appendTo call ++ [errorMessage]]> prev) s in
      with_isLoading false s
  | GreetingCall, Fulfilled text =>
      let s := logParseFailure "Failed to parse AI JSON response for greeting:" text s in
      let '(uuid, s) := randomUUID s in
      let aiMessage := parseAiMessage greetingFallback uuid text in
      let s := setChats (fun prev => <[activeId := gc_appendTo call ++ [aiMessage]]> prev) s in
      let s := match gc_mode call with
               | normal => armInactivityTimer s
               | game => s
               end in
      with_isLoading false s
  | GreetingCall, Rejected =>
      let s := with_console (console s ++ ["Error sending AI greeting:"]) s in
      with_isLoading false s
  | FollowUpCall, Fulfilled text =>
      let s := logParseFailure "Failed to parse AI JSON response for follow-up:" text s in
      let '(uuid, s) := randomUUID s in
      let aiMessage := parseAiMessage followUpFallback uuid text in
      let s := setChats (fun prev => <[activeId := gc_appendTo call ++ [aiMessage]]> prev) s in
      with_isLoading false s
  | FollowUpCall, Rejected =>
      let s := with_console (console s ++ ["Error sending AI follow-up:"]) s in
      with_isLoading false s
  | AnalysisCall, Fulfilled text =>
      match JSON_parse text with
      | Some resultJson =>
          let s := with_analysisResult
                     (match resultJson with JNull => None | v => Some v end) s in
          with_isAnalyzing false s
      | None =>
          let s := with_console (console s ++ ["Error analyzing user:"]) s in
          let s := with_alerts (alerts s ++ [analysisFailed]) s in
          let s := with_isAnalysisModalOpen false s in
          with_isAnalyzing false s
      end
  | AnalysisCall, Rejected =>
      let s := with_console (console s ++ ["Error analyzing user:"]) s in
      let s := with_alerts (alerts s ++ [analysisFailed]) s in
      let s := with_isAnalysisModalOpen false s in
      with_isAnalyzing false s
  end.

(** The greeting effect, dependencies [activeCharacterId, chats]: the
    cleanup of its previous run and the first statement of its body both
    clear the timer the ref holds (the ref itself keeps the handle);
    then a new timer is armed when the active conversation is empty. *)
Definition greetingEffect (s : App) : App :=
  let s := clearIfSet (proactiveGreetingTimerRef s) s in
  match activeCharacterId s with
  | Some activeId =>
      if isNil (historyOf activeId s)
      then
        let '(h, s) := setTimeout GreetingTimer 10000 s in
        with_proactiveGreetingTimerRef (Some h) s
      else s
  | None => s
  end.

(** The cleanup of the effect with dependency [activeCharacterId]. *)
Definition switchCleanup (s : App) : App :=
  clearIfSet (proactiveGreetingTimerRef s) (clearIfSet (inactivityTimerRef s) s).

(** React renders after a handler returns and runs the effects whose
    dependencies changed: cleanups first, then bodies. *)
Definition render (s : App) : App :=
  let s1 := if activeChanged s then switchCleanup s else s in
  let s2 := if activeChanged s || chatsChanged s then greetingEffect s1 else s1 in
  with_activeChanged false (with_chatsChanged false s2).

Definition findTimer (h : positive) (s : App) : option Timer :=
  List.find (fun t => Pos.eqb (t_handle t) h) (timers s).

Definition runCallback (callback : TimerCallback) (s : App) : App :=
  match callback with
  | GreetingTimer => handleProactiveGreeting s
  | InactivityTimer => handleSendFollowUp s
  end.

(** What one event does before React renders. *)
Definition dispatch (s : App) (e : Event) : App :=
  match e with
  | SelectCharacter id => setActiveCharacterId (Some id) s
  | Submit input =>
      if JS.nonEmpty (JS.trim input) && negb (isLoading s)
      then handleSendMessage (JS.trim input) s
      else s
  | OptionClick option =>
      if negb (isLoading s) then handleSendMessage option s else s
  | SetChatMode mode => with_chatMode mode s
  | SaveCharacter random character => handleSaveCharacter random character s
  | DeleteCharacter id => handleDeleteCharacter id s
  | AnalyzeUser => handleAnalyzeUser s
  | Elapse dt => with_now (now s + dt)%N s
  | TimerFires h =>
      match findTimer h s with
      | Some t =>
          if (t_due t <=? now s)%N
          then runCallback (t_callback t) (clearTimeout h s)
          else s
      | None => s
      end
  | Settles i r =>
      match nth_error (inflight s) i with
      | Some call =>
          settle call r
            (with_inflight (firstn i (inflight s) ++ skipn (S i) (inflight s)) s)
      | None => s
      end
  end.

Definition step (s : App) (e : Event) : App := render (dispatch s e).

Definition run (s : App) (events : list Event) : App := fold_left step events s.

End Gateway.

(** The page right after mount: personas and conversations as read from
    local storage, nothing selected, no timer, no call. *)
Definition mounted (storedCharacters : list Character)
    (storedChats : gmap string (list Message)) : App :=
  {| characters := storedCharacters;
     activeCharacterId := None;
     chats := storedChats;
     isLoading := false;
     chatMode := normal;
     isAnalyzing := false;
     isAnalysisModalOpen := false;
     analysisResult := None;
     inactivityTimerRef := None;
     proactiveGreetingTimerRef := None;
     followUpSentRef := false;
     activeChanged := false;
     chatsChanged := false;
     timers := [];
     now := 0;
     nextHandle := 1;
     nextUuid := 0;
     inflight := [];
     calls := [];
     alerts := [];
     console := [] |}.

(** A user send: the two events that reach [handleSendMessage]. *)
Definition isUserSend (e : Event) : bool :=
  match e with
  | Submit _ | OptionClick _ => true
  | _ => false
  end.

(** A run is on time when the clock never jumps over the deadline of a
    pending timer. *)
Definition onTimeStep (s : App) (e : Event) : bool :=
  match e with
  | Elapse dt => forallb (fun t => (now s + dt <=? t_due t)%N) (timers s)
  | _ => true
  end.

Fixpoint onTime (JSON_parse : string -> option JSValue) (s : App)
    (events : list Event) : bool :=
  match events with
  | [] => true
  | e :: rest => onTimeStep s e && onTime JSON_parse (step JSON_parse s e) rest
  end.

(** ** Concrete data for the examples *)

(** [JSON.parse] on the reply bodies used in the examples: [{}] and
    [null] are JSON texts, the plain sentences are not. *)
Definition exampleParse (text : string) : option JSValue :=
  if String.eqb text "{}" then Some (JObj [])
  else if String.eqb text "null" then Some JNull
  else None.

Definition persona (id : string) (gender : Gender) (language : string)
    (purpose : option string) : Character :=
  {| c_id := id; c_name := "Nova"; c_avatar := "N";
     c_personality := "You are a witty space pirate.";
     c_memory := ""; c_purpose := purpose;
     c_gender := gender; c_language := language;
     c_voiceProfile := medium; c_voiceSpeed := normalSpeed |}.

Definition idA : string := "123e4567-e89b-12d3-a456-426614174000".
Definition idB : string := "9b2f6c1e-4d3a-4f7b-8c21-5e0a7d9f3b64".

Definition nova : Character := persona idA male "en-US" (Some "To find a crew.").
Definition vega : Character := persona idB female "en-US" (Some "To sell a map.").

Definition david : Voice :=
  {| v_name := "Microsoft David"; v_lang := "en-US";
     v_localService := true; v_default := false |}.

Definition zira : Voice :=
  {| v_name := "Microsoft Zira"; v_lang := "en-US";
     v_localService := true; v_default := false |}.

Definition anna : Voice :=
  {| v_name := "Anna"; v_lang := "de-DE";
     v_localService := true; v_default := true |}.

(** Two personas saved into an empty page. *)
Definition twoPersonas : App :=
  run exampleParse (mounted [] ∅)
    [SaveCharacter (1 # 2) nova; SaveCharacter (1 # 2) vega].

Definition orion : Character := persona idB male "en-US" None.
Definition kenji : Character := persona idA male "ja-JP" None.

(** The candidates the selector sorts: the voices of the persona's
    language, else the English ones. *)
Definition candidates (voices : list Voice) (character : Character) : list Voice :=
  let lang := JS.orElse (c_language character) "en-US" in
  let langVoices :=
    List.filter (fun v => JS.startsWith (v_lang v) (JS.splitHead "-" lang)) voices in
  if isNil langVoices
  then List.filter (fun v => JS.startsWith (v_lang v) "en") voices
  else langVoices.

(** [nova] after an edit that keeps id, gender and language. *)
Definition novaEdited : Character :=
  {| c_id := idA; c_name := "Nova Prime"; c_avatar := "P";
     c_personality := "You are a retired space pirate.";
     c_memory := "Has a robot dog named Sparky."; c_purpose := None;
     c_gender := male; c_language := "en-US";
     c_voiceProfile := low; c_voiceSpeed := fast |}.

(** The fallback text in the [catch] of each chat handler's decoder. *)
Definition fallbackFor (kind : CallKind) : string :=
  match kind with
  | SendCall => sendFallback
  | GreetingCall => greetingFallback
  | FollowUpCall => followUpFallback
  | AnalysisCall => ""
  end.

Definition isChatCall (kind : CallKind) : bool :=
  match kind with AnalysisCall => false | _ => true end.

(** Every pending greeting timer is the one the ref holds. *)
Definition held (pending : list Timer) (ref : option positive) : Prop :=
  forall t, In t pending -> isGreetingTimer t = true -> ref = Some (t_handle t).

Definition greetingTimersHeld (s : App) : Prop :=
  held (timers s) (proactiveGreetingTimerRef s).

(** Follow-up calls still allowed before the next user send: issued so
    far, plus one while the guard is down. *)
Definition followUpBudget (s : App) : nat :=
  followUpsIssued s + (if followUpSentRef s then 0 else 1).

(** A greeting that fails: persona A is selected, its greeting timer
    fires after 10 s, and the model call is rejected one second later. *)
Definition failedGreeting : list Event :=
  [SelectCharacter idA; Elapse 10000; TimerFires 1; Elapse 1000; Settles 0 Rejected].

(** A reply that arrives after a persona switch.  The user writes to A
    and switches to B while the call is pending; A's reply arms a
    follow-up timer (handle 3); B's greeting fires, and its reply arms a
    second one (handle 5) without clearing the first. *)
Definition replyAfterSwitch : list Event :=
  [SelectCharacter idA; Submit "hi"; SelectCharacter idB; Elapse 1000;
   Settles 0 (Fulfilled "Hello!");
   Elapse 10000; TimerFires 4; Elapse 1000; Settles 0 (Fulfilled "Ahoy!")].

(** Then the user writes to B, and the model answers a second later. *)
Definition sendInB : list Event := [Elapse 1000; Submit "yo"].
Definition replyInB : list Event := [Elapse 1000; Settles 0 (Fulfilled "Aye.")].

(** The user greets A and A answers with plain text. *)
Definition firstExchange : list Event :=
  [SelectCharacter idA; Submit "hi"; Elapse 1000; Settles 0 (Fulfilled "Hello!")].

(** Fifteen silent seconds: the follow-up timer (handle 2) fires, the
    model answers with an empty JSON object, and nothing else happens for
    a minute. *)
Definition silence : list Event :=
  [Elapse 15000; TimerFires 2; Elapse 1000; Settles 0 (Fulfilled "{}"); Elapse 60000].

(** The call [Submit "hi"] issues from the page with two personas. *)
Definition firstCall : GatewayCall :=
  {| gc_kind := SendCall; gc_character := idA; gc_mode := normal;
     gc_history := []; gc_message := "hi";
     gc_appendTo := [textMessage 0 user "hi"] |}.

(** Every pending follow-up timer is the one the ref holds. *)
Definition followUpHeld (pending : list Timer) (ref : option positive) : Prop :=
  forall t, In t pending -> isInactivityTimer t = true -> ref = Some (t_handle t).

(** The timer table after [if (ref) clearTimeout(ref)]. *)
Definition cleared (ref : option positive) (pending : list Timer) : list Timer :=
  match ref with
  | Some h => List.filter (fun t => negb (Pos.eqb (t_handle t) h)) pending
  | None => pending
  end.

(** ** Further notions used by the properties of the whole page *)

(** The chat calls (send, greeting, follow-up) whose promise is pending. *)
Definition pendingChatCalls (s : App) : list GatewayCall :=
  List.filter (fun call => isChatCall (gc_kind call)) (inflight s).

(** At most one chat call is out; the loading flag is up exactly then;
    and the conversation the reply will overwrite is still the one the
    call captured, unless it was deleted meanwhile. *)
Definition singleFlight (s : App) : Prop :=
  match pendingChatCalls s with
  | [] => isLoading s = false
  | [call] =>
      isLoading s = true /\
      (historyOf (gc_character call) s = gc_appendTo call \/
       historyOf (gc_character call) s = [])
  | _ => False
  end.

(** A pending greeting timer waits for an active, empty conversation. *)
Definition greetingJustified (s : App) : Prop :=
  forall t, In t (timers s) -> isGreetingTimer t = true ->
    exists id, activeCharacterId s = Some id /\ historyOf id s = [].

(** The one event that arms a follow-up timer: the reply to a send or a
    greeting whose call was issued in normal mode. *)
Definition armsFollowUp (s : App) (e : Event) : bool :=
  match e with
  | Settles i (Fulfilled _) =>
      match nth_error (inflight s) i with
      | Some call =>
          match gc_kind call, gc_mode call with
          | SendCall, normal | GreetingCall, normal => true
          | _, _ => false
          end
      | None => false
      end
  | _ => false
  end.

(** What one dispatched event does to the call queue, the loading flag
    and the conversations: a summary of the handlers, proved of
    [dispatch] below and used to follow runs of the page. *)
Inductive Outcome (s : App) (e : Event) (d : App) : Prop :=
| o_frame :
    inflight d = inflight s -> isLoading d = isLoading s -> chats d = chats s ->
    Outcome s e d
| o_created (id : string) :
    chats s !! id = None -> chats d = <[id := []]> (chats s) ->
    inflight d = inflight s -> isLoading d = isLoading s ->
    Outcome s e d
| o_deleted (id : string) :
    e = DeleteCharacter id -> chats d = delete id (chats s) ->
    inflight d = inflight s -> isLoading d = isLoading s ->
    Outcome s e d
| o_analysis (call : GatewayCall) :
    gc_kind call = AnalysisCall -> inflight d = inflight s ++ [call] ->
    isLoading d = isLoading s -> chats d = chats s ->
    Outcome s e d
| o_issued (call : GatewayCall) (added : list Message) :
    isChatCall (gc_kind call) = true ->
    isLoading s = false -> isLoading d = true ->
    inflight d = inflight s ++ [call] ->
    gc_appendTo call = historyOf (gc_character call) s ++ added ->
    historyOf (gc_character call) d = gc_appendTo call ->
    (forall id, id <> gc_character call -> chats d !! id = chats s !! id) ->
    Outcome s e d
| o_settled (i : nat) (call : GatewayCall) (reply : option Message) :
    nth_error (inflight s) i = Some call ->
    isChatCall (gc_kind call) = true ->
    inflight d = firstn i (inflight s) ++ skipn (S i) (inflight s) ->
    isLoading d = false ->
    chats d = match reply with
              | Some m => <[gc_character call := gc_appendTo call ++ [m]]> (chats s)
              | None => chats s
              end ->
    Outcome s e d
| o_analysed (i : nat) (call : GatewayCall) :
    nth_error (inflight s) i = Some call ->
    gc_kind call = AnalysisCall ->
    inflight d = firstn i (inflight s) ++ skipn (S i) (inflight s) ->
    isLoading d = isLoading s -> chats d = chats s ->
    Outcome s e d.

(** Pending timers have distinct handles, all below the next handle
    [setTimeout] will hand out. *)
Definition timersTidy (pending : list Timer) (next : positive) : Prop :=
  List.NoDup (List.map t_handle pending) /\
  forall t, In t pending -> (t_handle t < next)%positive.

(** ChatWindow: [messages.filter(m => m.role === 'user').length >= 2],
    which enables the Analyze button. *)
Definition hasEnoughMessagesForAnalysis (messages : list Message) : bool :=
  (2 <=? length (List.filter isUser messages))%nat.

(** The call [handleAnalyzeUser] issues for the conversation of [id]. *)
Definition analysisCallFor (id : string) (s : App) : GatewayCall :=
  {| gc_kind := AnalysisCall; gc_character := id; gc_mode := chatMode s;
     gc_history := historyOf id s; gc_message := analysisPrompt;
     gc_appendTo := [] |}.

(** ** Reading a message aloud ([handleToggleSpeech], ChatWindow.tsx)

    The chat window keeps the voices the browser has loaded and the id of
    the message being read; [window.speechSynthesis] is the list of calls
    made on it and its [paused] flag, which [cancel] leaves as it is and
    [resume] lowers.  The [onend] and [onerror] handlers the function
    attaches to the utterance run later, when the browser fires them. *)

Module Speech.

Record Utterance := {
  u_text : JSValue;
  u_voice : option Voice;          (* [null] until assigned *)
  u_lang : option string;
  u_pitch : Q;
  u_rate : Q
}.

Inductive SynthesisCall :=
| cancel
| resume
| speak (utterance : Utterance).

Record ChatWindow := {
  voices : list Voice;
  speakingMessageId : option nat;
  paused : bool;
  synthesis : list SynthesisCall;
  alerts : list string
}.

Definition voicesNotice : string :=
  "Text-to-speech voices not available yet. Please wait a moment and try again.".

Definition pitchOf (profile : VoiceProfile) : Q :=
  match profile with low => 8 # 10 | high => 12 # 10 | medium => 1 end.

Definition rateOf (speed : VoiceSpeed) : Q :=
  match speed with slow => 8 # 10 | fast => 12 # 10 | normalSpeed => 1 end.

Definition handleToggleSpeech (character : Character) (message : Message)
    (w : ChatWindow) : ChatWindow :=
  if isNil (voices w)
  then {| voices := voices w; speakingMessageId := speakingMessageId w;
          paused := paused w; synthesis := synthesis w;
          alerts := alerts w ++ [voicesNotice] |}
  else if decide (speakingMessageId w = Some (m_id message))
  then {| voices := voices w; speakingMessageId := None;
          paused := paused w; synthesis := synthesis w ++ [cancel];
          alerts := alerts w |}
  else
    let kick := if paused w then [resume] else [] in
    let voice := getCharacterVoice (voices w) character in
    let utterance :=
      {| u_text := m_text message;
         u_voice := voice;
         u_lang := option_map v_lang voice;
         u_pitch := pitchOf (c_voiceProfile character);
         u_rate := rateOf (c_voiceSpeed character) |} in
    {| voices := voices w; speakingMessageId := Some (m_id message);
       paused := false;
       synthesis := synthesis w ++ [cancel] ++ kick ++ [speak utterance];
       alerts := alerts w |}.

End Speech.

(** ** Persona editor ([CharacterModal.tsx]) *)

Module CharacterModal.

Record Form := {
  name : string;
  avatar : string;
  personality : string;
  memory : string;
  purpose : string;
  gender : Gender;
  language : string;
  voiceProfile : VoiceProfile;
  voiceSpeed : VoiceSpeed
}.



Definition requiredNotice : string := "Name and Personality are required.".

(** [handleSubmit]: the alert text, or the persona handed to [onSave].
    [uuid] is what [crypto.randomUUID()] returns. *)
Definition handleSubmit (character : option Character) (uuid : string) (f : Form)
  : string + Character :=
  if negb (JS.nonEmpty (JS.trim (name f)))
     || negb (JS.nonEmpty (JS.trim (personality f)))
  then inl requiredNotice
  else inr {| c_id := match character with
                      | Some c => JS.orElse (c_id c) uuid
                      | None => uuid
                      end;
              c_name := name f;
              c_avatar := avatar f;
              c_personality := personality f;
              c_memory := memory f;
              c_purpose := Some (purpose f);
              c_gender := gender f;
              c_language := language f;
              c_voiceProfile := voiceProfile f;
              c_voiceSpeed := voiceSpeed f |}.

End CharacterModal.

(** ** Quiz that builds a persona ([DynamicQuizModal.tsx])

    The two callbacks of the modal return promises; the modal is split
    at each [await] like the handlers of the page.  The requests made
    through the callbacks are logged. *)

Module DynamicQuizModal.

Inductive View := conceptView | quizView | loadingView.

Record QuizQuestion := {
  q_question : string;
  q_answers : list string
}.

(** [{ [key: number]: string }]: an object with integer keys, which
    JavaScript enumerates in ascending order. *)
Definition Answers := list (nat * string).

(** [{ ...o, [key]: value }] *)
Fixpoint assign (key : nat) (value : string) (o : Answers) : Answers :=
  match o with
  | [] => [(key, value)]
  | (k, v) :: rest =>
      if (key <? k)%nat then (key, value) :: o
      else if (key =? k)%nat then (key, value) :: rest
      else (k, v) :: assign key value rest
  end.

(** [o[key]] *)
Fixpoint get (key : nat) (o : Answers) : option string :=
  match o with
  | [] => None
  | (k, v) :: rest => if (key =? k)%nat then Some v else get key rest
  end.

(** How an awaited promise settles; a rejection carries the message of
    the [Error] thrown, [None] when the value thrown is no [Error]. *)
Inductive Settled (A : Type) :=
| resolves (value : A)
| rejects (message : option string).
Arguments resolves {A} value.
Arguments rejects {A} message.

Inductive Awaited := questionsPromise | characterPromise.

Record Modal := {
  view : View;
  loadingText : string;
  concept : string;
  questions : list QuizQuestion;
  answers : Answers;
  currentQuestionIndex : nat;
  error : option string;
  awaited : option Awaited;
  closed : bool;                                  (* unmounted by the parent *)
  questionRequests : list string;
  characterRequests : list (string * list (string * string))
}.

Definition opened : Modal :=
  {| view := conceptView; loadingText := ""; concept := ""; questions := [];
     answers := []; currentQuestionIndex := 0; error := None;
     awaited := None; closed := false;
     questionRequests := []; characterRequests := [] |}.

Definition setConcept (text : string) (m : Modal) : Modal :=
  {| view := view m; loadingText := loadingText m; concept := text;
     questions := questions m; answers := answers m;
     currentQuestionIndex := currentQuestionIndex m; error := error m;
     awaited := awaited m; closed := closed m;
     questionRequests := questionRequests m;
     characterRequests := characterRequests m |}.

Definition handleConceptSubmit (m : Modal) : Modal :=
  if negb (JS.nonEmpty (JS.trim (concept m)))
  then {| view := view m; loadingText := loadingText m; concept := concept m;
          questions := questions m; answers := answers m;
          currentQuestionIndex := currentQuestionIndex m;
          error := Some "Please enter a character concept.";
          awaited := awaited m; closed := closed m;
          questionRequests := questionRequests m;
          characterRequests := characterRequests m |}
  else {| view := loadingView; loadingText := "Generating tailored questions...";
          concept := concept m;
          questions := questions m; answers := answers m;
          currentQuestionIndex := currentQuestionIndex m;
          error := None;
          awaited := Some questionsPromise; closed := closed m;
          questionRequests := questionRequests m ++ [concept m];
          characterRequests := characterRequests m |}.

(** The [catch] of [handleConceptSubmit]. *)
Definition questionsFailed (message : string) (m : Modal) : Modal :=
  {| view := conceptView; loadingText := loadingText m; concept := concept m;
     questions := questions m; answers := answers m;
     currentQuestionIndex := currentQuestionIndex m;
     error := Some message;
     awaited := None; closed := closed m;
     questionRequests := questionRequests m;
     characterRequests := characterRequests m |}.

(** [handleConceptSubmit] after its [await]; the value resolved is
    [None] when it is [null]. *)
Definition questionsSettled (outcome : Settled (option (list QuizQuestion)))
    (m : Modal) : Modal :=
  match outcome with
  | resolves (Some (q :: rest)) =>
      {| view := quizView; loadingText := loadingText m; concept := concept m;
         questions := q :: rest; answers := [];
         currentQuestionIndex := 0; error := error m;
         awaited := None; closed := closed m;
         questionRequests := questionRequests m;
         characterRequests := characterRequests m |}
  | resolves _ =>
      questionsFailed
        "The AI didn't return any questions. Please try a different concept." m
  | rejects (Some message) => questionsFailed message m
  | rejects None => questionsFailed "An unknown error occurred." m
  end.

Definition handleAnswerSelect (answer : string) (m : Modal) : Modal :=
  {| view := view m; loadingText := loadingText m; concept := concept m;
     questions := questions m;
     answers := assign (currentQuestionIndex m) answer (answers m);
     currentQuestionIndex := currentQuestionIndex m; error := error m;
     awaited := awaited m; closed := closed m;
     questionRequests := questionRequests m;
     characterRequests := characterRequests m |}.

Definition setCurrentQuestionIndex (f : nat -> nat) (m : Modal) : Modal :=
  {| view := view m; loadingText := loadingText m; concept := concept m;
     questions := questions m; answers := answers m;
     currentQuestionIndex := f (currentQuestionIndex m); error := error m;
     awaited := awaited m; closed := closed m;
     questionRequests := questionRequests m;
     characterRequests := characterRequests m |}.

Definition handleNext (m : Modal) : Modal :=
  if (Z.of_nat (currentQuestionIndex m) <? Z.of_nat (length (questions m)) - 1)%Z
  then setCurrentQuestionIndex (fun prev => prev + 1) m
  else m.

Definition handleBack (m : Modal) : Modal :=
  if (0 <? currentQuestionIndex m)%nat
  then setCurrentQuestionIndex (fun prev => prev - 1) m
  else m.

(** [Object.entries(answers).map(...)]: [None] when some
    [questions[index]] is [undefined], where reading [.question] throws. *)
Fixpoint formattedAnswers (questions : list QuizQuestion) (entries : Answers)
  : option (list (string * string)) :=
  match entries with
  | [] => Some []
  | (index, answer) :: rest =>
      match nth_error questions index with
      | None => None
      | Some q =>
          match formattedAnswers questions rest with
          | None => None
          | Some more => Some ((q_question q, answer) :: more)
          end
      end
  end.

(** The [catch] of [handleGenerateCharacter]. *)
Definition characterFailed (message : string) (m : Modal) : Modal :=
  {| view := quizView; loadingText := "Crafting your character...";
     concept := concept m;
     questions := questions m; answers := answers m;
     currentQuestionIndex := currentQuestionIndex m;
     error := Some message;
     awaited := None; closed := closed m;
     questionRequests := questionRequests m;
     characterRequests := characterRequests m |}.

(** [handleGenerateCharacter] up to its [await]; [typeError] is the
    message of the engine's [TypeError]. *)
Definition handleGenerateCharacter (typeError : string) (m : Modal) : Modal :=
  match formattedAnswers (questions m) (answers m) with
  | None => characterFailed typeError m
  | Some formatted =>
      {| view := loadingView; loadingText := "Crafting your character...";
         concept := concept m;
         questions := questions m; answers := answers m;
         currentQuestionIndex := currentQuestionIndex m; error := error m;
         awaited := Some characterPromise; closed := closed m;
         questionRequests := questionRequests m;
         characterRequests := characterRequests m ++ [(concept m, formatted)] |}
  end.

Definition close (m : Modal) : Modal :=
  {| view := view m; loadingText := loadingText m; concept := concept m;
     questions := questions m; answers := answers m;
     currentQuestionIndex := currentQuestionIndex m; error := error m;
     awaited := awaited m; closed := true;
     questionRequests := questionRequests m;
     characterRequests := characterRequests m |}.

(** [handleGenerateCharacter] after its [await]: on success the parent
    has closed the modal. *)
Definition characterSettled (outcome : Settled unit) (m : Modal) : Modal :=
  match outcome with
  | resolves _ => close m
  | rejects (Some message) => characterFailed message m
  | rejects None =>
      characterFailed "An unknown error occurred while generating the character." m
  end.

(** What [renderQuizView] computes. *)
Definition currentQuestion (m : Modal) : option QuizQuestion :=
  nth_error (questions m) (currentQuestionIndex m).

Definition selectedAnswer (m : Modal) : option string :=
  get (currentQuestionIndex m) (answers m).

Definition isLastQuestion (m : Modal) : bool :=
  (Z.of_nat (currentQuestionIndex m) =? Z.of_nat (length (questions m)) - 1)%Z.

(** Truthiness of [answers[i]]: [undefined] and the empty string are
    falsy. *)
Definition chosen (answer : option string) : bool :=
  match answer with
  | Some a => JS.nonEmpty a
  | None => false
  end.

(** What can happen to the modal: the user acts on a control that is
    rendered and enabled, or a promise settles. *)
Inductive Event :=
| TypeConcept (text : string)
| ClickGenerateQuestions
| QuestionsSettle (outcome : Settled (option (list QuizQuestion)))
| ClickAnswer (n : nat)                 (* the n-th answer button *)
| ClickNext
| ClickBack
| ClickGenerateCharacter
| CharacterSettle (outcome : Settled unit)
| ClickClose.

Definition dispatch (typeError : string) (m : Modal) (e : Event) : Modal :=
  if closed m then m
  else
    match e with
    | TypeConcept text =>
        match view m with conceptView => setConcept text m | _ => m end
    | ClickGenerateQuestions =>
        match view m with
        | conceptView =>
            if JS.nonEmpty (JS.trim (concept m)) then handleConceptSubmit m else m
        | _ => m
        end
    | QuestionsSettle outcome =>
        match awaited m with
        | Some questionsPromise => questionsSettled outcome m
        | _ => m
        end
    | ClickAnswer n =>
        match view m, currentQuestion m with
        | quizView, Some q =>
            match nth_error (q_answers q) n with
            | Some answer => handleAnswerSelect answer m
            | None => m
            end
        | _, _ => m
        end
    | ClickNext =>
        match view m, currentQuestion m with
        | quizView, Some _ =>
            if negb (isLastQuestion m) && chosen (selectedAnswer m)
            then handleNext m else m
        | _, _ => m
        end
    | ClickBack =>
        match view m, currentQuestion m with
        | quizView, Some _ =>
            if (currentQuestionIndex m =? 0)%nat then m else handleBack m
        | _, _ => m
        end
    | ClickGenerateCharacter =>
        match view m, currentQuestion m with
        | quizView, Some _ =>
            if isLastQuestion m && chosen (selectedAnswer m)
            then handleGenerateCharacter typeError m else m
        | _, _ => m
        end
    | CharacterSettle outcome =>
        match awaited m with
        | Some characterPromise => characterSettled outcome m
        | _ => m
        end
    | ClickClose => close m
    end.

Definition run (typeError : string) (m : Modal) (events : list Event) : Modal :=
  fold_left (dispatch typeError) events m.

(** The keys of an object in the order JavaScript enumerates them are
    strictly ascending. *)
Fixpoint ascending (keys : list nat) : Prop :=
  match keys with
  | [] => True
  | k :: rest => (forall j, In j rest -> k < j) /\ ascending rest
  end.

(** A request made through [onGenerateCharacter] is complete: it carries
    the concept and, for every question in order, its text with an answer
    that is one of its options and is not empty. *)
Definition complete (m : Modal) (request : string * list (string * string)) : Prop :=
  fst request = concept m /\
  List.map fst (snd request) = List.map q_question (questions m) /\
  Forall2 (fun q qa => In (snd qa) (q_answers q) /\ snd qa <> "")
    (questions m) (snd request).

(** What holds of the modal whatever has happened to it. *)
Record Consistent (m : Modal) : Prop := {
  keys_ascending : ascending (List.map fst (answers m));
  from_options :
    forall k a, In (k, a) (answers m) ->
      exists q, nth_error (questions m) k = Some q /\ In a (q_answers q);
  answered_before :
    forall k, k < currentQuestionIndex m -> chosen (get k (answers m)) = true;
  in_range :
    view m = quizView \/ awaited m = Some characterPromise ->
    currentQuestionIndex m < length (questions m);
  requests_complete :
    forall r, In r (characterRequests m) -> complete m r;
  before_quiz :
    view m = conceptView \/ awaited m = Some questionsPromise ->
    characterRequests m = [];
  spinner :
    closed m = false -> (view m = loadingView <-> awaited m <> None)
}.

End DynamicQuizModal.


(** ** Further concrete data *)

(** U+00A0 (no-break space) and U+3000 (ideographic space), encoded. *)
Definition nbsp : string := String "194" (String "160" "").
Definition ideographicSpace : string :=
  String "227" (String "128" (String "128" "")).

(** A text of three white-space characters, none of them ASCII. *)
Definition wideBlank : string := nbsp +:+ ideographicSpace +:+ nbsp.

(** A second follow-up in B with no user message in B.  The user
    writes to B, B answers, and after 15 silent seconds the follow-up is
    sent and answered.  The user then writes to A and returns to B while
    that call is pending; A's reply arms a follow-up timer (handle 4),
    which fires in B 15 s later. *)
Definition doubleFollowUp : list Event :=
  [ SelectCharacter idB; Submit "hi"; Elapse 1000; Settles 0 (Fulfilled "Hello!");
    Elapse 15000; TimerFires 2; Elapse 1000; Settles 0 (Fulfilled "Still with me?");
    SelectCharacter idA; Submit "yo"; SelectCharacter idB;
    Elapse 1000; Settles 0 (Fulfilled "Ahoy!");
    Elapse 15000; TimerFires 4; Elapse 1000; Settles 0 (Fulfilled "Anyone?") ].

(** A is selected and nothing has been said. *)
Definition selectedA : App := run exampleParse twoPersonas [SelectCharacter idA].

(** The page while the reply to the first message to A is awaited. *)
Definition awaitingReply : App :=
  run exampleParse twoPersonas [SelectCharacter idA; Submit "hi"; Elapse 1000].

(** Two user messages to A, each answered. *)
Definition twoExchanges : App :=
  run exampleParse twoPersonas
    (firstExchange ++ [Submit "more"; Elapse 1000; Settles 0 (Fulfilled "Sure.")]).

Definition ukFemale : Voice :=
  {| v_name := "Google UK English Female"; v_lang := "en-GB";
     v_localService := false; v_default := false |}.

Definition german : Character := persona idA neutral "de-DE" None.

(** The chat window with two voices loaded, silent, the synthesizer
    paused. *)
Definition silentWindow : Speech.ChatWindow :=
  {| Speech.voices := [david; anna]; Speech.speakingMessageId := None;
     Speech.paused := true; Speech.synthesis := []; Speech.alerts := [] |}.

(** The editor filled in for a new persona, the purpose left blank. *)
Definition rexForm : CharacterModal.Form :=
  {| CharacterModal.name := "Rex"; CharacterModal.avatar := "R";
     CharacterModal.personality := "You are a loyal robot dog.";
     CharacterModal.memory := ""; CharacterModal.purpose := "  ";
     CharacterModal.gender := neutral; CharacterModal.language := "en-US";
     CharacterModal.voiceProfile := medium;
     CharacterModal.voiceSpeed := normalSpeed |}.

Definition rex : Character :=
  {| c_id := idB; c_name := "Rex"; c_avatar := "R";
     c_personality := "You are a loyal robot dog.";
     c_memory := ""; c_purpose := Some "  ";
     c_gender := neutral; c_language := "en-US";
     c_voiceProfile := medium; c_voiceSpeed := normalSpeed |}.

Definition quizQuestions : list DynamicQuizModal.QuizQuestion :=
  [ {| DynamicQuizModal.q_question := "What does the pirate fear?";
       DynamicQuizModal.q_answers := ["Water"; "Kittens"] |};
    {| DynamicQuizModal.q_question := "What is on the ship?";
       DynamicQuizModal.q_answers := ["Gold"; "Yarn"] |} ].

(** The first question is answered and the second one is shown. *)
Definition quizSecondQuestion : list DynamicQuizModal.Event :=
  [ DynamicQuizModal.TypeConcept "A grumpy space pirate";
    DynamicQuizModal.ClickGenerateQuestions;
    DynamicQuizModal.QuestionsSettle (DynamicQuizModal.resolves (Some quizQuestions));
    DynamicQuizModal.ClickAnswer 1;
    DynamicQuizModal.ClickNext ].

(** Both questions are answered and the persona is requested. *)
Definition quizRun : list DynamicQuizModal.Event :=
  quizSecondQuestion
    ++ [DynamicQuizModal.ClickAnswer 0; DynamicQuizModal.ClickGenerateCharacter].

Definition quizRequest : string * list (string * string) :=
  ("A grumpy space pirate",
   [("What does the pirate fear?", "Kittens"); ("What is on the ship?", "Gold")]).

Definition engineTypeError : string :=
  "Cannot read properties of undefined (reading 'question')".


(** A quiz whose only question offers an empty answer and nothing
    else. *)
Definition deadEndQuestion : DynamicQuizModal.QuizQuestion :=
  {| DynamicQuizModal.q_question := "What now?";
     DynamicQuizModal.q_answers := [""] |}.

Definition deadEndQuiz : list DynamicQuizModal.Event :=
  [ DynamicQuizModal.TypeConcept "A grumpy space pirate";
    DynamicQuizModal.ClickGenerateQuestions;
    DynamicQuizModal.QuestionsSettle (DynamicQuizModal.resolves (Some [deadEndQuestion]));
    DynamicQuizModal.ClickAnswer 0;
    DynamicQuizModal.ClickGenerateCharacter ].

(** A has answered the first message and waits for the next one. *)
Definition afterFirstExchange : App := run exampleParse twoPersonas firstExchange.


(** A user who answers every question of the quiz with its first
    non-empty option and then asks for the persona. *)
Fixpoint firstNonEmpty (options : list string) : option nat :=
  match options with
  | [] => None
  | a :: rest =>
      if JS.nonEmpty a then Some 0 else option_map S (firstNonEmpty rest)
  end.

Fixpoint answerAll (remaining : list DynamicQuizModal.QuizQuestion)
  : list DynamicQuizModal.Event :=
  match remaining with
  | [] => []
  | q :: rest =>
      DynamicQuizModal.ClickAnswer
        (default 0 (firstNonEmpty (DynamicQuizModal.q_answers q)))
      :: match rest with
         | [] => [DynamicQuizModal.ClickGenerateCharacter]
         | _ :: _ => DynamicQuizModal.ClickNext :: answerAll rest
         end
  end.

Definition completeQuiz (concept : string) (qs : list DynamicQuizModal.QuizQuestion)
  : list DynamicQuizModal.Event :=
  [ DynamicQuizModal.TypeConcept concept;
    DynamicQuizModal.ClickGenerateQuestions;
    DynamicQuizModal.QuestionsSettle (DynamicQuizModal.resolves (Some qs)) ]
  ++ answerAll qs.

(** * Properties *)

(** ** White space

    [trim] leaves nothing exactly of the texts made of white space. *)

Lemma trimStart_afterSpace (s : string) :
  JS.trimStart s = match JS.afterSpace s with
                   | Some rest => JS.trimStart rest
                   | None => s
                   end.
Proof.
  destruct s as [|c [|d [|e rest]]]; cbn [JS.trimStart JS.afterSpace];
    try reflexivity.
  - destruct (JS.isSpace c); reflexivity.
  - destruct (JS.isSpace c); [reflexivity|].
    destruct (JS.isSpace2 c d); reflexivity.
  - destruct (JS.isSpace c); [reflexivity|].
    destruct (JS.isSpace2 c d); [reflexivity|].
    destruct (JS.isSpace3 c d e); reflexivity.
Qed.

Lemma afterSpace_shorter (s rest : string) :
  JS.afterSpace s = Some rest -> String.length rest < String.length s.
Proof.
  destruct s as [|c [|d [|e tail]]]; cbn [JS.afterSpace String.length];
    try discriminate.
  - destruct (JS.isSpace c); [|discriminate]. intros [= <-]. cbn. lia.
  - destruct (JS.isSpace c); [intros [= <-]; cbn; lia|].
    destruct (JS.isSpace2 c d); [|discriminate]. intros [= <-]. cbn. lia.
  - destruct (JS.isSpace c); [intros [= <-]; cbn; lia|].
    destruct (JS.isSpace2 c d); [intros [= <-]; cbn; lia|].
    destruct (JS.isSpace3 c d e); [|discriminate]. intros [= <-]. lia.
Qed.

Lemma ascii_of_code (c : ascii) (n : nat) : nat_of_ascii c = n -> c = ascii_of_nat n.
Proof. intros <-. symmetry. apply ascii_nat_embedding. Qed.

Lemma afterSpace_whiteSpace (s rest : string) :
  JS.afterSpace s = Some rest ->
  exists w, In w JS.whiteSpace /\ s = String.append w rest.
Proof.
  assert (Hone : forall c, JS.isSpace c = true -> In (String c "") JS.whiteSpace).
  { intros c H. unfold JS.isSpace in H.
    assert (Hn : nat_of_ascii c = 9 \/ nat_of_ascii c = 10 \/ nat_of_ascii c = 11
                 \/ nat_of_ascii c = 12 \/ nat_of_ascii c = 13 \/ nat_of_ascii c = 32).
    { apply orb_true_iff in H as [H|H].
      - apply andb_true_iff in H as [H1 H2].
        apply Nat.leb_le in H1, H2. lia.
      - apply Nat.eqb_eq in H. lia. }
    repeat (destruct Hn as [Hn|Hn];
            [apply ascii_of_code in Hn; subst c; cbn; auto 30|]).
    apply ascii_of_code in Hn. subst c. cbn. auto 30. }
  assert (Htwo : forall c d, JS.isSpace2 c d = true ->
                   In (String c (String d "")) JS.whiteSpace).
  { intros c d H. unfold JS.isSpace2 in H.
    apply andb_true_iff in H as [H1 H2]. apply Nat.eqb_eq in H1, H2.
    apply ascii_of_code in H1, H2. subst. cbn. auto 30. }
  assert (Hthree : forall c d e, JS.isSpace3 c d e = true ->
                     In (String c (String d (String e ""))) JS.whiteSpace).
  { intros c d e H. unfold JS.isSpace3 in H.
    assert (Hn : exists x y z, nat_of_ascii c = x /\ nat_of_ascii d = y
                               /\ nat_of_ascii e = z /\
                   In (x, y, z)
                     [(225, 154, 128); (226, 128, 128); (226, 128, 129);
                      (226, 128, 130); (226, 128, 131); (226, 128, 132);
                      (226, 128, 133); (226, 128, 134); (226, 128, 135);
                      (226, 128, 136); (226, 128, 137); (226, 128, 138);
                      (226, 128, 168); (226, 128, 169); (226, 128, 175);
                      (226, 129, 159); (227, 128, 128); (239, 187, 191)]).
    { exists (nat_of_ascii c), (nat_of_ascii d), (nat_of_ascii e).
      repeat split; try reflexivity.
      repeat match goal with
             | H : _ || _ = true |- _ => apply orb_true_iff in H as [H|H]
             | H : _ && _ = true |- _ => apply andb_true_iff in H as [? H]
             end;
        repeat match goal with
               | H : (_ =? _)%nat = true |- _ => apply Nat.eqb_eq in H; rewrite H
               | H : (_ <=? _)%nat = true |- _ => apply Nat.leb_le in H
               end;
        try (cbn; auto 40).
      assert (Hz : nat_of_ascii e = 128 \/ nat_of_ascii e = 129 \/ nat_of_ascii e = 130
                   \/ nat_of_ascii e = 131 \/ nat_of_ascii e = 132
                   \/ nat_of_ascii e = 133 \/ nat_of_ascii e = 134
                   \/ nat_of_ascii e = 135 \/ nat_of_ascii e = 136
                   \/ nat_of_ascii e = 137 \/ nat_of_ascii e = 138) by lia.
      repeat (destruct Hz as [Hz|Hz]; [rewrite Hz; cbn; auto 40|]).
      rewrite Hz. cbn. auto 40. }
    destruct Hn as (x & y & z & Hx & Hy & Hz & Hin).
    apply ascii_of_code in Hx, Hy, Hz. subst c d e.
    cbn in Hin.
    repeat (destruct Hin as [Hin|Hin]; [injection Hin as <- <- <-; cbn; auto 40|]).
    destruct Hin. }
  destruct s as [|c [|d [|e tail]]]; cbn [JS.afterSpace]; try discriminate.
  - destruct (JS.isSpace c) eqn:E1; [|discriminate]. intros [= <-].
    exists (String c ""). split; [now apply Hone | reflexivity].
  - destruct (JS.isSpace c) eqn:E1.
    + intros [= <-]. exists (String c ""). split; [now apply Hone | reflexivity].
    + destruct (JS.isSpace2 c d) eqn:E2; [|discriminate]. intros [= <-].
      exists (String c (String d "")). split; [now apply Htwo | reflexivity].
  - destruct (JS.isSpace c) eqn:E1.
    + intros [= <-]. exists (String c ""). split; [now apply Hone | reflexivity].
    + destruct (JS.isSpace2 c d) eqn:E2.
      * intros [= <-]. exists (String c (String d "")).
        split; [now apply Htwo | reflexivity].
      * destruct (JS.isSpace3 c d e) eqn:E3; [|discriminate]. intros [= <-].
        exists (String c (String d (String e ""))).
        split; [now apply Hthree | reflexivity].
Qed.

Lemma whiteSpace_afterSpace (w rest : string) :
  In w JS.whiteSpace -> JS.afterSpace (String.append w rest) = Some rest.
Proof.
  intros Hin. unfold JS.whiteSpace in Hin.
  repeat (destruct Hin as [<-|Hin]; [reflexivity|]).
  destruct Hin.
Qed.

Lemma trimStart_blank (s : string) : JS.trimStart s = "" <-> JS.blank s.
Proof.
  split.
  - remember (String.length s) as n eqn:Hn. revert s Hn.
    induction n as [n IH] using lt_wf_ind. intros s -> H.
    rewrite trimStart_afterSpace in H.
    destruct (JS.afterSpace s) as [rest|] eqn:Ha.
    + destruct (afterSpace_whiteSpace s rest Ha) as (w & Hw & ->).
      constructor; [exact Hw|].
      apply (IH (String.length rest)); [|reflexivity | exact H].
      now apply afterSpace_shorter.
    + subst s. constructor.
  - induction 1 as [|w rest Hw _ IH]; [reflexivity|].
    now rewrite trimStart_afterSpace, (whiteSpace_afterSpace w rest Hw).
Qed.

Lemma trimStart_idem (s : string) : JS.trimStart (JS.trimStart s) = JS.trimStart s.
Proof.
  remember (String.length s) as n eqn:Hn. revert s Hn.
  induction n as [n IH] using lt_wf_ind. intros s ->.
  rewrite (trimStart_afterSpace s).
  destruct (JS.afterSpace s) as [rest|] eqn:Ha.
  - apply (IH (String.length rest)); [|reflexivity]. now apply afterSpace_shorter.
  - now rewrite trimStart_afterSpace, Ha.
Qed.

Lemma trimEnd_nil (s : string) : JS.trimEnd s = "" <-> JS.trimStart s = "".
Proof.
  destruct s as [|c rest]; [tauto|].
  cbn [JS.trimEnd]. destruct (JS.trimStart (String c rest)); cbn; split; congruence.
Qed.

(** [s.trim()] is empty exactly on the texts that hold white space
    only. *)
Lemma trim_blank (s : string) : JS.trim s = "" <-> JS.blank s.
Proof.
  unfold JS.trim. rewrite trimEnd_nil, trimStart_idem. apply trimStart_blank.
Qed.

Lemma append_cons (c : ascii) (a b : string) : String c a +:+ b = String c (a +:+ b).
Proof. reflexivity. Qed.

Lemma append_assoc (a b c : string) : (a +:+ b) +:+ c = a +:+ (b +:+ c).
Proof.
  induction a as [|x a IH]; [reflexivity|].
  now rewrite !append_cons, IH.
Qed.

Lemma whiteSpace_nonEmpty (w : string) : In w JS.whiteSpace -> w <> "".
Proof.
  intros Hin ->. unfold JS.whiteSpace in Hin.
  repeat (destruct Hin as [Hin|Hin]; [discriminate|]). destruct Hin.
Qed.

(** [trimStart] removes a prefix of white space and stops at a
    character that is none. *)
Lemma trimStart_spec (s : string) :
  exists pre, JS.blank pre /\ s = pre +:+ JS.trimStart s /\
              JS.afterSpace (JS.trimStart s) = None.
Proof.
  remember (String.length s) as n eqn:Hn. revert s Hn.
  induction n as [n IH] using lt_wf_ind. intros s ->.
  rewrite (trimStart_afterSpace s).
  destruct (JS.afterSpace s) as [rest|] eqn:Ha.
  - destruct (afterSpace_whiteSpace s rest Ha) as (w & Hw & ->).
    destruct (IH (String.length rest)) with (s := rest) as (pre & Hpre & Heq & Hnone);
      [now apply afterSpace_shorter | reflexivity |].
    exists (w +:+ pre). split; [now constructor|]. split; [|exact Hnone].
    rewrite append_assoc. now rewrite <- Heq.
  - exists "". split; [constructor|]. split; [reflexivity | exact Ha].
Qed.

(** [trimEnd] removes a suffix of white space and what it keeps does
    not end with a white-space character. *)
Lemma trimEnd_spec (s : string) :
  (exists post, JS.blank post /\ s = JS.trimEnd s +:+ post) /\
  (forall kept w, In w JS.whiteSpace -> JS.trimEnd s <> kept +:+ w).
Proof.
  induction s as [|c rest [(post & Hpost & Heq) Hend]].
  - split; [exists ""; split; [constructor | reflexivity]|].
    intros kept w Hw H. destruct kept as [|k kept].
    + change ("" +:+ w) with w in H. now apply (whiteSpace_nonEmpty w Hw).
    + rewrite append_cons in H. discriminate.
  - cbn [JS.trimEnd].
    destruct (JS.nonEmpty (JS.trimStart (String c rest))) eqn:Hne.
    + split.
      * exists post. split; [exact Hpost|]. now rewrite append_cons, <- Heq.
      * intros kept w Hw H. destruct kept as [|k kept].
        -- change ("" +:+ w) with w in H.
           assert (Hb : JS.blank (String c rest)).
           { rewrite Heq, <- append_cons, H. now constructor. }
           apply trimStart_blank in Hb. rewrite Hb in Hne. discriminate.
        -- rewrite append_cons in H. injection H as _ H. exact (Hend kept w Hw H).
    + split.
      * exists (String c rest). split; [|reflexivity].
        apply trimStart_blank. destruct (JS.trimStart (String c rest)); [reflexivity|discriminate].
      * intros kept w Hw H. destruct kept as [|k kept].
        -- change ("" +:+ w) with w in H. now apply (whiteSpace_nonEmpty w Hw).
        -- rewrite append_cons in H. discriminate.
Qed.

(** [s.trim()] is [s] without the white space at its two ends: what
    is removed is white space, and what is left neither starts nor ends
    with a white-space character. *)
Lemma trim_spec (s : string) :
  exists pre post,
    s = pre +:+ JS.trim s +:+ post /\ JS.blank pre /\ JS.blank post /\
    JS.afterSpace (JS.trim s) = None /\
    (forall kept w, In w JS.whiteSpace -> JS.trim s <> kept +:+ w).
Proof.
  destruct (trimStart_spec s) as (pre & Hpre & Hs & Hnone).
  destruct (trimEnd_spec (JS.trimStart s)) as [(post & Hpost & Ht) Hend].
  exists pre, post. unfold JS.trim.
  split; [now rewrite <- Ht|]. split; [exact Hpre|]. split; [exact Hpost|].
  split; [|exact Hend].
  destruct (JS.afterSpace (JS.trimEnd (JS.trimStart s))) as [rest|] eqn:Ha;
    [|reflexivity].
  destruct (afterSpace_whiteSpace _ _ Ha) as (w & Hw & Heq).
  rewrite Ht, Heq, append_assoc, (whiteSpace_afterSpace w _ Hw) in Hnone.
  discriminate.
Qed.

(** ** Voice selector *)

Lemma insertDesc_length {A} (key : A -> Z) (x : A) (l : list A) :
  length (JS.insertDesc key x l) = S (length l).
Proof.
  induction l as [|y rest IH]; simpl; [reflexivity|].
  destruct (key x <? key y)%Z; simpl; [now rewrite IH | reflexivity].
Qed.

Lemma sortDesc_length {A} (key : A -> Z) (l : list A) :
  length (JS.sortDesc key l) = length l.
Proof.
  induction l as [|x rest IH]; simpl; [reflexivity|].
  now rewrite insertDesc_length, IH.
Qed.

Lemma insertDesc_In {A} (key : A -> Z) (x y : A) (l : list A) :
  In y (JS.insertDesc key x l) -> y = x \/ In y l.
Proof.
  induction l as [|z rest IH]; simpl.
  - intros [->|[]]; now left.
  - destruct (key x <? key z)%Z; simpl.
    + intros [->|H]; [right; now left|].
      destruct (IH H) as [->|H']; [now left | right; now right].
    + intros [->|[->|H]]; [now left | right; now left | right; now right].
Qed.

Lemma sortDesc_In {A} (key : A -> Z) (y : A) (l : list A) :
  In y (JS.sortDesc key l) -> In y l.
Proof.
  induction l as [|x rest IH]; simpl; [tauto|].
  intros H. destruct (insertDesc_In _ _ _ _ H) as [->|H']; [now left | right; auto].
Qed.

Lemma isNil_true {A} (l : list A) : isNil l = true <-> l = [].
Proof. destruct l; simpl; split; congruence. Qed.

Lemma candidates_incl (voices : list Voice) (character : Character) (v : Voice) :
  In v (candidates voices character) -> In v voices.
Proof.
  unfold candidates.
  destruct (isNil _); intros H; apply filter_In in H; tauto.
Qed.

(** The selector in one equation: the index is the hash modulo the
    number of all candidates. *)
Lemma getCharacterVoice_unfold (voices : list Voice) (character : Character) :
  voices <> [] ->
  getCharacterVoice voices character =
    if isNil (candidates voices character) then first voices
    else nth_error (JS.sortDesc (voiceScore (c_gender character))
                      (candidates voices character))
           (JS.charCodeSum (c_id character) mod length (candidates voices character)).
Proof.
  intros Hne. unfold getCharacterVoice.
  destruct voices as [|v0 rest]; [congruence|].
  cbn [isNil]. fold (candidates (v0 :: rest) character).
  destruct (candidates (v0 :: rest) character) as [|c cs] eqn:Hc; [reflexivity|].
  cbn [isNil]. rewrite <- (sortDesc_length (voiceScore (c_gender character)) (c :: cs)).
  destruct (JS.sortDesc (voiceScore (c_gender character)) (c :: cs)) as [|x xs] eqn:Hs.
  - apply (f_equal (@length Voice)) in Hs. rewrite sortDesc_length in Hs. discriminate.
  - reflexivity.
Qed.

(** With these two voices every English-speaking male persona gets the
    voice at the parity of its id's character-code sum in the sorted list
    [David; Zira]. *)
Lemma david_zira_by_parity (character : Character) :
  c_gender character = male -> c_language character = "en-US" ->
  getCharacterVoice [david; zira] character
    = nth_error [david; zira] (JS.charCodeSum (c_id character) mod 2) /\
  getCharacterVoice [zira; david] character
    = nth_error [david; zira] (JS.charCodeSum (c_id character) mod 2).
Proof.
  intros Hg Hl. unfold getCharacterVoice. rewrite Hg, Hl.
  split; reflexivity.
Qed.

(** C6: at a male persona whose id has an odd character-code sum, with
    the two voices "Microsoft David" and "Microsoft Zira", the selector
    returns Zira: the hash is reduced modulo the number of all candidate
    voices, not of the top-scoring ones. *)
Theorem getCharacterVoice_picks_lower_score :
  voiceScore male david = 113%Z /\
  voiceScore male zira = (-37)%Z /\
  JS.charCodeSum (c_id orion) = 2519 /\
  getCharacterVoice [david; zira] orion = Some zira /\
  getCharacterVoice [zira; david] orion = Some zira.
Proof. repeat split; vm_compute; reflexivity. Qed.

(** C7 as stated fails: a persona speaking Japanese and a voice set
    holding one German voice, which matches neither the persona's language
    nor English; the selector returns that voice, not null. *)
Lemma non_matching_voice_set_yields_a_voice :
  List.filter (fun v => JS.startsWith (v_lang v) "ja") [anna] = [] /\
  List.filter (fun v => JS.startsWith (v_lang v) "en") [anna] = [] /\
  getCharacterVoice [anna] kenji = Some anna /\
  getCharacterVoice [anna] kenji <> None.
Proof. repeat split; try (vm_compute; reflexivity). discriminate. Qed.

(** C7, amended: the selector is a function of the voice set and of the
    persona's id, gender and language alone; it returns null exactly on
    the empty voice set; any voice it returns belongs to the set; and
    when no voice matches the persona's language nor English it returns
    the first voice of the set. *)
Theorem voice_selector_deterministic_total :
  (forall voices c1 c2,
      c_id c1 = c_id c2 -> c_gender c1 = c_gender c2 ->
      c_language c1 = c_language c2 ->
      getCharacterVoice voices c1 = getCharacterVoice voices c2) /\
  (forall voices c, getCharacterVoice voices c = None <-> voices = []) /\
  (forall voices c v, getCharacterVoice voices c = Some v -> In v voices) /\
  (forall voices c, candidates voices c = [] ->
      getCharacterVoice voices c = first voices).
Proof.
  assert (Hres : forall voices c, voices <> [] ->
            exists v, getCharacterVoice voices c = Some v /\ In v voices).
  { intros voices c Hne. rewrite getCharacterVoice_unfold by assumption.
    destruct (candidates voices c) as [|x xs] eqn:Hc; cbn [isNil].
    - destruct voices as [|v0 rest]; [congruence|]. exists v0. simpl. auto.
    - set (sorted := JS.sortDesc (voiceScore (c_gender c)) (x :: xs)).
      set (i := (JS.charCodeSum (c_id c) mod length (x :: xs))%nat).
      assert (Hi : (i < length sorted)%nat).
      { unfold sorted. rewrite sortDesc_length. apply Nat.mod_upper_bound. discriminate. }
      destruct (nth_error sorted i) as [v|] eqn:Hn.
      + exists v. split; [reflexivity|].
        apply candidates_incl with (character := c). rewrite Hc.
        apply sortDesc_In with (key := voiceScore (c_gender c)).
        eapply nth_error_In; exact Hn.
      + apply nth_error_None in Hn. lia. }
  repeat split.
  - intros voices c1 c2 Hid Hg Hl. unfold getCharacterVoice.
    now rewrite Hid, Hg, Hl.
  - intros H. destruct voices as [|v0 rest]; [reflexivity|].
    destruct (Hres (v0 :: rest) c) as [v [Hv _]]; [discriminate | congruence].
  - intros ->. reflexivity.
  - intros voices c v Hv. destruct voices as [|v0 rest]; [discriminate|].
    destruct (Hres (v0 :: rest) c) as [w [Hw Hin]]; [discriminate|].
    congruence.
  - intros voices c Hc. destruct voices as [|v0 rest]; [reflexivity|].
    rewrite getCharacterVoice_unfold by discriminate. now rewrite Hc.
Qed.

Lemma voice_selector_deterministic_total_witness :
  getCharacterVoice [david; zira] nova = getCharacterVoice [david; zira] novaEdited /\
  getCharacterVoice [anna] kenji = first [anna].
Proof.
  destruct voice_selector_deterministic_total as [Hdet [_ [_ Hfirst]]].
  split.
  - apply (Hdet [david; zira] nova novaEdited); reflexivity.
  - apply (Hfirst [anna] kenji). vm_compute. reflexivity.
Defined.

(** ** Persona store *)

Lemma randomPurpose_in_pool (random : Q) :
  (0 <= random)%Q -> (random < 1)%Q ->
  exists p, randomPurpose random = Some p /\ p <> "" /\ In p RANDOM_PURPOSES.
Proof.
  intros Hlo Hhi. unfold randomPurpose.
  set (x := (random * inject_Z (Z.of_nat (length RANDOM_PURPOSES)))%Q).
  assert (Hx0 : (0 <= x)%Q).
  { unfold x. apply Qmult_le_0_compat; [assumption|]. vm_compute. discriminate. }
  assert (Hx8 : (x < inject_Z 8)%Q).
  { unfold x. change (inject_Z (Z.of_nat (length RANDOM_PURPOSES))) with (inject_Z 8).
    apply Qlt_le_trans with (1 * inject_Z 8)%Q.
    - apply Qmult_lt_compat_r; [reflexivity | assumption].
    - rewrite Qmult_1_l. apply Qle_refl. }
  assert (H0 : (0 <= Qfloor x)%Z).
  { change 0%Z with (Qfloor 0%Q). now apply Qfloor_resp_le. }
  assert (H8 : (Qfloor x < 8)%Z).
  { rewrite Zlt_Qlt. eapply Qle_lt_trans; [apply Qfloor_le | exact Hx8]. }
  destruct (Qfloor x <? 0)%Z eqn:Hneg; [apply Z.ltb_lt in Hneg; lia|].
  assert (Hcase : (Z.to_nat (Qfloor x) < 8)%nat) by lia.
  generalize dependent (Z.to_nat (Qfloor x)). intros k Hk.
  do 8 (destruct k as [|k];
        [eexists; split; [reflexivity|]; split;
         [discriminate | simpl; tauto] |]).
  lia.
Qed.

(** C8: a persona saved with a missing, empty or white-space-only
    purpose is stored with a non-empty purpose taken from the pool of 8
    fallback strings; one saved with any other purpose is stored as it
    is.  The purpose counts as missing exactly when the field is absent
    or its text holds white-space characters only (any of those [trim]
    removes, ASCII or not; the empty text included).  The stored record
    is in the persona list afterwards and is the only record there under
    its id. *)
Theorem saved_purpose_from_pool (random : Q) (character : Character) (s : App) :
  (0 <= random)%Q -> (random < 1)%Q ->
  let saved := characterToSave random character in
  let s' := handleSaveCharacter random character s in
  length RANDOM_PURPOSES = 8%nat /\
  In saved (characters s') /\
  (forall c, In c (characters s') -> c_id c = c_id character -> c = saved) /\
  (purposeMissing (c_purpose character) = true ->
     exists p, c_purpose saved = Some p /\ p <> "" /\ In p RANDOM_PURPOSES) /\
  (purposeMissing (c_purpose character) = false -> saved = character) /\
  (purposeMissing (c_purpose character) = true <->
     c_purpose character = None \/
     exists text, c_purpose character = Some text /\ JS.blank text).
Proof.
  intros Hlo Hhi saved s'.
  assert (Hid : c_id saved = c_id character).
  { unfold saved, characterToSave. now destruct (purposeMissing _). }
  assert (Hchars : characters s' =
            match List.find (fun c => String.eqb (c_id c) (c_id saved)) (characters s) with
            | Some _ => List.map (fun c => if String.eqb (c_id c) (c_id saved)
                                           then saved else c) (characters s)
            | None => characters s ++ [saved]
            end).
  { unfold s', handleSaveCharacter. fold saved.
    destruct s. cbn. destruct (_ !! _); reflexivity. }
  split; [reflexivity|]. split; [|split; [|split; [|split]]].
  - rewrite Hchars.
    destruct (List.find _ (characters s)) as [c0|] eqn:Hfind.
    + apply find_some in Hfind as [Hin Heq].
      apply in_map_iff. exists c0. now rewrite Heq.
    + apply in_or_app. right. now left.
  - intros c Hin Hc. rewrite Hchars in Hin.
    destruct (List.find _ (characters s)) as [c0|] eqn:Hfind.
    + apply in_map_iff in Hin as [c1 [Hmap _]].
      destruct (String.eqb (c_id c1) (c_id saved)) eqn:E; [congruence|].
      subst c1. apply String.eqb_neq in E. congruence.
    + apply in_app_or in Hin as [Hin|[<-|[]]]; [|reflexivity].
      pose proof (find_none _ _ Hfind c Hin) as Hno. cbn in Hno.
      apply String.eqb_neq in Hno. congruence.
  - intros Hmiss. unfold saved, characterToSave. rewrite Hmiss. cbn.
    now apply randomPurpose_in_pool.
  - intros Hkeep. unfold saved, characterToSave. now rewrite Hkeep.
  - unfold purposeMissing. destruct (c_purpose character) as [text|].
    + split.
      * intros Hb. right. exists text. split; [reflexivity|].
        apply trim_blank.
        destruct (JS.trim text); [reflexivity | cbn in Hb; discriminate].
      * intros [Hn|(t & Ht & Hb)]; [discriminate|]. injection Ht as <-.
        apply trim_blank in Hb. now rewrite Hb.
    + split; auto.
Qed.

Lemma saved_purpose_from_pool_witness :
  c_purpose (characterToSave (7 # 10) (persona idA neutral "en-US" (Some "   ")))
    = Some "To seek help in solving a cryptic riddle that was left on a napkin." /\
  c_purpose (characterToSave (7 # 10) (persona idA neutral "en-US" (Some wideBlank)))
    = Some "To seek help in solving a cryptic riddle that was left on a napkin." /\
  JS.blank wideBlank /\
  characterToSave (7 # 10) nova = nova.
Proof.
  pose proof (saved_purpose_from_pool (7 # 10)
                (persona idA neutral "en-US" (Some "   ")) (mounted [] ∅)) as H1.
  pose proof (saved_purpose_from_pool (7 # 10)
                (persona idA neutral "en-US" (Some wideBlank)) (mounted [] ∅)) as H3.
  pose proof (saved_purpose_from_pool (7 # 10) nova (mounted [] ∅)) as H2.
  cbv zeta in H1, H2, H3.
  destruct H1 as [_ [_ [_ [H1 _]]]]; [vm_compute; discriminate | reflexivity |].
  destruct H2 as [_ [_ [_ [_ [H2 _]]]]]; [vm_compute; discriminate | reflexivity |].
  destruct H3 as [_ [_ [_ [H3 [_ H4]]]]]; [vm_compute; discriminate | reflexivity |].
  split; [|split; [|split]].
  - destruct (H1 eq_refl) as [p [Hp _]]. vm_compute. reflexivity.
  - destruct (H3 eq_refl) as [p [Hp _]]. vm_compute. reflexivity.
  - destruct (proj1 H4 eq_refl) as [Hn|(text & [= <-] & Hb)]; [discriminate | exact Hb].
  - apply H2. reflexivity.
Defined.

(** ** Decoder, scheduler and analysis, for any [JSON.parse] *)

Ltac case_matches :=
  repeat (cbn in *;
          match goal with
          | |- context [match ?x with _ => _ end] => destruct x eqn:?
          end);
  cbn in *; subst.

Section Properties.

Variable JSON_parse : string -> option JSValue.


Lemma parseAiMessage_unparsed (fallback : string) (uuid : nat) (body : string) :
  JSON_parse body = None ->
  parseAiMessage JSON_parse fallback uuid body
    = textMessage uuid model (JS.orElse body fallback).
Proof. intros H. unfold parseAiMessage, tryParse. now rewrite H. Qed.

Lemma lookup_settle_chat (call : GatewayCall) (body : string) (s : App) :
  isChatCall (gc_kind call) = true ->
  chats (settle JSON_parse call (Fulfilled body) s) !! gc_character call
    = Some (gc_appendTo call
              ++ [parseAiMessage JSON_parse (fallbackFor (gc_kind call)) (nextUuid s) body]).
Proof.
  intros Hk. unfold settle, logParseFailure, armInactivityTimer.
  destruct s, call as [kind ? mode ? ? ?]. cbn in *.
  destruct kind; try discriminate; destruct (tryParse _ _ _), mode; cbn;
    apply lookup_insert_eq.
Qed.

(** C5: when [JSON.parse] rejects the reply body, the decoder returns a
    model message whose text is the body itself, or the handler's fixed
    fallback text when the body is empty; no exception leaves the
    decoder, so each chat handler appends that message to the
    conversation. *)
Theorem malformed_reply_shown_verbatim (fallback : string) (uuid : nat) (body : string) :
  JSON_parse body = None ->
  let aiMessage := parseAiMessage JSON_parse fallback uuid body in
  m_role aiMessage = model /\
  (body <> "" -> m_text aiMessage = JStr body) /\
  (body = "" -> m_text aiMessage = JStr fallback) /\
  m_id aiMessage = uuid /\
  m_thought aiMessage = None /\ m_action aiMessage = None /\
  m_userResponseOptions aiMessage = None /\
  (forall call s, isChatCall (gc_kind call) = true ->
     chats (settle JSON_parse call (Fulfilled body) s) !! gc_character call
       = Some (gc_appendTo call
                 ++ [textMessage (nextUuid s) model
                       (JS.orElse body (fallbackFor (gc_kind call)))])).
Proof.
  intros H aiMessage. unfold aiMessage. rewrite parseAiMessage_unparsed by assumption.
  repeat split; cbn.
  - intros Hne. destruct body; [congruence | reflexivity].
  - intros ->. reflexivity.
  - intros call s Hk. rewrite lookup_settle_chat by assumption.
    now rewrite parseAiMessage_unparsed.
Qed.

(** C9: with fewer than two user messages in the active conversation,
    [handleAnalyzeUser] only shows the notice: no model call is issued,
    none is pending, and every other part of the state is as before;
    with no active conversation it does nothing at all. *)
Theorem analysis_below_two_user_turns (s : App) :
  (forall id,
      activeCharacterId s = Some id ->
      (length (List.filter isUser (historyOf id s)) < 2)%nat ->
      handleAnalyzeUser s = with_alerts (alerts s ++ [analysisNotice]) s /\
      calls (handleAnalyzeUser s) = calls s /\
      inflight (handleAnalyzeUser s) = inflight s /\
      (activeChanged s = false -> chatsChanged s = false ->
       step JSON_parse s AnalyzeUser = with_alerts (alerts s ++ [analysisNotice]) s)) /\
  (activeCharacterId s = None -> handleAnalyzeUser s = s).
Proof.
  split.
  - intros id Hactive Hfew.
    assert (Hh : handleAnalyzeUser s = with_alerts (alerts s ++ [analysisNotice]) s).
    { unfold handleAnalyzeUser. rewrite Hactive.
      apply Nat.ltb_lt in Hfew. now rewrite Hfew. }
    repeat split.
    + exact Hh.
    + rewrite Hh. now destruct s.
    + rewrite Hh. now destruct s.
    + intros Ha Hc. unfold step, dispatch. cbn. rewrite Hh.
      destruct s. cbn in *. subst. reflexivity.
  - intros Hnone. unfold handleAnalyzeUser. now rewrite Hnone.
Qed.

(** *** What rendering leaves alone *)

Ltac unfold_render :=
  unfold render, greetingEffect, switchCleanup, clearIfSet, clearTimeout,
    setTimeout, historyOf.

Ltac render_frame :=
  let s := fresh "s" in
  intros s; unfold_render; destruct s; cbn; case_matches; reflexivity.

Lemma chats_render : forall s, chats (render s) = chats s.
Proof. render_frame. Qed.

Lemma isLoading_render : forall s, isLoading (render s) = isLoading s.
Proof. render_frame. Qed.

Lemma isAnalyzing_render : forall s, isAnalyzing (render s) = isAnalyzing s.
Proof. render_frame. Qed.

Lemma console_render : forall s, console (render s) = console s.
Proof. render_frame. Qed.

Lemma alerts_render : forall s, alerts (render s) = alerts s.
Proof. render_frame. Qed.

Lemma calls_render : forall s, calls (render s) = calls s.
Proof. render_frame. Qed.

Lemma followUpSentRef_render : forall s, followUpSentRef (render s) = followUpSentRef s.
Proof. render_frame. Qed.

Lemma activeCharacterId_render : forall s, activeCharacterId (render s) = activeCharacterId s.
Proof. render_frame. Qed.

Lemma flags_render : forall s,
  activeChanged (render s) = false /\ chatsChanged (render s) = false.
Proof.
  intros s; unfold_render; destruct s; cbn; case_matches; split; reflexivity.
Qed.

(** C4, amended: when the promise of a model call is rejected, the
    loading indicator stops on every path; the send path appends the
    error message to the conversation; the greeting and follow-up paths
    log the failure to the console and leave every conversation as it
    was; the analysis path raises an alert and closes its modal. *)
Theorem transport_failure_by_path (s : App) (i : nat) (call : GatewayCall) :
  nth_error (inflight s) i = Some call ->
  let s' := step JSON_parse s (Settles i Rejected) in
  match gc_kind call with
  | SendCall =>
      isLoading s' = false /\
      chats s' !! gc_character call
        = Some (gc_appendTo call ++ [textMessage (nextUuid s) model sendErrorText])
  | GreetingCall =>
      isLoading s' = false /\ chats s' = chats s /\
      console s' = console s ++ ["Error sending AI greeting:"]
  | FollowUpCall =>
      isLoading s' = false /\ chats s' = chats s /\
      console s' = console s ++ ["Error sending AI follow-up:"]
  | AnalysisCall =>
      isAnalyzing s' = false /\ chats s' = chats s /\
      alerts s' = alerts s ++ [analysisFailed]
  end.
Proof.
  intros Hcall s'. unfold s', step, dispatch.
  rewrite Hcall.
  rewrite isLoading_render, chats_render, console_render, alerts_render,
    isAnalyzing_render.
  unfold settle. destruct call as [kind ? ? ? ? ?], s. cbn.
  destruct kind; cbn; repeat split; try reflexivity.
  apply lookup_insert_eq.
Qed.

(** *** The follow-up guard *)

Ltac unfold_handlers :=
  unfold dispatch, runCallback, handleSendMessage, handleSendFollowUp,
    handleProactiveGreeting, handleAnalyzeUser, handleSaveCharacter,
    handleDeleteCharacter, settle, logParseFailure, armInactivityTimer,
    setActiveCharacterId, setChats, sendToModel, randomUUID,
    clearIfSet, clearTimeout, setTimeout, historyOf, findTimer.

Lemma followUpsIssued_other (cs : list GatewayCall) (c : GatewayCall) :
  isFollowUpCall c = false ->
  length (List.filter isFollowUpCall (cs ++ [c]))
    = length (List.filter isFollowUpCall cs).
Proof.
  intros H. rewrite List.filter_app. cbn. rewrite H. now rewrite app_nil_r.
Qed.

Lemma followUpsIssued_followUp (cs : list GatewayCall) (c : GatewayCall) :
  isFollowUpCall c = true ->
  length (List.filter isFollowUpCall (cs ++ [c]))
    = S (length (List.filter isFollowUpCall cs)).
Proof.
  intros H. rewrite List.filter_app. cbn. rewrite H, length_app. cbn. lia.
Qed.

(** An event other than a user send either leaves guard and count alone
    or raises the guard while issuing one follow-up. *)
Lemma followUp_dispatch (s : App) (e : Event) :
  isUserSend e = false ->
  (followUpSentRef (dispatch JSON_parse s e) = followUpSentRef s /\
   followUpsIssued (dispatch JSON_parse s e) = followUpsIssued s) \/
  (followUpSentRef s = false /\
   followUpSentRef (dispatch JSON_parse s e) = true /\
   followUpsIssued (dispatch JSON_parse s e) = S (followUpsIssued s)).
Proof.
  intros He. unfold followUpsIssued.
  destruct e; try discriminate; unfold_handlers; destruct s; cbn.
  all: case_matches; cbn.
  all: try (left; split; reflexivity).
  all: try (left; split; [reflexivity | now rewrite followUpsIssued_other]).
  all: repeat match goal with
              | H : _ || _ = false |- _ => apply orb_false_elim in H as [? ?]
              end.
  all: subst; right; repeat split; now rewrite followUpsIssued_followUp.
Qed.

Lemma followUp_step (s : App) (e : Event) :
  isUserSend e = false ->
  (followUpSentRef (step JSON_parse s e) = followUpSentRef s /\
   followUpsIssued (step JSON_parse s e) = followUpsIssued s) \/
  (followUpSentRef s = false /\
   followUpSentRef (step JSON_parse s e) = true /\
   followUpsIssued (step JSON_parse s e) = S (followUpsIssued s)).
Proof.
  intros He. unfold step, followUpsIssued.
  rewrite followUpSentRef_render, calls_render.
  now apply followUp_dispatch.
Qed.

Lemma followUp_run (events : list Event) :
  forall s,
    forallb (fun e => negb (isUserSend e)) events = true ->
    followUpBudget (run JSON_parse s events) <= followUpBudget s /\
    followUpsIssued s <= followUpsIssued (run JSON_parse s events) /\
    (followUpSentRef s = true -> followUpSentRef (run JSON_parse s events) = true).
Proof.
  induction events as [|e rest IH]; intros s Hall.
  - repeat split; auto.
  - change (run JSON_parse s (e :: rest))
      with (run JSON_parse (step JSON_parse s e) rest).
    cbn in Hall. apply andb_prop in Hall as [He Hrest]. apply negb_true_iff in He.
    destruct (IH (step JSON_parse s e) Hrest) as [Hb [Hm Hg]].
    unfold followUpBudget in *.
    destruct (followUp_step s e He) as [[Hf Hn]|[Hf [Hf' Hn]]].
    + rewrite Hf, Hn in *. repeat split; auto.
    + rewrite Hf' in Hb. rewrite Hn in Hb, Hm. rewrite Hf.
      repeat split; [lia | lia | congruence].
Qed.

Lemma timers_settle_followUp (call : GatewayCall) (r : Response) (s : App) :
  gc_kind call = FollowUpCall ->
  timers (settle JSON_parse call r s) = timers s /\
  inactivityTimerRef (settle JSON_parse call r s) = inactivityTimerRef s.
Proof.
  intros Hk. unfold_handlers. rewrite Hk. destruct s, r; cbn; case_matches; auto.
Qed.

Lemma timers_handleSendFollowUp (s : App) (t : Timer) :
  In t (timers (handleSendFollowUp s)) -> In t (timers s).
Proof.
  unfold_handlers. destruct s; cbn. case_matches; cbn; try tauto.
  intros H. now apply filter_In in H.
Qed.

(** X23: the follow-up guard is one flag for the whole page.  Over any
    stretch of events without a user send, in whichever conversation, at
    most one follow-up call is issued, and none when the guard is already
    up; a follow-up that was issued leaves the guard up.  A user send
    that reaches the handler lowers the guard.  The follow-up handler arms
    no timer, neither when it runs nor when its call settles. *)
Theorem follow_up_once_between_user_sends (s : App) (events : list Event) :
  forallb (fun e => negb (isUserSend e)) events = true ->
  let s' := run JSON_parse s events in
  followUpsIssued s' <= followUpsIssued s + 1 /\
  (followUpSentRef s = true ->
     followUpsIssued s' = followUpsIssued s /\ followUpSentRef s' = true) /\
  (followUpsIssued s < followUpsIssued s' -> followUpSentRef s' = true) /\
  (forall input, JS.nonEmpty (JS.trim input) = true -> isLoading s' = false ->
     activeCharacterId s' <> None ->
     followUpSentRef (step JSON_parse s' (Submit input)) = false) /\
  (forall option, isLoading s' = false -> activeCharacterId s' <> None ->
     followUpSentRef (step JSON_parse s' (OptionClick option)) = false) /\
  (forall t, In t (timers (handleSendFollowUp s')) -> In t (timers s')) /\
  (forall call r, gc_kind call = FollowUpCall ->
     timers (settle JSON_parse call r s') = timers s' /\
     inactivityTimerRef (settle JSON_parse call r s') = inactivityTimerRef s').
Proof.
  intros Hall s'. destruct (followUp_run events s Hall) as [Hb [Hm Hg]].
  fold s' in Hb, Hm, Hg. unfold followUpBudget in Hb.
  assert (Hreset : forall text, activeCharacterId s' <> None ->
            followUpSentRef (handleSendMessage text s') = false).
  { intros text Ha. unfold_handlers. destruct s'; cbn in *.
    case_matches; cbn; congruence. }
  repeat split.
  - destruct (followUpSentRef s), (followUpSentRef s'); lia.
  - rewrite H in Hb. destruct (followUpSentRef s'); lia.
  - auto.
  - intros Hlt. destruct (followUpSentRef s'); [reflexivity|].
    destruct (followUpSentRef s); lia.
  - intros input Hi Hl Ha. unfold step. rewrite followUpSentRef_render.
    cbn. rewrite Hi, Hl. cbn. now apply Hreset.
  - intros option Hl Ha. unfold step. rewrite followUpSentRef_render.
    cbn. rewrite Hl. cbn. now apply Hreset.
  - apply timers_handleSendFollowUp.
  - now apply timers_settle_followUp.
  - now apply timers_settle_followUp.
Qed.

(** *** The greeting timer *)

Lemma held_filter (p : Timer -> bool) (pending : list Timer) (ref : option positive) :
  held pending ref -> held (List.filter p pending) ref.
Proof. intros H t Hin. apply filter_In in Hin as [Hin _]. now apply H. Qed.

Lemma held_cleared (pending : list Timer) (h : positive) :
  held pending (Some h) ->
  held (List.filter (fun t => negb (Pos.eqb (t_handle t) h)) pending) None.
Proof.
  intros H t Hin Hg. apply filter_In in Hin as [Hin Hne].
  specialize (H t Hin Hg). injection H as ->.
  rewrite Pos.eqb_refl in Hne. discriminate.
Qed.

Lemma held_none (pending : list Timer) (ref : option positive) :
  held pending None -> held pending ref.
Proof. intros H t Hin Hg. specialize (H t Hin Hg). discriminate. Qed.

Lemma held_armed (pending : list Timer) (h : positive) (due : N) :
  held pending None ->
  held (pending ++ [{| t_handle := h; t_callback := GreetingTimer; t_due := due |}])
    (Some h).
Proof.
  intros H t Hin Hg. apply in_app_or in Hin as [Hin|[<-|[]]].
  - specialize (H t Hin Hg). discriminate.
  - reflexivity.
Qed.

Lemma held_inactivity (pending : list Timer) (ref : option positive)
    (h : positive) (due : N) :
  held pending ref ->
  held (pending ++ [{| t_handle := h; t_callback := InactivityTimer; t_due := due |}])
    ref.
Proof.
  intros H t Hin Hg. apply in_app_or in Hin as [Hin|[<-|[]]].
  - now apply H.
  - discriminate.
Qed.

Lemma held_no_greeting (pending : list Timer) :
  held pending None -> List.filter isGreetingTimer pending = [].
Proof.
  intros H. induction pending as [|t rest IH]; [reflexivity|].
  cbn. destruct (isGreetingTimer t) eqn:Hg.
  - specialize (H t (or_introl eq_refl) Hg). discriminate.
  - apply IH. intros t' Hin. apply H. now right.
Qed.

Create HintDb held.

#[local] Hint Resolve held_filter held_cleared held_none held_armed held_inactivity
  : held.

Lemma held_render (s : App) : greetingTimersHeld s -> greetingTimersHeld (render s).
Proof.
  unfold greetingTimersHeld. unfold_render. destruct s; cbn.
  intros H. case_matches; cbn; eauto 8 with held.
Qed.

Lemma held_dispatch (s : App) (e : Event) :
  greetingTimersHeld s -> greetingTimersHeld (dispatch JSON_parse s e).
Proof.
  unfold greetingTimersHeld. destruct e; unfold_handlers; destruct s; cbn.
  all: intros H; case_matches; cbn; eauto 8 with held.
Qed.

Lemma held_step (s : App) (e : Event) :
  greetingTimersHeld s -> greetingTimersHeld (step JSON_parse s e).
Proof. intros H. unfold step. now apply held_render, held_dispatch. Qed.

Lemma flags_step (s : App) (e : Event) :
  activeChanged (step JSON_parse s e) = false /\
  chatsChanged (step JSON_parse s e) = false.
Proof. unfold step. apply flags_render. Qed.

(** Between two events of a run from the mounted page, every pending
    greeting timer is the one the ref holds, and no dependency is marked
    as changed. *)
Lemma reachable_invariant (storedCharacters : list Character)
    (storedChats : gmap string (list Message)) (events : list Event) :
  let s := run JSON_parse (mounted storedCharacters storedChats) events in
  greetingTimersHeld s /\ activeChanged s = false /\ chatsChanged s = false.
Proof.
  cbv zeta. unfold run. rewrite <- fold_left_rev_right.
  induction (rev events) as [|e rest IH]; cbn.
  - split; [|split]; try reflexivity. intros t [].
  - destruct IH as [Hheld _]. split; [now apply held_step | apply flags_step].
Qed.

(** *** A send from a state without stray timers *)

Lemma cleared_both (pending : list Timer) (greeting inactivity : option positive) :
  held pending greeting -> followUpHeld pending inactivity ->
  cleared greeting (cleared inactivity pending) = [].
Proof.
  intros Hg Hi.
  assert (Hin : forall ref l t, In t (cleared ref l) ->
            In t l /\ ref <> Some (t_handle t)).
  { intros [h|] l t; cbn; [|intros H; split; [assumption | discriminate]].
    intros H. apply filter_In in H as [H Hne]. split; [assumption|].
    intros [= ->]. rewrite Pos.eqb_refl in Hne. discriminate. }
  destruct (cleared greeting (cleared inactivity pending)) as [|t rest] eqn:E;
    [reflexivity|].
  assert (Ht : In t (cleared greeting (cleared inactivity pending)))
    by (rewrite E; now left).
  apply Hin in Ht as [Ht Hng]. apply Hin in Ht as [Ht Hni].
  destruct (t_callback t) eqn:Hk.
  - exfalso. apply Hng, Hg; [assumption|]. unfold isGreetingTimer. now rewrite Hk.
  - exfalso. apply Hni, Hi; [assumption|]. unfold isInactivityTimer. now rewrite Hk.
Qed.

Lemma isNil_snoc {A} (l : list A) (x : A) : isNil (l ++ [x]) = false.
Proof. now destruct l. Qed.

(** The state while the call of a submitted message is out. *)
Lemma submit_issues (s : App) (input : string) (id : string) (c : Character) :
  held (timers s) (proactiveGreetingTimerRef s) ->
  followUpHeld (timers s) (inactivityTimerRef s) ->
  isLoading s = false -> inflight s = [] ->
  JS.nonEmpty (JS.trim input) = true ->
  activeCharacterId s = Some id -> findCharacter id (characters s) = Some c ->
  let issued := step JSON_parse s (Submit input) in
  timers issued = [] /\
  inflight issued
    = [{| gc_kind := SendCall; gc_character := id; gc_mode := chatMode s;
          gc_history := historyOf id s; gc_message := JS.trim input;
          gc_appendTo := historyOf id s
                           ++ [textMessage (nextUuid s) user (JS.trim input)] |}] /\
  activeCharacterId issued = Some id /\
  proactiveGreetingTimerRef issued = None /\
  activeChanged issued = false /\ chatsChanged issued = false /\
  nextHandle issued = nextHandle s /\ now issued = now s.
Proof.
  intros Hg Hi Hl Hf Hin Ha Hc. cbv zeta.
  pose proof (cleared_both _ _ _ Hg Hi) as Hclear.
  unfold step, dispatch. rewrite Hin, Hl. cbn [negb andb].
  unfold handleSendMessage. rewrite Ha.
  unfold findCharacter in *. destruct s; cbn in *. subst.
  assert (Htimers :
    timers (with_followUpSentRef false
              (with_proactiveGreetingTimerRef None
                 (clearIfSet proactiveGreetingTimerRef0
                    (with_inactivityTimerRef None
                       (clearIfSet inactivityTimerRef0
                          {| characters := characters0;
                             activeCharacterId := Some id;
                             chats := chats0;
                             isLoading := false;
                             chatMode := chatMode0;
                             isAnalyzing := isAnalyzing0;
                             isAnalysisModalOpen := isAnalysisModalOpen0;
                             analysisResult := analysisResult0;
                             inactivityTimerRef := inactivityTimerRef0;
                             proactiveGreetingTimerRef := proactiveGreetingTimerRef0;
                             followUpSentRef := followUpSentRef0;
                             activeChanged := activeChanged0;
                             chatsChanged := chatsChanged0;
                             timers := timers0;
                             now := now0;
                             nextHandle := nextHandle0;
                             nextUuid := nextUuid0;
                             inflight := [];
                             calls := calls0;
                             alerts := alerts0;
                             console := console0 |}))))) = []).
  { rewrite <- Hclear.
    destruct inactivityTimerRef0, proactiveGreetingTimerRef0; reflexivity. }
  revert Htimers.
  destruct inactivityTimerRef0, proactiveGreetingTimerRef0, activeChanged0; cbn;
    rewrite Hc; cbn; unfold render, switchCleanup, greetingEffect, historyOf; cbn;
    rewrite lookup_insert_eq; cbn; rewrite isNil_snoc; cbn;
    intros ->; repeat split; reflexivity.
Qed.

Lemma elapse_step (w : App) (dt : N) :
  activeChanged w = false -> chatsChanged w = false ->
  step JSON_parse w (Elapse dt) = with_now (now w + dt)%N w.
Proof.
  intros Ha Hc. unfold step, dispatch, render.
  destruct w; cbn in *. now subst.
Qed.

(** The reply to a send arms at most one timer, and only in normal
    mode. *)
Lemma settle_send_timers (w : App) (call : GatewayCall) (r : Response) :
  timers w = [] -> inflight w = [call] -> gc_kind call = SendCall ->
  activeCharacterId w = Some (gc_character call) ->
  proactiveGreetingTimerRef w = None ->
  activeChanged w = false -> chatsChanged w = false ->
  timers (step JSON_parse w (Settles 0 r))
    = match gc_mode call, r with
      | normal, Fulfilled _ =>
          [{| t_handle := nextHandle w; t_callback := InactivityTimer;
              t_due := (now w + 15000)%N |}]
      | _, _ => []
      end.
Proof.
  intros Ht Hf Hk Ha Hg Hac Hcc. unfold step, dispatch. rewrite Hf. cbn [nth_error].
  destruct call as [kind character mode ? ? appendTo], w; cbn in *. subst.
  unfold settle, logParseFailure, armInactivityTimer, render, switchCleanup,
    greetingEffect, historyOf.
  destruct r as [text|], mode; cbn; try destruct (tryParse _ _ _); cbn;
    rewrite lookup_insert_eq; cbn; rewrite isNil_snoc; reflexivity.
Qed.

(** From a state where each ref holds every pending timer of its kind
    and no call is pending, a submitted message leaves no timer pending
    while its call is out; when the call settles, exactly one follow-up
    timer is pending if the mode was normal and the model replied, and
    none otherwise. *)
Lemma send_without_stray_timers (s : App) (input : string) (dt : N) (r : Response)
    (id : string) (c : Character) :
  held (timers s) (proactiveGreetingTimerRef s) ->
  followUpHeld (timers s) (inactivityTimerRef s) ->
  isLoading s = false -> inflight s = [] ->
  JS.nonEmpty (JS.trim input) = true ->
  activeCharacterId s = Some id -> findCharacter id (characters s) = Some c ->
  timers (step JSON_parse s (Submit input)) = [] /\
  timers (run JSON_parse s [Submit input; Elapse dt; Settles 0 r])
    = match chatMode s, r with
      | normal, Fulfilled _ =>
          [{| t_handle := nextHandle s; t_callback := InactivityTimer;
              t_due := (now s + dt + 15000)%N |}]
      | _, _ => []
      end.
Proof.
  intros Hg Hi Hl Hf Hin Ha Hc.
  destruct (submit_issues s input id c Hg Hi Hl Hf Hin Ha Hc)
    as [Ht [Hcall [Hact [Href [Hac [Hcc [Hh Hn]]]]]]].
  split; [exact Ht|].
  change (run JSON_parse s [Submit input; Elapse dt; Settles 0 r])
    with (step JSON_parse
            (step JSON_parse (step JSON_parse s (Submit input)) (Elapse dt))
            (Settles 0 r)).
  rewrite (elapse_step _ dt Hac Hcc).
  remember (step JSON_parse s (Submit input)) as issued eqn:E. clear E.
  destruct issued; cbn in *. subst.
  erewrite settle_send_timers; try reflexivity.
  cbn. destruct (chatMode s), r; reflexivity.
Qed.

Lemma select_other (s : App) (id : string) :
  greetingTimersHeld s ->
  activeCharacterId s <> Some id ->
  (historyOf id s = [] ->
     greetingTimers (step JSON_parse s (SelectCharacter id))
       = [{| t_handle := nextHandle s; t_callback := GreetingTimer;
             t_due := (now s + 10000)%N |}] /\
     proactiveGreetingTimerRef (step JSON_parse s (SelectCharacter id))
       = Some (nextHandle s)) /\
  (historyOf id s <> [] ->
     greetingTimers (step JSON_parse s (SelectCharacter id)) = []).
Proof.
  unfold greetingTimersHeld, greetingTimers, step, dispatch, setActiveCharacterId.
  intros Hheld Hother. destruct (decide (activeCharacterId s = Some id)) as [|_]; [tauto|].
  clear Hother. unfold_render. destruct s; cbn in *.
  split.
  - intros Hempty.
    destruct inactivityTimerRef0, proactiveGreetingTimerRef0; cbn;
      rewrite Hempty; cbn; rewrite List.filter_app; cbn;
      (rewrite held_no_greeting; [split; reflexivity | eauto 8 with held]).
  - intros Hne.
    destruct (default [] (chats0 !! id)) as [|m rest] eqn:Hhist; [congruence|].
    destruct inactivityTimerRef0, proactiveGreetingTimerRef0; cbn;
      rewrite Hhist; cbn; apply held_no_greeting; eauto 8 with held.
Qed.

Lemma select_same (s : App) (id : string) :
  activeChanged s = false -> chatsChanged s = false ->
  activeCharacterId s = Some id ->
  step JSON_parse s (SelectCharacter id) = s.
Proof.
  intros Ha Hc Hid. unfold step, dispatch, setActiveCharacterId.
  destruct (decide (activeCharacterId s = Some id)) as [_|]; [|tauto].
  unfold render. rewrite Ha, Hc. destruct s; cbn in *. now subst.
Qed.

(** C3, amended: in any state the page reaches, selecting a persona
    other than the active one leaves exactly one greeting timer pending,
    newly armed for 10 s and held by the ref, when that persona's
    conversation is empty, and none when it is not; selecting the persona
    that is already active changes nothing. *)
Theorem select_arms_one_greeting_timer (storedCharacters : list Character)
    (storedChats : gmap string (list Message)) (events : list Event) (id : string) :
  let s := run JSON_parse (mounted storedCharacters storedChats) events in
  let s' := step JSON_parse s (SelectCharacter id) in
  (activeCharacterId s <> Some id -> historyOf id s = [] ->
     greetingTimers s'
       = [{| t_handle := nextHandle s; t_callback := GreetingTimer;
             t_due := (now s + 10000)%N |}] /\
     proactiveGreetingTimerRef s' = Some (nextHandle s)) /\
  (activeCharacterId s <> Some id -> historyOf id s <> [] ->
     greetingTimers s' = []) /\
  (activeCharacterId s = Some id -> s' = s).
Proof.
  intros s s'.
  destruct (reachable_invariant storedCharacters storedChats events)
    as [Hheld [Ha Hc]].
  fold s in Hheld, Ha, Hc. unfold s'.
  split; [|split].
  - intros Hother Hempty. now apply select_other.
  - intros Hother Hne. now apply select_other.
  - intros Hsame. now apply select_same.
Qed.

End Properties.

(** ** The scheduler on concrete runs *)

Example decode_object_without_dialogue :
  parseAiMessage exampleParse sendFallback 0 "{}" = textMessage 0 model "...".
Proof. reflexivity. Qed.

Example decode_null_reply :
  parseAiMessage exampleParse greetingFallback 0 "null" = textMessage 0 model "null".
Proof. reflexivity. Qed.

Example trim_examples :
  JS.trim "  a b  " = "a b" /\ JS.trim "   " = "" /\ JS.trim "" = "" /\
  JS.trim nbsp = "" /\ JS.trim ideographicSpace = "" /\
  JS.trim (nbsp +:+ "a b" +:+ ideographicSpace +:+ " ") = "a b" /\
  JS.trim (String "195" (String "160" " ")) = String "195" (String "160" "").
Proof. repeat split. Qed.

(** A text of non-ASCII white space is blank to every form of the
    page: it is no purpose, no message, no name and no concept. *)
Example wide_white_space_is_blank :
  purposeMissing (Some wideBlank) = true /\
  dispatch exampleParse twoPersonas (Submit wideBlank) = twoPersonas /\
  CharacterModal.handleSubmit None idB
    {| CharacterModal.name := wideBlank; CharacterModal.avatar := "R";
       CharacterModal.personality := "You are a loyal robot dog.";
       CharacterModal.memory := ""; CharacterModal.purpose := "";
       CharacterModal.gender := neutral; CharacterModal.language := "en-US";
       CharacterModal.voiceProfile := medium;
       CharacterModal.voiceSpeed := normalSpeed |}
    = inl CharacterModal.requiredNotice /\
  DynamicQuizModal.questionRequests
    (DynamicQuizModal.run engineTypeError DynamicQuizModal.opened
       [DynamicQuizModal.TypeConcept wideBlank;
        DynamicQuizModal.ClickGenerateQuestions]) = [].
Proof. repeat split; vm_compute; reflexivity. Qed.

Lemma malformed_reply_shown_verbatim_witness :
  exampleParse "Hello!" = None /\
  m_text (parseAiMessage exampleParse sendFallback 7 "Hello!") = JStr "Hello!" /\
  m_text (parseAiMessage exampleParse sendFallback 7 "") = JStr sendFallback.
Proof.
  split; [reflexivity|]. split.
  - pose proof (malformed_reply_shown_verbatim exampleParse sendFallback 7 "Hello!")
      as H.
    destruct H as [_ [H _]]; [reflexivity|]. apply H. discriminate.
  - pose proof (malformed_reply_shown_verbatim exampleParse sendFallback 7 "") as H.
    destruct H as [_ [_ [H _]]]; [reflexivity|]. apply H. reflexivity.
Defined.

Lemma analysis_below_two_user_turns_witness :
  let s := run exampleParse twoPersonas firstExchange in
  length (List.filter isUser (historyOf idA s)) = 1%nat /\
  handleAnalyzeUser s = with_alerts (alerts s ++ [analysisNotice]) s /\
  calls (handleAnalyzeUser s) = calls s.
Proof.
  cbv zeta.
  destruct (analysis_below_two_user_turns exampleParse
              (run exampleParse twoPersonas firstExchange)) as [H _].
  destruct (H idA) as [H1 [H2 _]].
  - vm_compute. reflexivity.
  - vm_compute. lia.
  - split; [vm_compute; reflexivity|]. split; assumption.
Defined.

Lemma follow_up_once_between_user_sends_witness :
  let s := run exampleParse twoPersonas firstExchange in
  forallb (fun e => negb (isUserSend e)) silence = true /\
  followUpsIssued s = 0%nat /\
  followUpsIssued (run exampleParse s silence) = 1%nat /\
  followUpsIssued (run exampleParse s silence) <= followUpsIssued s + 1.
Proof.
  cbv zeta. split; [reflexivity|]. split; [vm_compute; reflexivity|].
  split; [vm_compute; reflexivity|].
  assert (Hquiet : forallb (fun e => negb (isUserSend e)) silence = true)
    by reflexivity.
  pose proof (follow_up_once_between_user_sends exampleParse
                (run exampleParse twoPersonas firstExchange) silence Hquiet) as H.
  cbv zeta in H. destruct H as [H _]. exact H.
Defined.

(** C3 as stated fails: after a greeting whose call was rejected, the
    active persona has an empty conversation and no greeting timer;
    selecting it again arms none. *)
Lemma reselect_after_failed_greeting_arms_nothing :
  let s := run exampleParse (mounted [] ∅)
             ([SaveCharacter (1 # 2) nova; SaveCharacter (1 # 2) vega] ++ failedGreeting) in
  onTime exampleParse twoPersonas failedGreeting = true /\
  activeCharacterId s = Some idA /\
  historyOf idA s = [] /\
  greetingTimers s = [] /\
  greetingTimers (step exampleParse s (SelectCharacter idA)) = [].
Proof. cbv zeta. repeat split; vm_compute; reflexivity. Qed.

Lemma select_arms_one_greeting_timer_witness :
  let events := [SaveCharacter (1 # 2) nova; SaveCharacter (1 # 2) vega] in
  let s := run exampleParse (mounted [] ∅) events in
  greetingTimers (step exampleParse s (SelectCharacter idA))
    = [{| t_handle := 1; t_callback := GreetingTimer; t_due := 10000 |}] /\
  greetingTimers
    (step exampleParse (run exampleParse (mounted [] ∅) (events ++ firstExchange))
       (SelectCharacter idA))
    = greetingTimers (run exampleParse (mounted [] ∅) (events ++ firstExchange)).
Proof.
  cbv zeta. split.
  - destruct (select_arms_one_greeting_timer exampleParse [] ∅
                [SaveCharacter (1 # 2) nova; SaveCharacter (1 # 2) vega] idA)
      as [H _].
    destruct H as [H _]; [vm_compute; discriminate | vm_compute; reflexivity |].
    rewrite H. vm_compute. reflexivity.
  - destruct (select_arms_one_greeting_timer exampleParse [] ∅
                ([SaveCharacter (1 # 2) nova; SaveCharacter (1 # 2) vega]
                   ++ firstExchange) idA)
      as [_ [_ H]].
    rewrite H; [reflexivity | vm_compute; reflexivity].
Defined.

(** C4 as stated fails: the call of a proactive greeting is rejected;
    the loading indicator stops, the failure is logged, and the
    conversation stays empty: no error message is inserted.  The same
    happens on the follow-up path. *)
Lemma failed_greeting_inserts_no_message :
  let s := run exampleParse twoPersonas failedGreeting in
  let quiet := run exampleParse twoPersonas
                 (firstExchange ++ [Elapse 15000; TimerFires 2; Elapse 1000]) in
  List.map gc_kind (calls s) = [GreetingCall] /\
  isLoading s = false /\
  historyOf idA s = [] /\
  console s = ["Error sending AI greeting:"] /\
  List.map gc_kind (inflight quiet) = [FollowUpCall] /\
  historyOf idA (step exampleParse quiet (Settles 0 Rejected)) = historyOf idA quiet /\
  length (historyOf idA quiet) = 2%nat.
Proof. cbv zeta. repeat split; vm_compute; reflexivity. Qed.

Lemma transport_failure_by_path_witness :
  let s := run exampleParse twoPersonas [SelectCharacter idA; Submit "hi"; Elapse 1000] in
  let s' := step exampleParse s (Settles 0 Rejected) in
  isLoading s' = false /\
  chats s' !! idA = Some [textMessage 0 user "hi"; textMessage 1 model sendErrorText].
Proof.
  cbv zeta.
  pose proof (transport_failure_by_path exampleParse
                (run exampleParse twoPersonas [SelectCharacter idA; Submit "hi"; Elapse 1000])
                0 firstCall) as H.
  cbv zeta in H. change (gc_kind firstCall) with SendCall in H.
  change (gc_character firstCall) with idA in H.
  destruct H as [H1 H2]; [vm_compute; reflexivity|].
  split; [exact H1|]. rewrite H2. vm_compute. reflexivity.
Defined.

(** C2 fails on this run.  A's reply arrives after the switch to B and
    arms a follow-up timer (handle 3); B's greeting reply arms another
    (handle 5) over it.  When the user then writes to B, only handle 5 is
    cleared: handle 3 is pending while the call is issued, and after the
    reply two follow-up timers are pending.  Handle 3 then fires two
    seconds after the reply and issues the follow-up. *)
Theorem send_leaves_two_follow_up_timers :
  let before := run exampleParse twoPersonas replyAfterSwitch in
  let issued := run exampleParse before sendInB in
  let replied := run exampleParse issued replyInB in
  let nudged := run exampleParse replied [Elapse 2000; TimerFires 3] in
  onTime exampleParse twoPersonas
    (replyAfterSwitch ++ sendInB ++ replyInB ++ [Elapse 2000; TimerFires 3]) = true /\
  followUpTimers before
    = [{| t_handle := 3; t_callback := InactivityTimer; t_due := 16000 |};
       {| t_handle := 5; t_callback := InactivityTimer; t_due := 27000 |}] /\
  List.map gc_kind (inflight issued) = [SendCall] /\
  followUpTimers issued
    = [{| t_handle := 3; t_callback := InactivityTimer; t_due := 16000 |}] /\
  (chatMode replied, isLoading replied, now replied) = (normal, false, 14000%N) /\
  followUpTimers replied
    = [{| t_handle := 3; t_callback := InactivityTimer; t_due := 16000 |};
       {| t_handle := 6; t_callback := InactivityTimer; t_due := 29000 |}] /\
  List.map gc_kind (inflight nudged) = [FollowUpCall] /\
  now nudged = 16000%N.
Proof. cbv zeta. repeat split; vm_compute; reflexivity. Qed.

(** C1 fails on this run: conversation B receives two follow-ups with
    no user message in B between them.  The guard is one flag for the
    page: the message the user writes to A lowers it, and A's reply,
    which arrives after the return to B, arms a follow-up timer that then
    fires in B.  The page stays in normal mode, every timer fires on
    time, and the four calls are: send to B, follow-up to B, send to A,
    follow-up to B.  The second follow-up carries B's conversation ending
    with the first follow-up message, and B ends with three model
    messages in a row. *)
Theorem second_follow_up_without_user_message :
  let s := run exampleParse twoPersonas doubleFollowUp in
  onTime exampleParse twoPersonas doubleFollowUp = true /\
  chatMode s = normal /\
  List.map (fun call => (gc_kind call, gc_character call, gc_mode call)) (calls s)
    = [(SendCall, idB, normal); (FollowUpCall, idB, normal);
       (SendCall, idA, normal); (FollowUpCall, idB, normal)] /\
  List.map (fun call => List.map m_role (gc_history call))
      (List.filter isFollowUpCall (calls s))
    = [[user; model]; [user; model; model]] /\
  List.map m_text (historyOf idB s)
    = [JStr "hi"; JStr "Hello!"; JStr "Still with me?"; JStr "Anyone?"] /\
  List.map m_role (historyOf idB s) = [user; model; model; model] /\
  followUpsIssued s = 2%nat.
Proof. cbv zeta. repeat split; vm_compute; reflexivity. Qed.

(** The ordinary case, for comparison: a send from a state without stray
    timers re-arms exactly one follow-up timer. *)
Example send_from_fresh_selection :
  timers (run exampleParse (run exampleParse twoPersonas [SelectCharacter idA])
            [Submit "hi"; Elapse 1000; Settles 0 (Fulfilled "Hello!")])
    = [{| t_handle := 2; t_callback := InactivityTimer; t_due := 16000 |}].
Proof.
  pose proof (send_without_stray_timers exampleParse
                (run exampleParse twoPersonas [SelectCharacter idA])
                "hi" 1000 (Fulfilled "Hello!") idA nova) as H.
  destruct H as [_ H].
  - intros t Hin _. vm_compute in Hin. destruct Hin as [<-|[]]. reflexivity.
  - intros t Hin Hk. vm_compute in Hin. destruct Hin as [<-|[]]. discriminate.
  - reflexivity.
  - reflexivity.
  - reflexivity.
  - vm_compute. reflexivity.
  - vm_compute. reflexivity.
  - rewrite H. vm_compute. reflexivity.
Qed.

(** * Further properties of the page *)

Ltac unfold_page :=
  unfold dispatch, runCallback, handleSendMessage, handleSendFollowUp,
    handleProactiveGreeting, handleAnalyzeUser, handleSaveCharacter,
    handleDeleteCharacter, settle, logParseFailure, armInactivityTimer,
    setActiveCharacterId, setChats, sendToModel, randomUUID,
    clearIfSet, clearTimeout, setTimeout, historyOf, findTimer.

Ltac unfold_effects :=
  unfold render, greetingEffect, switchCleanup, clearIfSet, clearTimeout,
    setTimeout, historyOf.

Lemma inflight_render (s : App) : inflight (render s) = inflight s.
Proof. unfold_effects. destruct s; cbn. case_matches; reflexivity. Qed.

Lemma timers_render_incl (s : App) (t : Timer) :
  In t (timers (render s)) -> isInactivityTimer t = true -> In t (timers s).
Proof.
  unfold_effects. destruct s; cbn. case_matches; intros Hin Hk;
    repeat match goal with
           | H : In _ (_ ++ _) |- _ => apply in_app_or in H as [H|[<-|[]]]
           | H : In _ (List.filter _ _) |- _ => apply filter_In in H as [H _]
           end; try assumption; try discriminate.
Qed.

Section Scheduler.

Variable JSON_parse : string -> option JSValue.

(** *** Follow-up timers are armed by replies only *)

Lemma followUp_dispatch_incl (s : App) (e : Event) (t : Timer) :
  armsFollowUp s e = false ->
  In t (timers (dispatch JSON_parse s e)) -> isInactivityTimer t = true ->
  In t (timers s).
Proof.
  intros Harm. destruct e; unfold_page; destruct s; cbn in Harm |- *.
  all: case_matches; intros Hin Hk; try discriminate.
  all: repeat match goal with
              | H : In _ (_ ++ _) |- _ => apply in_app_or in H as [H|[<-|[]]]
              | H : In _ (List.filter _ _) |- _ => apply filter_In in H as [H _]
              end; try assumption; try discriminate.
Qed.

(** X1: an event arms no follow-up timer unless it is the reply to a
    send or greeting call that was issued in normal mode: every follow-up
    timer pending after any other event was pending before it.  Such a
    reply arms one for 15 s, whatever the mode is when it arrives. *)
Theorem follow_up_timers_armed_by_replies_only (s : App) (e : Event) :
  (armsFollowUp s e = false ->
   forall t, In t (followUpTimers (step JSON_parse s e)) -> In t (followUpTimers s)) /\
  (armsFollowUp s e = true ->
   In {| t_handle := nextHandle s; t_callback := InactivityTimer;
         t_due := (now s + 15000)%N |}
      (followUpTimers (dispatch JSON_parse s e)) /\
   inactivityTimerRef (dispatch JSON_parse s e) = Some (nextHandle s)).
Proof.
  split.
  - intros Harm t Hin. unfold followUpTimers in *.
    apply filter_In in Hin as [Hin Hk]. apply filter_In. split; [|assumption].
    unfold step in Hin. apply timers_render_incl in Hin; [|assumption].
    now apply (followUp_dispatch_incl s e).
  - intros Harm. unfold followUpTimers.
    destruct e as [| | | | | | | | |i r]; try discriminate.
    destruct r as [text|]; [|discriminate]. cbn in Harm |- *.
    destruct (nth_error (inflight s) i) as [call|]; [|discriminate].
    destruct call as [kind ? mode ? ? ?]. cbn in Harm.
    unfold_page. destruct s; cbn.
    destruct kind, mode; try discriminate; cbn; case_matches;
      (split; [apply filter_In; split; [apply in_or_app; right; now left | reflexivity]
              | reflexivity]).
Qed.

(** *** One chat call at a time *)

Ltac split_bools :=
  repeat match goal with
         | H : _ || _ = false |- _ => apply orb_false_elim in H as [? ?]
         | H : _ && _ = true |- _ => apply andb_prop in H as [? ?]
         | H : negb _ = true |- _ => apply negb_true_iff in H
         | H : negb _ = false |- _ => apply negb_false_iff in H
         end.

Ltac by_kind :=
  first [ reflexivity
        | match goal with H : gc_kind _ = _ |- _ => now rewrite H end ].

Lemma outcome_dispatch (s : App) (e : Event) : Outcome s e (dispatch JSON_parse s e).
Proof.
  destruct e; unfold_page; destruct s; cbn.
  all: case_matches; split_bools; subst.
  all: try solve [apply o_frame; reflexivity].
  all: try solve [eapply o_created; [eassumption | reflexivity..]].
  all: try solve [eapply o_deleted; reflexivity].
  all: try solve [eapply o_analysis; cycle 1; reflexivity].
  all: try solve [eapply o_analysed; [eassumption | by_kind..]].
  all: try solve [eapply (o_settled _ _ _ _ _ (Some _)); [eassumption | by_kind..]].
  all: try solve [eapply (o_settled _ _ _ _ _ None); [eassumption | by_kind..]].
  all: try solve
         [eapply o_issued; cycle 3;
          [ reflexivity
          | cbn; unfold historyOf; cbn;
            first [reflexivity | symmetry; apply app_nil_r]
          | cbn; unfold historyOf; cbn; rewrite ?lookup_insert_eq; reflexivity
          | cbn; intros j Hj; rewrite ?lookup_insert_ne by congruence; reflexivity
          | reflexivity.. ]].
Qed.

Lemma filter_removed {A} (p : A -> bool) (l : list A) (i : nat) (x : A) :
  nth_error l i = Some x ->
  List.filter p l
    = List.filter p (firstn i l) ++ (if p x then [x] else [])
        ++ List.filter p (skipn (S i) l).
Proof.
  revert i. induction l as [|y rest IH]; intros [|i] H; cbn in *; try discriminate.
  - injection H as ->. now destruct (p x).
  - rewrite (IH i H). now destruct (p y).
Qed.

Lemma pending_settle_other (s : App) (i : nat) (call : GatewayCall) :
  nth_error (inflight s) i = Some call -> isChatCall (gc_kind call) = false ->
  List.filter (fun c => isChatCall (gc_kind c))
    (firstn i (inflight s) ++ skipn (S i) (inflight s))
  = pendingChatCalls s.
Proof.
  intros H Hk. unfold pendingChatCalls.
  rewrite (filter_removed _ _ _ _ H), List.filter_app, Hk. reflexivity.
Qed.

Lemma pending_settle_chat (s : App) (i : nat) (call c : GatewayCall) :
  nth_error (inflight s) i = Some call -> isChatCall (gc_kind call) = true ->
  pendingChatCalls s = [c] ->
  List.filter (fun c => isChatCall (gc_kind c))
    (firstn i (inflight s) ++ skipn (S i) (inflight s))
  = [].
Proof.
  intros H Hk. unfold pendingChatCalls.
  rewrite (filter_removed _ _ _ _ H), List.filter_app, Hk.
  destruct (List.filter _ (firstn i (inflight s))) as [|a l1]; cbn.
  - intros [= _ ->]. reflexivity.
  - intros [= _ Hl]. destruct l1; discriminate.
Qed.

Lemma pending_settle_some (s : App) (i : nat) (call : GatewayCall) :
  nth_error (inflight s) i = Some call -> isChatCall (gc_kind call) = true ->
  pendingChatCalls s <> [].
Proof.
  intros H Hk. unfold pendingChatCalls.
  rewrite (filter_removed _ _ _ _ H), Hk.
  destruct (List.filter _ (firstn i (inflight s))); discriminate.
Qed.

Lemma singleFlight_outcome (s d : App) (e : Event) :
  Outcome s e d -> singleFlight s -> singleFlight d.
Proof.
  unfold singleFlight, pendingChatCalls, historyOf.
  intros [Hi Hl Hc|id Hnone Hc Hi Hl|id He Hc Hi Hl|call Hk Hi Hl Hc
         |call added Hk Hl Hl' Hi Ha Hh Hc|i call reply Hn Hk Hi Hl Hc
         |i call Hn Hk Hi Hl Hc] H.
  - now rewrite Hi, Hl, Hc.
  - rewrite Hi, Hl, Hc.
    destruct (List.filter _ (inflight s)) as [|c [|c' l]]; try assumption.
    destruct H as [H1 H2]. split; [assumption|].
    destruct (decide (id = gc_character c)) as [->|Hne].
    + right. now rewrite lookup_insert_eq.
    + now rewrite lookup_insert_ne.
  - rewrite Hi, Hl, Hc.
    destruct (List.filter _ (inflight s)) as [|c [|c' l]]; try assumption.
    destruct H as [H1 H2]. split; [assumption|].
    destruct (decide (id = gc_character c)) as [->|Hne].
    + right. now rewrite lookup_delete_eq.
    + now rewrite lookup_delete_ne.
  - rewrite Hi, Hl, Hc, List.filter_app. cbn. rewrite Hk. cbn.
    now rewrite app_nil_r.
  - rewrite Hi, Hl', List.filter_app. cbn. rewrite Hk. cbn.
    destruct (List.filter _ (inflight s)) as [|c [|c' l]]; cbn.
    + split; [reflexivity|]. left. exact Hh.
    + destruct H as [H _]. congruence.
    + contradiction.
  - rewrite Hi, Hl.
    pose proof (pending_settle_some s i call Hn Hk) as Hsome.
    pose proof (pending_settle_chat s i call) as Hp.
    unfold pendingChatCalls in Hsome, Hp.
    destruct (List.filter _ (inflight s)) as [|c [|c' l]] eqn:E.
    + congruence.
    + now rewrite (Hp c Hn Hk eq_refl).
    + contradiction.
  - assert (Hk' : isChatCall (gc_kind call) = false) by now rewrite Hk.
    rewrite Hi, Hl, Hc. pose proof (pending_settle_other s i call Hn Hk') as Hp.
    unfold pendingChatCalls in Hp. now rewrite Hp.
Qed.

Lemma singleFlight_step (s : App) (e : Event) :
  singleFlight s -> singleFlight (step JSON_parse s e).
Proof.
  intros H. apply (singleFlight_outcome s _ e (outcome_dispatch s e)) in H.
  unfold step, singleFlight, pendingChatCalls, historyOf in *.
  now rewrite inflight_render, isLoading_render, chats_render.
Qed.

Lemma singleFlight_reachable (storedCharacters : list Character)
    (storedChats : gmap string (list Message)) (events : list Event) :
  singleFlight (run JSON_parse (mounted storedCharacters storedChats) events).
Proof.
  unfold run. rewrite <- fold_left_rev_right.
  induction (rev events) as [|e rest IH]; cbn.
  - reflexivity.
  - now apply singleFlight_step.
Qed.

(** X2: in every state the page reaches, at most one chat call (send,
    greeting or follow-up) is pending, and the loading indicator is on
    exactly while one is. *)
Theorem one_chat_call_at_a_time (storedCharacters : list Character)
    (storedChats : gmap string (list Message)) (events : list Event) :
  let s := run JSON_parse (mounted storedCharacters storedChats) events in
  length (pendingChatCalls s) <= 1 /\
  (isLoading s = true <-> pendingChatCalls s <> []).
Proof.
  intros s.
  pose proof (singleFlight_reachable storedCharacters storedChats events) as H.
  fold s in H. unfold singleFlight in H.
  destruct (pendingChatCalls s) as [|c [|c' l]]; cbn.
  - split; [lia|]. rewrite H. split; [discriminate | congruence].
  - destruct H as [H _]. split; [lia|]. rewrite H. split; [discriminate | reflexivity].
  - contradiction.
Qed.

Lemma history_outcome (s d : App) (e : Event) (id : string) :
  Outcome s e d -> singleFlight s -> e <> DeleteCharacter id ->
  exists added, historyOf id d = historyOf id s ++ added.
Proof.
  unfold historyOf.
  intros [Hi Hl Hc|id' Hnone Hc Hi Hl|id' He Hc Hi Hl|call Hk Hi Hl Hc
         |call added Hk Hl Hl' Hi Ha Hh Hc|i call reply Hn Hk Hi Hl Hc
         |i call Hn Hk Hi Hl Hc] H Hne.
  - exists []. now rewrite Hc, app_nil_r.
  - exists []. rewrite Hc, app_nil_r.
    destruct (decide (id' = id)) as [->|Hd].
    + now rewrite lookup_insert_eq, Hnone.
    + now rewrite lookup_insert_ne.
  - exists []. rewrite Hc, app_nil_r.
    rewrite lookup_delete_ne; [reflexivity | congruence].
  - exists []. now rewrite Hc, app_nil_r.
  - destruct (decide (id = gc_character call)) as [->|Hd].
    + exists added. unfold historyOf in Hh, Ha. now rewrite Hh, Ha.
    + exists []. now rewrite (Hc id Hd), app_nil_r.
  - destruct reply as [m|]; [|exists []; now rewrite Hc, app_nil_r].
    destruct (decide (gc_character call = id)) as [<-|Hd];
      [|exists []; now rewrite Hc, lookup_insert_ne, app_nil_r].
    rewrite Hc, lookup_insert_eq. cbn.
    assert (Hin : In call (pendingChatCalls s)).
    { apply filter_In. split; [eapply nth_error_In; eassumption | assumption]. }
    unfold singleFlight, historyOf in H.
    destruct (pendingChatCalls s) as [|c [|c' l]]; [destruct Hin | | contradiction].
    destruct Hin as [->|[]]. destruct H as [_ [H|H]]; rewrite H.
    + now exists [m].
    + now exists (gc_appendTo call ++ [m]).
  - exists []. now rewrite Hc, app_nil_r.
Qed.

(** X3: conversations are append-only.  In every state the page
    reaches, whatever the next event is (other than deleting that very
    persona), the conversation of a persona keeps all its messages in
    order and at most gains messages at its end. *)
Theorem conversations_append_only (storedCharacters : list Character)
    (storedChats : gmap string (list Message)) (events : list Event)
    (e : Event) (id : string) :
  e <> DeleteCharacter id ->
  let s := run JSON_parse (mounted storedCharacters storedChats) events in
  exists added, historyOf id (step JSON_parse s e) = historyOf id s ++ added.
Proof.
  intros Hne s.
  destruct (history_outcome s _ e id (outcome_dispatch s e)
              (singleFlight_reachable storedCharacters storedChats events) Hne)
    as [added H].
  exists added. unfold step, historyOf in *. now rewrite chats_render.
Qed.

(** *** The greeting timer in every reachable state *)

Lemma tidy_filter (p : Timer -> bool) (pending : list Timer) (next : positive) :
  timersTidy pending next -> timersTidy (List.filter p pending) next.
Proof.
  intros [Hnd Hlt]. split.
  - clear Hlt. induction pending as [|t rest IH]; cbn; [apply List.NoDup_nil|].
    cbn in Hnd. apply List.NoDup_cons_iff in Hnd as [Hnotin Hnd].
    destruct (p t); cbn; [|now apply IH].
    apply List.NoDup_cons; [|now apply IH].
    intros Hin. apply Hnotin. apply in_map_iff in Hin as [x [Hx Hin]].
    apply filter_In in Hin as [Hin _]. apply in_map_iff. now exists x.
  - intros t Hin. apply filter_In in Hin as [Hin _]. now apply Hlt.
Qed.

Lemma tidy_armed (pending : list Timer) (next : positive)
    (callback : TimerCallback) (due : N) :
  timersTidy pending next ->
  timersTidy
    (pending ++ [{| t_handle := next; t_callback := callback; t_due := due |}])
    (Pos.succ next).
Proof.
  intros [Hnd Hlt]. split.
  - rewrite List.map_app. cbn. apply List.NoDup_app.
    + assumption.
    + apply List.NoDup_cons; [intros [] | apply List.NoDup_nil].
    + intros h Hin [<-|[]]. apply in_map_iff in Hin as [t [Ht Hin]].
      specialize (Hlt t Hin). lia.
  - intros t Hin. apply in_app_or in Hin as [Hin|[<-|[]]]; cbn; [|lia].
    specialize (Hlt t Hin). lia.
Qed.

Create HintDb tidy.

#[local] Hint Resolve tidy_filter tidy_armed : tidy.

Lemma tidy_render (s : App) :
  timersTidy (timers s) (nextHandle s) ->
  timersTidy (timers (render s)) (nextHandle (render s)).
Proof.
  unfold_effects. destruct s; cbn. intros H. case_matches; eauto 8 with tidy.
Qed.

Lemma tidy_dispatch (s : App) (e : Event) :
  timersTidy (timers s) (nextHandle s) ->
  timersTidy (timers (dispatch JSON_parse s e)) (nextHandle (dispatch JSON_parse s e)).
Proof.
  destruct e; unfold_page; destruct s; cbn.
  all: intros H; case_matches; eauto 8 with tidy.
Qed.

Lemma quiet_dispatch (s : App) (e : Event) :
  activeChanged s = false -> chatsChanged s = false ->
  activeChanged (dispatch JSON_parse s e) || chatsChanged (dispatch JSON_parse s e)
    = false ->
  activeCharacterId (dispatch JSON_parse s e) = activeCharacterId s /\
  chats (dispatch JSON_parse s e) = chats s /\
  (forall t, In t (timers (dispatch JSON_parse s e)) -> isGreetingTimer t = true ->
     In t (timers s)).
Proof.
  intros Ha Hc. destruct e; unfold_page; destruct s; cbn in Ha, Hc |- *; subst.
  all: case_matches; intros Hq; try discriminate.
  all: split; [reflexivity | split; [reflexivity|]]; intros pending Hin Hk.
  all: repeat match goal with
              | H : In _ (_ ++ _) |- _ => apply in_app_or in H as [H|[<-|[]]]
              | H : In _ (List.filter _ _) |- _ => apply filter_In in H as [H _]
              end; try assumption; try discriminate.
Qed.

Lemma render_idle (s : App) :
  activeChanged s = false -> chatsChanged s = false -> render s = s.
Proof. intros Ha Hc. unfold render. rewrite Ha, Hc. destruct s; cbn in *. now subst. Qed.

Lemma justified_render_changed (s : App) :
  held (timers s) (proactiveGreetingTimerRef s) ->
  activeChanged s || chatsChanged s = true ->
  greetingJustified (render s).
Proof.
  unfold greetingJustified. unfold_effects. destruct s; cbn.
  intros Hheld Hchanged.
  assert (Hnone : forall ref other,
            held (cleared ref (cleared proactiveGreetingTimerRef0 (cleared other timers0)))
              None).
  { intros ref other.
    assert (H1 : held (cleared other timers0) proactiveGreetingTimerRef0)
      by (destruct other; cbn; auto using held_filter).
    assert (H2 : held (cleared proactiveGreetingTimerRef0 (cleared other timers0)) None)
      by (destruct proactiveGreetingTimerRef0; cbn; auto using held_cleared).
    destruct ref; cbn; auto using held_filter. }
  destruct activeChanged0, chatsChanged0; try discriminate; cbn.
  all: destruct inactivityTimerRef0 as [i|], proactiveGreetingTimerRef0 as [g|],
         activeCharacterId0 as [a|]; cbn.
  all: try destruct (isNil (default [] (chats0 !! a))) eqn:Hnil; cbn.
  all: intros t Hin Hk.
  all: try (apply in_app_or in Hin as [Hin|[<-|[]]];
            [| exists a; split; [reflexivity | now apply isNil_true]]).
  all: exfalso.
  all: first
         [ now pose proof (Hnone (Some g) (Some i) t Hin Hk)
         | now pose proof (Hnone None (Some i) t Hin Hk)
         | now pose proof (Hnone (Some g) None t Hin Hk)
         | now pose proof (Hnone None None t Hin Hk) ].
Qed.

Lemma justified_step (s : App) (e : Event) :
  greetingTimersHeld s -> activeChanged s = false -> chatsChanged s = false ->
  greetingJustified s -> greetingJustified (step JSON_parse s e).
Proof.
  intros Hheld Ha Hc Hj. unfold step.
  pose proof (held_dispatch JSON_parse s e Hheld) as Hd.
  destruct (activeChanged (dispatch JSON_parse s e)
            || chatsChanged (dispatch JSON_parse s e)) eqn:Hq.
  - now apply justified_render_changed.
  - destruct (quiet_dispatch s e Ha Hc Hq) as [Hact [Hchats Hin]].
    apply orb_false_elim in Hq as [Hqa Hqc]. rewrite (render_idle _ Hqa Hqc).
    intros t Ht Hk. destruct (Hj t (Hin t Ht Hk) Hk) as [id [Hid Hh]].
    exists id. unfold historyOf in *. now rewrite Hact, Hchats.
Qed.

Lemma one_held_timer (pending : list Timer) (ref : option positive) :
  List.NoDup (List.map t_handle pending) -> held pending ref ->
  length (List.filter isGreetingTimer pending) <= 1.
Proof.
  intros Hnd Hheld.
  destruct (List.filter isGreetingTimer pending) as [|t1 [|t2 rest]] eqn:E;
    cbn; try lia.
  exfalso.
  assert (H1 : In t1 (List.filter isGreetingTimer pending)) by (rewrite E; now left).
  assert (H2 : In t2 (List.filter isGreetingTimer pending))
    by (rewrite E; right; now left).
  apply filter_In in H1 as [H1 K1]. apply filter_In in H2 as [H2 K2].
  pose proof (Hheld t1 H1 K1) as R1. pose proof (Hheld t2 H2 K2) as R2.
  assert (Hh : t_handle t1 = t_handle t2) by congruence.
  clear Hheld R1 R2 H1 H2 K1 K2.
  induction pending as [|t rest' IH]; cbn in E; [discriminate|].
  cbn in Hnd. apply List.NoDup_cons_iff in Hnd as [Hnotin Hnd].
  destruct (isGreetingTimer t); [|now apply IH].
  injection E as -> E. apply Hnotin. rewrite Hh. apply in_map.
  assert (Hin : In t2 (List.filter isGreetingTimer rest')) by (rewrite E; now left).
  now apply filter_In in Hin as [Hin _].
Qed.

Lemma greeting_reachable (storedCharacters : list Character)
    (storedChats : gmap string (list Message)) (events : list Event) :
  let s := run JSON_parse (mounted storedCharacters storedChats) events in
  greetingJustified s /\ timersTidy (timers s) (nextHandle s).
Proof.
  induction events as [|e rest IH] using rev_ind; cbv zeta.
  - split; [intros t [] | split; [apply List.NoDup_nil | intros t []]].
  - unfold run. rewrite fold_left_app. cbn.
    fold (run JSON_parse (mounted storedCharacters storedChats) rest).
    destruct IH as [Hj Ht].
    destruct (reachable_invariant JSON_parse storedCharacters storedChats rest)
      as [Hheld [Ha Hc]].
    split; [now apply justified_step|].
    unfold step. now apply tidy_render, tidy_dispatch.
Qed.

(** X4: in every state the page reaches, at most one greeting timer is
    pending; a pending one is the timer the greeting ref holds, and it
    waits for a persona that is active and whose conversation is empty.
    All pending timers have distinct handles. *)
Theorem greeting_timer_invariant (storedCharacters : list Character)
    (storedChats : gmap string (list Message)) (events : list Event) :
  let s := run JSON_parse (mounted storedCharacters storedChats) events in
  length (greetingTimers s) <= 1 /\
  List.NoDup (List.map t_handle (timers s)) /\
  (forall t, In t (greetingTimers s) ->
     proactiveGreetingTimerRef s = Some (t_handle t) /\
     exists id, activeCharacterId s = Some id /\ historyOf id s = []).
Proof.
  intros s.
  destruct (greeting_reachable storedCharacters storedChats events) as [Hj [Hnd _]].
  destruct (reachable_invariant JSON_parse storedCharacters storedChats events)
    as [Hheld _].
  fold s in Hj, Hnd, Hheld. split; [|split].
  - exact (one_held_timer _ (proactiveGreetingTimerRef s) Hnd Hheld).
  - exact Hnd.
  - intros t Hin. apply filter_In in Hin as [Hin Hk]. split.
    + now apply Hheld.
    + exact (Hj t Hin Hk).
Qed.

(** *** What a submitted message does *)

(** X5: a submitted message that is blank after trimming, or submitted
    while a call is pending, changes nothing.  Otherwise, with a persona
    selected, the trimmed text is appended to its conversation as one user
    message, every other conversation is untouched, the loading indicator
    goes on, the follow-up guard is lowered, and exactly one call is
    issued: it carries the trimmed text as the new turn and the
    conversation as it was before the message as its history. *)
Theorem submit_contract (s : App) (input : string) :
  activeChanged s = false -> chatsChanged s = false ->
  (JS.trim input = "" \/ isLoading s = true ->
   step JSON_parse s (Submit input) = s) /\
  (forall id c,
     JS.trim input <> "" -> isLoading s = false ->
     activeCharacterId s = Some id -> findCharacter id (characters s) = Some c ->
     let d := step JSON_parse s (Submit input) in
     historyOf id d
       = historyOf id s ++ [textMessage (nextUuid s) user (JS.trim input)] /\
     (forall other, other <> id -> chats d !! other = chats s !! other) /\
     isLoading d = true /\ followUpSentRef d = false /\
     calls d
       = calls s
           ++ [{| gc_kind := SendCall; gc_character := id; gc_mode := chatMode s;
                  gc_history := historyOf id s; gc_message := JS.trim input;
                  gc_appendTo :=
                    historyOf id s
                      ++ [textMessage (nextUuid s) user (JS.trim input)] |}]).
Proof.
  intros Hfa Hfc. split.
  - intros Hno. unfold step, dispatch.
    assert (Hgate : JS.nonEmpty (JS.trim input) && negb (isLoading s) = false).
    { destruct Hno as [-> | ->]; [reflexivity | apply andb_false_r]. }
    rewrite Hgate. now apply render_idle.
  - intros id c Hin Hl Ha Hc d. unfold d, step, dispatch.
    assert (Hgate : JS.nonEmpty (JS.trim input) && negb (isLoading s) = true).
    { rewrite Hl. destruct (JS.trim input); [congruence | reflexivity]. }
    rewrite Hgate. unfold historyOf.
    rewrite chats_render, isLoading_render, followUpSentRef_render, calls_render.
    unfold handleSendMessage. rewrite Ha. unfold findCharacter in Hc.
    destruct s; cbn in *. subst.
    destruct inactivityTimerRef0, proactiveGreetingTimerRef0; cbn; rewrite Hc; cbn;
      (repeat split; [now rewrite lookup_insert_eq
                     | intros other Ho; now rewrite lookup_insert_ne]).
Qed.

(** *** The analysis requestor *)

(** X6: the Analyze button and the handler agree.  When the button's
    test holds for the active conversation (two user messages or more),
    [handleAnalyzeUser] issues exactly one analysis call carrying the
    whole conversation, raises [isAnalyzing], opens the report modal and
    clears the previous report, and touches neither conversations, timers
    nor the chat loading flag; when the test fails it only alerts. *)
Theorem analyze_button_agrees_with_handler (s : App) (id : string) :
  activeCharacterId s = Some id ->
  let d := handleAnalyzeUser s in
  (hasEnoughMessagesForAnalysis (historyOf id s) = true ->
   calls d = calls s ++ [analysisCallFor id s] /\
   inflight d = inflight s ++ [analysisCallFor id s] /\
   isAnalyzing d = true /\ isAnalysisModalOpen d = true /\
   analysisResult d = None /\
   chats d = chats s /\ timers d = timers s /\ isLoading d = isLoading s /\
   alerts d = alerts s) /\
  (hasEnoughMessagesForAnalysis (historyOf id s) = false ->
   d = with_alerts (alerts s ++ [analysisNotice]) s).
Proof.
  intros Ha d. unfold d, handleAnalyzeUser, hasEnoughMessagesForAnalysis,
    analysisCallFor, sendToModel. rewrite Ha.
  set (n := length (List.filter isUser (historyOf id s))).
  split; intros H.
  - apply Nat.leb_le in H.
    assert (Hlt : (n <? 2)%nat = false) by (apply Nat.ltb_ge; lia).
    rewrite Hlt. destruct s; cbn. repeat split.
  - apply Nat.leb_gt in H.
    assert (Hlt : (n <? 2)%nat = true) by (apply Nat.ltb_lt; lia).
    now rewrite Hlt.
Qed.

(** *** The decoder never yields an empty text *)

Lemma dialogue_or_ellipsis_truthy (v : JSValue) :
  truthy match member "dialogue" v with
         | Some dialogue => if truthy dialogue then dialogue else JStr "..."
         | None => JStr "..."
         end = true.
Proof.
  destruct (member "dialogue" v) as [d|]; [|reflexivity].
  destruct (truthy d) eqn:E; [exact E | reflexivity].
Qed.

Lemma fallback_truthy (kind : CallKind) (body : string) :
  isChatCall kind = true ->
  truthy (JStr (JS.orElse body (fallbackFor kind))) = true.
Proof.
  intros Hk. destruct body; [|reflexivity].
  destruct kind; try discriminate; reflexivity.
Qed.

(** X7: whatever the reply body is (valid JSON or not, with or
    without a dialogue field, empty or not), the message each chat handler
    decodes from it is a model message with the fresh id and a non-empty
    (truthy) text. *)
Theorem decoded_text_never_empty (kind : CallKind) (uuid : nat) (body : string) :
  isChatCall kind = true ->
  let aiMessage := parseAiMessage JSON_parse (fallbackFor kind) uuid body in
  truthy (m_text aiMessage) = true /\
  m_role aiMessage = model /\ m_id aiMessage = uuid.
Proof.
  intros Hk. cbv zeta. unfold parseAiMessage, tryParse.
  destruct (JSON_parse body) as [v|];
    [destruct v|]; cbn [m_text m_role m_id textMessage];
    repeat split;
    first [apply dialogue_or_ellipsis_truthy | now apply fallback_truthy].
Qed.

(** *** The persona store *)

Lemma characters_render (s : App) : characters (render s) = characters s.
Proof. unfold_effects. destruct s; cbn. case_matches; reflexivity. Qed.

(** X8: deleting a persona removes every record with that id and its
    conversation and leaves all other records and conversations as they
    were.  If it was the active persona, nothing is selected afterwards
    and no timer held by either ref is pending any more; otherwise the
    selection stays. *)
Theorem delete_character_contract (s : App) (id : string) :
  let d := step JSON_parse s (DeleteCharacter id) in
  characters d = List.filter (fun c => negb (String.eqb (c_id c) id)) (characters s) /\
  (forall c, In c (characters d) <-> In c (characters s) /\ c_id c <> id) /\
  chats d !! id = None /\
  (forall other, other <> id -> chats d !! other = chats s !! other) /\
  (activeCharacterId s = Some id ->
   activeCharacterId d = None /\
   forall t, In t (timers d) ->
     In t (timers s) /\
     inactivityTimerRef s <> Some (t_handle t) /\
     proactiveGreetingTimerRef s <> Some (t_handle t)) /\
  (activeCharacterId s <> Some id -> activeCharacterId d = activeCharacterId s).
Proof.
  intros d.
  assert (Hchars : characters d
            = List.filter (fun c => negb (String.eqb (c_id c) id)) (characters s)).
  { unfold d, step. rewrite characters_render. unfold dispatch, handleDeleteCharacter,
      setChats, setActiveCharacterId. destruct s; cbn. case_matches; reflexivity. }
  assert (Hchats : chats d = delete id (chats s)).
  { unfold d, step. rewrite chats_render. unfold dispatch, handleDeleteCharacter,
      setChats, setActiveCharacterId. destruct s; cbn. case_matches; reflexivity. }
  split; [exact Hchars|]. split; [|split; [|split; [|split]]].
  - intros c. rewrite Hchars, filter_In, negb_true_iff, String.eqb_neq. reflexivity.
  - rewrite Hchats. apply lookup_delete_eq.
  - intros other Ho. rewrite Hchats. now apply lookup_delete_ne.
  - intros Ha. unfold d, step, dispatch, handleDeleteCharacter, setChats,
      setActiveCharacterId. unfold_effects. destruct s; cbn in *. subst.
    case_matches; try congruence; (split; [reflexivity|]); intros t Hin;
      repeat match goal with
             | H : In _ (List.filter _ _) |- _ => apply filter_In in H as [H ?]
             end;
      repeat match goal with
             | H : negb (_ =? _)%positive = true |- _ =>
                 apply negb_true_iff, Pos.eqb_neq in H
             end;
      repeat split; try assumption; congruence.
  - intros Ha. unfold d, step. rewrite activeCharacterId_render.
    unfold dispatch, handleDeleteCharacter, setChats, setActiveCharacterId.
    destruct s; cbn in *. case_matches; congruence.
Qed.

End Scheduler.

Lemma ids_of_replaced (saved : Character) (cs : list Character) :
  List.map c_id
    (List.map (fun c => if String.eqb (c_id c) (c_id saved) then saved else c) cs)
  = List.map c_id cs.
Proof.
  induction cs as [|c rest IH]; cbn; [reflexivity|]. rewrite IH.
  destruct (String.eqb (c_id c) (c_id saved)) eqn:E; [|reflexivity].
  apply String.eqb_eq in E. now rewrite E.
Qed.

Lemma characterToSave_id (random : Q) (character : Character) :
  c_id (characterToSave random character) = c_id character.
Proof. unfold characterToSave. now destruct (purposeMissing _). Qed.

(** X9: saving a persona never changes the messages of any
    conversation, and afterwards the persona has a conversation entry.
    The order of the persona list is kept: an edit leaves the sequence of
    ids as it was, a new persona is appended at its end; records under
    other ids are not touched. *)
Theorem save_character_contract (random : Q) (character : Character) (s : App) :
  let d := handleSaveCharacter random character s in
  let id := c_id character in
  (forall other, historyOf other d = historyOf other s) /\
  chats d !! id <> None /\
  List.map c_id (characters d)
    = (if existsb (fun c => String.eqb (c_id c) id) (characters s)
       then List.map c_id (characters s)
       else List.map c_id (characters s) ++ [id]) /\
  (forall c, c_id c <> id -> (In c (characters d) <-> In c (characters s))).
Proof.
  intros d id. subst id.
  pose proof (characterToSave_id random character) as Hid.
  assert (Hchars : characters d =
            match List.find (fun c => String.eqb (c_id c) (c_id character)) (characters s) with
            | Some _ => List.map (fun c => if String.eqb (c_id c) (c_id character)
                                           then characterToSave random character
                                           else c) (characters s)
            | None => characters s ++ [characterToSave random character]
            end).
  { unfold d, handleSaveCharacter. rewrite Hid.
    destruct s; cbn. destruct (_ !! _); reflexivity. }
  assert (Hchats : chats d = match chats s !! c_id character with
                             | None => <[c_id character := []]> (chats s)
                             | Some _ => chats s
                             end).
  { unfold d, handleSaveCharacter, setChats. rewrite Hid.
    destruct s; cbn. destruct (_ !! _); reflexivity. }
  split; [|split; [|split]].
  - intros other. unfold historyOf. rewrite Hchats.
    destruct (chats s !! c_id character) eqn:E; [reflexivity|].
    destruct (decide (c_id character = other)) as [<-|Hne].
    + now rewrite lookup_insert_eq, E.
    + now rewrite lookup_insert_ne.
  - rewrite Hchats. destruct (chats s !! c_id character) eqn:E; [congruence|].
    now rewrite lookup_insert_eq.
  - rewrite Hchars.
    destruct (List.find _ (characters s)) as [c0|] eqn:Hf.
    + assert (He : existsb (fun c => String.eqb (c_id c) (c_id character)) (characters s) = true).
      { apply existsb_exists. exists c0. now apply find_some in Hf. }
      rewrite He. rewrite <- Hid. apply ids_of_replaced.
    + assert (He : existsb (fun c => String.eqb (c_id c) (c_id character)) (characters s) = false).
      { destruct (existsb _ _) eqn:E; [|reflexivity].
        apply existsb_exists in E as [x [Hx Hxe]].
        pose proof (find_none _ _ Hf x Hx) as Hno. cbn in Hno. congruence. }
      rewrite He, List.map_app. cbn. now rewrite Hid.
  - intros c Hc. rewrite Hchars.
    destruct (List.find _ (characters s)) as [c0|] eqn:Hf.
    + rewrite in_map_iff. split.
      * intros [x [Hx Hin]].
        destruct (String.eqb (c_id x) (c_id character)) eqn:E; [|now subst].
        subst c. congruence.
      * intros Hin. exists c. split; [|assumption].
        apply String.eqb_neq in Hc. now rewrite Hc.
    + rewrite in_app_iff. cbn. split; [|tauto].
      intros [Hin|[<-|[]]]; [assumption | congruence].
Qed.

(** X10: creating a persona and deleting it again is a round trip:
    when no persona and no conversation existed under its id, the persona
    list and the conversations are back to what they were. *)
Theorem create_then_delete_restores (random : Q) (character : Character) (s : App) :
  (forall c, In c (characters s) -> c_id c <> c_id character) ->
  chats s !! c_id character = None ->
  let d := handleDeleteCharacter (c_id character)
             (handleSaveCharacter random character s) in
  characters d = characters s /\ chats d = chats s /\
  activeCharacterId d = match activeCharacterId s with
                        | Some id => if decide (id = c_id character) then None
                                     else Some id
                        | None => None
                        end.
Proof.
  intros Hfresh Hnone d.
  pose proof (characterToSave_id random character) as Hid.
  assert (Hfind : List.find (fun c => String.eqb (c_id c) (c_id character))
                    (characters s) = None).
  { destruct (List.find _ _) as [c0|] eqn:Hf; [|reflexivity].
    apply find_some in Hf as [Hin He]. apply String.eqb_eq in He.
    now apply Hfresh in Hin. }
  assert (Hkeep : List.filter (fun c => negb (String.eqb (c_id c) (c_id character)))
                    (characters s) = characters s).
  { clear Hfind. induction (characters s) as [|c rest IH]; cbn; [reflexivity|].
    assert (Hc : String.eqb (c_id c) (c_id character) = false)
      by (apply String.eqb_neq, Hfresh; now left).
    rewrite Hc. cbn. f_equal. apply IH. intros x Hx. apply Hfresh. now right. }
  unfold d, handleDeleteCharacter, handleSaveCharacter, setChats,
    setActiveCharacterId. rewrite Hid.
  destruct s as [? active ? ? ? ? ? ? ? ? ? ? ? ? ? ? ? ? ? ? ?]; cbn in *.
  rewrite Hfind, Hnone. cbn.
  rewrite List.filter_app, Hkeep. cbn. rewrite Hid, String.eqb_refl. cbn.
  rewrite app_nil_r, delete_insert_eq, (delete_id _ _ Hnone).
  destruct active as [a|]; cbn.
  - destruct (decide (Some a = Some (c_id character))) as [E|E];
      destruct (decide (a = c_id character)) as [E'|E']; cbn;
      try congruence; repeat split.
  - repeat split.
Qed.

(** ** Voice selector: language preference and the keyword score *)

Lemma getCharacterVoice_candidate (voices : list Voice) (character : Character)
    (v : Voice) :
  getCharacterVoice voices character = Some v ->
  candidates voices character <> [] ->
  In v (candidates voices character).
Proof.
  intros Hv Hne.
  destruct voices as [|v0 rest]; [discriminate|].
  rewrite getCharacterVoice_unfold in Hv by discriminate.
  destruct (candidates (v0 :: rest) character) as [|c cs] eqn:Hc; [congruence|].
  cbn [isNil] in Hv. apply nth_error_In in Hv.
  now apply sortDesc_In in Hv.
Qed.

Lemma filter_existsb {A} (p : A -> bool) (l : list A) :
  isNil (List.filter p l) = negb (existsb p l).
Proof.
  induction l as [|x rest IH]; [reflexivity|].
  cbn. destruct (p x); [reflexivity | exact IH].
Qed.

(** The language of the voice selected. *)
Lemma selected_voice_language (voices : list Voice) (character : Character)
    (v : Voice) :
  getCharacterVoice voices character = Some v ->
  let tag := JS.splitHead "-" (JS.orElse (c_language character) "en-US") in
  (existsb (fun w => JS.startsWith (v_lang w) tag) voices = true ->
   JS.startsWith (v_lang v) tag = true) /\
  (existsb (fun w => JS.startsWith (v_lang w) tag) voices = false ->
   existsb (fun w => JS.startsWith (v_lang w) "en") voices = true ->
   JS.startsWith (v_lang v) "en" = true).
Proof.
  intros Hv tag.
  pose proof (getCharacterVoice_candidate voices character v Hv) as Hin.
  unfold candidates in Hin. fold tag in Hin.
  rewrite filter_existsb in Hin.
  split.
  - intros Hex. rewrite Hex in Hin. cbn in Hin.
    assert (Hne : List.filter (fun w => JS.startsWith (v_lang w) tag) voices <> []).
    { intros Hnil. apply (f_equal isNil) in Hnil.
      rewrite filter_existsb, Hex in Hnil. discriminate. }
    apply Hin in Hne. apply filter_In in Hne. tauto.
  - intros Hex Hen. rewrite Hex in Hin. cbn in Hin.
    assert (Hne : List.filter (fun w => JS.startsWith (v_lang w) "en") voices <> []).
    { intros Hnil. apply (f_equal isNil) in Hnil.
      rewrite filter_existsb, Hen in Hnil. discriminate. }
    apply Hin in Hne. apply filter_In in Hne. tauto.
Qed.


(** X11: the voice returned for a persona is of the persona's
    language (its primary subtag, [en-US] when the persona has none)
    whenever the browser offers such a voice; when it offers none but has
    an English voice, the voice returned is an English one. *)
Theorem voice_follows_language (voices : list Voice) (character : Character)
    (v : Voice) :
  getCharacterVoice voices character = Some v ->
  let tag := JS.splitHead "-" (JS.orElse (c_language character) "en-US") in
  (existsb (fun w => JS.startsWith (v_lang w) tag) voices = true ->
   JS.startsWith (v_lang v) tag = true) /\
  (existsb (fun w => JS.startsWith (v_lang w) tag) voices = false ->
   existsb (fun w => JS.startsWith (v_lang w) "en") voices = true ->
   JS.startsWith (v_lang v) "en" = true).
Proof. exact (selected_voice_language voices character v). Qed.

Lemma prefix_split (p s : string) :
  String.prefix p s = true -> exists post, s = p +:+ post.
Proof.
  revert s. induction p as [|c p IH]; intros s H.
  - exists s. reflexivity.
  - destruct s as [|d s]; [discriminate|]. cbn in H.
    destruct (ascii_dec c d) as [->|]; [|discriminate].
    destruct (IH s H) as [post ->]. exists post. reflexivity.
Qed.

Lemma prefix_app (p post : string) : String.prefix p (p +:+ post) = true.
Proof.
  induction p as [|c p IH].
  - now destruct post.
  - change (String.prefix (String c p) (String c (p +:+ post)) = true).
    cbn [String.prefix]. destruct (ascii_dec c c); [exact IH | congruence].
Qed.

Lemma includes_prefix (s sub : string) :
  String.prefix sub s = true -> JS.includes s sub = true.
Proof. destruct s; cbn [JS.includes]; intros ->; reflexivity. Qed.

(** [s.includes(sub)] holds exactly when [sub] occurs in [s]. *)
Lemma includes_spec (s sub : string) :
  JS.includes s sub = true <-> exists pre post, s = pre +:+ sub +:+ post.
Proof.
  split.
  - induction s as [|c s IH]; cbn [JS.includes]; intros H.
    + rewrite orb_false_r in H. destruct (prefix_split _ _ H) as [post ->].
      exists EmptyString, post. reflexivity.
    + apply orb_true_iff in H. destruct H as [H|H].
      * destruct (prefix_split _ _ H) as [post ->].
        exists EmptyString, post. reflexivity.
      * destruct (IH H) as (pre & post & ->).
        exists (String c pre), post. reflexivity.
  - intros (pre & post & ->). induction pre as [|c pre IH].
    + change (JS.includes (sub +:+ post) sub = true).
      apply includes_prefix. apply prefix_app.
    + change (String.prefix sub (String c (pre +:+ sub +:+ post))
              || JS.includes (pre +:+ sub +:+ post) sub = true).
      rewrite IH. apply orb_true_r.
Qed.

Lemma includes_female_male (s : string) :
  JS.includes s "female" = true -> JS.includes s "male" = true.
Proof.
  intros H. apply includes_spec in H. destruct H as (pre & post & ->).
  apply includes_spec. exists (pre +:+ "fe"), post.
  induction pre as [|c pre IH]; [reflexivity|].
  change (String c (pre +:+ "female" +:+ post)
          = String c ((pre +:+ "fe") +:+ "male" +:+ post)).
  now rewrite IH.
Qed.

(** X12: a voice whose name contains [female] also contains the
    keyword [male], so it matches both keyword lists: it scores the same
    for a male and for a female persona, 50 above its score for a neutral
    one. *)
Theorem female_named_voice_scores_alike (v : Voice) :
  JS.includes (JS.toLowerCase (v_name v)) "female" = true ->
  voiceScore male v = voiceScore female v /\
  voiceScore male v = (50 + voiceScore neutral v)%Z.
Proof.
  intros Hf. pose proof (includes_female_male _ Hf) as Hm.
  unfold voiceScore.
  assert (Hmale : JS.some (fun kw => JS.includes (JS.toLowerCase (v_name v)) kw)
                    maleKeywords = true).
  { apply existsb_exists. exists "male". split; [now left | exact Hm]. }
  assert (Hfemale : JS.some (fun kw => JS.includes (JS.toLowerCase (v_name v)) kw)
                      femaleKeywords = true).
  { apply existsb_exists. exists "female". split; [now left | exact Hf]. }
  cbv zeta. rewrite Hmale, Hfemale. split; lia.
Qed.

(** ** Reading a message aloud *)

Lemma getCharacterVoice_total (voices : list Voice) (character : Character) :
  voices <> [] ->
  exists v, getCharacterVoice voices character = Some v /\ In v voices.
Proof.
  intros Hne. rewrite getCharacterVoice_unfold by assumption.
  destruct (candidates voices character) as [|x xs] eqn:Hc; cbn [isNil].
  - destruct voices as [|v0 rest]; [congruence|]. exists v0. simpl. auto.
  - set (sorted := JS.sortDesc (voiceScore (c_gender character)) (x :: xs)).
    set (i := (JS.charCodeSum (c_id character) mod length (x :: xs))%nat).
    assert (Hi : (i < length sorted)%nat).
    { unfold sorted. rewrite sortDesc_length. apply Nat.mod_upper_bound. discriminate. }
    destruct (nth_error sorted i) as [v|] eqn:Hn.
    + exists v. split; [reflexivity|].
      apply candidates_incl with (character := character). rewrite Hc.
      apply sortDesc_In with (key := voiceScore (c_gender character)).
      eapply nth_error_In; exact Hn.
    + apply nth_error_None in Hn. lia.
Qed.

(** X13: the speaker button of a message.  With no voice loaded it
    only alerts and nothing is handed to the synthesizer.  On the message
    being read it cancels and clears the indicator.  On any other message
    it cancels what is being read and speaks one utterance with the
    message text, whose voice is always assigned: a voice of the loaded
    set, of the persona's language whenever one is loaded, and the
    utterance language is that voice's. *)
Theorem speech_toggle_contract (character : Character) (message : Message)
    (w : Speech.ChatWindow) :
  let w' := Speech.handleToggleSpeech character message w in
  let tag := JS.splitHead "-" (JS.orElse (c_language character) "en-US") in
  (Speech.voices w = [] ->
     Speech.synthesis w' = Speech.synthesis w /\
     Speech.speakingMessageId w' = Speech.speakingMessageId w /\
     Speech.alerts w' = Speech.alerts w ++ [Speech.voicesNotice]) /\
  (Speech.voices w <> [] ->
   Speech.speakingMessageId w = Some (m_id message) ->
     Speech.speakingMessageId w' = None /\
     Speech.synthesis w' = Speech.synthesis w ++ [Speech.cancel] /\
     Speech.alerts w' = Speech.alerts w) /\
  (Speech.voices w <> [] ->
   Speech.speakingMessageId w <> Some (m_id message) ->
     Speech.speakingMessageId w' = Some (m_id message) /\
     Speech.paused w' = false /\
     Speech.alerts w' = Speech.alerts w /\
     exists v u kick,
       Speech.synthesis w'
         = Speech.synthesis w ++ [Speech.cancel] ++ kick ++ [Speech.speak u] /\
       kick = (if Speech.paused w then [Speech.resume] else []) /\
       Speech.u_text u = m_text message /\
       Speech.u_voice u = Some v /\
       Speech.u_lang u = Some (v_lang v) /\
       In v (Speech.voices w) /\
       (existsb (fun x => JS.startsWith (v_lang x) tag) (Speech.voices w) = true ->
        JS.startsWith (v_lang v) tag = true)).
Proof.
  intros w' tag. unfold w', Speech.handleToggleSpeech.
  split; [|split].
  - intros ->. cbn. auto.
  - intros Hne Hs. destruct (Speech.voices w) as [|v0 rest]; [congruence|].
    cbn [isNil]. destruct (decide _) as [_|Hn]; [|congruence]. cbn. auto.
  - intros Hne Hs.
    destruct (getCharacterVoice_total _ character Hne) as (v & Hv & Hin).
    destruct (Speech.voices w) as [|v0 rest] eqn:Hvs; [congruence|].
    cbn [isNil]. destruct (decide _) as [Heq|_]; [congruence|].
    cbn [Speech.speakingMessageId Speech.paused Speech.alerts Speech.synthesis].
    repeat split.
    rewrite Hv. eexists v, _, _. split; [reflexivity|].
    cbn [Speech.u_text Speech.u_voice Speech.u_lang option_map].
    repeat split; try assumption.
    intros Hex. exact (proj1 (selected_voice_language _ _ _ Hv) Hex).
Qed.

(** ** Persona editor *)


Lemma orElse_nonEmpty (a b : string) : a <> "" -> JS.orElse a b = a.
Proof. destruct a; [congruence | reflexivity]. Qed.

Lemma nonEmpty_true (a : string) : JS.nonEmpty a = true <-> a <> "".
Proof. destruct a; cbn; split; congruence. Qed.


(** X14: every persona that leaves the editor and is stored has a
    name and a personality that are not blank, a non-empty id and a
    non-empty purpose.  An edit keeps the id of the persona edited; a new
    persona gets the fresh UUID. *)
Theorem editor_stores_valid_personas (random : Q) (character : option Character)
    (uuid : string) (f : CharacterModal.Form) (c : Character) :
  (0 <= random)%Q -> (random < 1)%Q -> uuid <> "" ->
  CharacterModal.handleSubmit character uuid f = inr c ->
  let stored := characterToSave random c in
  JS.trim (c_name stored) <> "" /\
  JS.trim (c_personality stored) <> "" /\
  c_id stored <> "" /\
  (exists p, c_purpose stored = Some p /\ p <> "") /\
  (forall edited, character = Some edited -> c_id edited <> "" ->
     c_id stored = c_id edited) /\
  (character = None -> c_id stored = uuid).
Proof.
  intros Hlo Hhi Huuid Hsub stored.
  unfold CharacterModal.handleSubmit in Hsub.
  destruct (JS.nonEmpty (JS.trim (CharacterModal.name f))) eqn:Hn; [|discriminate].
  destruct (JS.nonEmpty (JS.trim (CharacterModal.personality f))) eqn:Hp; [|discriminate].
  cbn in Hsub. injection Hsub as <-.
  apply nonEmpty_true in Hn, Hp.
  unfold stored, characterToSave.
  match goal with |- context [purposeMissing ?x] => destruct (purposeMissing x) eqn:Hm end;
    cbn [withPurpose c_name c_personality c_id c_purpose].
  - repeat split; try assumption.
    + destruct character as [e|]; [|assumption].
      unfold JS.orElse. destruct (c_id e); cbn; [assumption | discriminate].
    + destruct (randomPurpose_in_pool random Hlo Hhi) as (p & Hp1 & Hp2 & _).
      exists p. split; assumption.
    + intros e -> He. now apply orElse_nonEmpty.
    + now intros ->.
  - repeat split; try assumption.
    + destruct character as [e|]; [|assumption].
      unfold JS.orElse. destruct (c_id e); cbn; [assumption | discriminate].
    + exists (CharacterModal.purpose f). split; [reflexivity|].
      cbn in Hm. intros He. rewrite He in Hm. discriminate.
    + intros e -> He. now apply orElse_nonEmpty.
    + now intros ->.
Qed.


(** ** Quiz that builds a persona *)

Lemma assign_In (key : nat) (value : string) (o : DynamicQuizModal.Answers)
    (k : nat) (a : string) :
  In (k, a) (DynamicQuizModal.assign key value o) ->
  (k = key /\ a = value) \/ In (k, a) o.
Proof.
  induction o as [|[k0 v0] rest IH]; cbn [DynamicQuizModal.assign DynamicQuizModal.get List.map fst In].
  - intros [H|[]]. left. now inversion H.
  - destruct (key <? k0)%nat; [|destruct (key =? k0)%nat]; cbn [In].
    + intros [H|H]; [left; now inversion H | right; exact H].
    + intros [H|H]; [left; now inversion H | right; right; exact H].
    + intros [H|H]; [right; left; exact H|].
      destruct (IH H) as [?|?]; [left; assumption | right; right; assumption].
Qed.

Lemma assign_keys (key : nat) (value : string) (o : DynamicQuizModal.Answers)
    (j : nat) :
  In j (List.map fst (DynamicQuizModal.assign key value o)) ->
  j = key \/ In j (List.map fst o).
Proof.
  intros H. apply in_map_iff in H as [[k a] [<- Hin]].
  destruct (assign_In _ _ _ _ _ Hin) as [[-> _]|Hold]; [now left|].
  right. apply in_map_iff. exists (k, a). auto.
Qed.

Lemma assign_ascending (key : nat) (value : string) (o : DynamicQuizModal.Answers) :
  DynamicQuizModal.ascending (List.map fst o) ->
  DynamicQuizModal.ascending (List.map fst (DynamicQuizModal.assign key value o)).
Proof.
  induction o as [|[k0 v0] rest IH]; cbn [DynamicQuizModal.assign DynamicQuizModal.get List.map fst In].
  - intros _. split; [intros j []|exact I].
  - intros [Hlt Hrest].
    destruct (key <? k0)%nat eqn:E1; [|destruct (key =? k0)%nat eqn:E2]; cbn [List.map fst DynamicQuizModal.ascending].
    + apply Nat.ltb_lt in E1. split; [|split; assumption].
      intros j [<-|Hj]; [assumption|]. specialize (Hlt j Hj). lia.
    + apply Nat.eqb_eq in E2. subst k0. split; assumption.
    + apply Nat.ltb_ge in E1. apply Nat.eqb_neq in E2. split; [|now apply IH].
      intros j Hj. destruct (assign_keys _ _ _ _ Hj) as [->|Hold]; [lia|].
      now apply Hlt.
Qed.

Lemma get_assign_ne (key : nat) (value : string) (o : DynamicQuizModal.Answers)
    (k : nat) :
  k <> key ->
  DynamicQuizModal.get k (DynamicQuizModal.assign key value o)
    = DynamicQuizModal.get k o.
Proof.
  intros Hne. induction o as [|[k0 v0] rest IH]; cbn [DynamicQuizModal.assign DynamicQuizModal.get List.map fst In].
  - destruct (Nat.eqb_spec k key); [congruence | reflexivity].
  - destruct (key <? k0)%nat; [|destruct (Nat.eqb_spec key k0)]; cbn [DynamicQuizModal.get].
    + destruct (Nat.eqb_spec k key); [congruence | reflexivity].
    + subst k0. destruct (Nat.eqb_spec k key); [congruence | reflexivity].
    + now rewrite IH.
Qed.

Lemma get_assign_eq (key : nat) (value : string) (o : DynamicQuizModal.Answers) :
  DynamicQuizModal.get key (DynamicQuizModal.assign key value o) = Some value.
Proof.
  induction o as [|[k0 v0] rest IH]; cbn [DynamicQuizModal.assign DynamicQuizModal.get List.map fst In].
  - now rewrite Nat.eqb_refl.
  - destruct (key <? k0)%nat eqn:E1; [|destruct (Nat.eqb_spec key k0)]; cbn [DynamicQuizModal.get].
    + now rewrite Nat.eqb_refl.
    + now rewrite Nat.eqb_refl.
    + destruct (Nat.eqb_spec key k0); [congruence | exact IH].
Qed.

Lemma get_In (k : nat) (o : DynamicQuizModal.Answers) (a : string) :
  DynamicQuizModal.get k o = Some a -> In (k, a) o.
Proof.
  induction o as [|[k0 v0] rest IH]; cbn; [discriminate|].
  destruct (Nat.eqb_spec k k0).
  - intros H. injection H as ->. subst. now left.
  - intros H. right. now apply IH.
Qed.

Lemma In_get (k : nat) (o : DynamicQuizModal.Answers) (a : string) :
  DynamicQuizModal.ascending (List.map fst o) ->
  In (k, a) o -> DynamicQuizModal.get k o = Some a.
Proof.
  induction o as [|[k0 v0] rest IH]; cbn; [tauto|].
  intros [Hlt Hrest] [H|H].
  - inversion H. subst. now rewrite Nat.eqb_refl.
  - destruct (Nat.eqb_spec k k0) as [->|Hne]; [|now apply IH].
    assert (k0 < k0); [|lia].
    apply Hlt. apply in_map_iff. exists (k0, a). auto.
Qed.

(** Ascending keys that are exactly the numbers from [a] up to
    [a + n - 1] are that sequence. *)
Lemma ascending_seq (n : nat) : forall (a : nat) (keys : list nat),
  DynamicQuizModal.ascending keys ->
  (forall k, In k keys <-> a <= k < a + n) ->
  keys = seq a n.
Proof.
  induction n as [|n IH]; intros a keys Hasc Hkeys.
  - destruct keys as [|x rest]; [reflexivity|].
    assert (a <= x < a + 0) by (apply Hkeys; now left). lia.
  - destruct keys as [|x rest].
    + assert (In a []) by (apply Hkeys; lia). contradiction.
    + destruct Hasc as [Hlt Hrest].
      assert (Hx : a <= x < a + S n) by (apply Hkeys; now left).
      assert (Ha : In a (x :: rest)) by (apply Hkeys; lia).
      assert (x = a) as ->.
      { destruct Ha as [->|Ha]; [reflexivity|]. specialize (Hlt a Ha). lia. }
      cbn. f_equal. apply IH; [assumption|].
      intros k. split.
      * intros Hk. specialize (Hlt k Hk).
        assert (a <= k < a + S n) by (apply Hkeys; now right). lia.
      * intros Hk. assert (Hin : In k (a :: rest)) by (apply Hkeys; lia).
        destruct Hin as [->|Hin]; [lia | exact Hin].
Qed.

Lemma formattedAnswers_seq (qs : list DynamicQuizModal.QuizQuestion) :
  forall (entries : DynamicQuizModal.Answers) (a : nat)
         (tail : list DynamicQuizModal.QuizQuestion),
  List.map fst entries = seq a (length tail) ->
  (forall i, nth_error tail i = nth_error qs (a + i)) ->
  (forall k v, In (k, v) entries ->
     exists q, nth_error qs k = Some q /\
               In v (DynamicQuizModal.q_answers q) /\ v <> "") ->
  exists formatted,
    DynamicQuizModal.formattedAnswers qs entries = Some formatted /\
    List.map fst formatted = List.map DynamicQuizModal.q_question tail /\
    Forall2 (fun q qa => In (snd qa) (DynamicQuizModal.q_answers q) /\ snd qa <> "")
      tail formatted.
Proof.
  induction entries as [|[k v] rest IH]; intros a tail Hkeys Htail Hent.
  - destruct tail; [|discriminate]. exists []. cbn. auto using Forall2_nil.
  - destruct tail as [|t tail']; [discriminate|].
    cbn in Hkeys. injection Hkeys as -> Hrest.
    destruct (Hent a v (or_introl eq_refl)) as (q & Hq & Hin & Hne).
    pose proof (Htail 0) as H0. rewrite Nat.add_0_r in H0. cbn in H0.
    assert (q = t) as -> by congruence.
    destruct (IH (S a) tail' Hrest) as (more & Hmore & Hmap & Hall).
    + intros i. pose proof (Htail (S i)) as Hi. cbn [nth_error] in Hi.
      rewrite Hi. f_equal. lia.
    + intros k' v' Hin'. apply Hent. now right.
    + exists ((DynamicQuizModal.q_question t, v) :: more).
      cbn. rewrite Hq, Hmore. split; [reflexivity|]. split.
      * now rewrite Hmap.
      * constructor; [split; assumption | exact Hall].
Qed.

(** With every question answered the request is built, and complete. *)
Lemma request_complete (m : DynamicQuizModal.Modal) :
  DynamicQuizModal.Consistent m ->
  DynamicQuizModal.view m = DynamicQuizModal.quizView ->
  DynamicQuizModal.isLastQuestion m = true ->
  DynamicQuizModal.chosen (DynamicQuizModal.selectedAnswer m) = true ->
  exists formatted,
    DynamicQuizModal.formattedAnswers
      (DynamicQuizModal.questions m) (DynamicQuizModal.answers m) = Some formatted /\
    DynamicQuizModal.complete m (DynamicQuizModal.concept m, formatted).
Proof.
  intros [Hasc Hopt Hbefore Hrange _ _ _] Hview Hlast Hsel.
  specialize (Hrange (or_introl Hview)).
  unfold DynamicQuizModal.isLastQuestion in Hlast. apply Z.eqb_eq in Hlast.
  unfold DynamicQuizModal.selectedAnswer in Hsel.
  set (n := length (DynamicQuizModal.questions m)) in *.
  assert (Hall : forall k, k < n ->
            DynamicQuizModal.chosen
              (DynamicQuizModal.get k (DynamicQuizModal.answers m)) = true).
  { intros k Hk.
    destruct (Nat.eq_dec k (DynamicQuizModal.currentQuestionIndex m)) as [->|Hne];
      [exact Hsel|].
    apply Hbefore. lia. }
  assert (Hkeys : List.map fst (DynamicQuizModal.answers m) = seq 0 n).
  { apply ascending_seq; [exact Hasc|]. intros k. split.
    - intros Hk. apply in_map_iff in Hk as [[k' a] [<- Hin]].
      destruct (Hopt _ _ Hin) as (q & Hq & _).
      assert (k' < n) by (apply nth_error_Some; congruence). cbn. lia.
    - intros [_ Hk]. specialize (Hall k Hk).
      destruct (DynamicQuizModal.get k (DynamicQuizModal.answers m)) as [a|] eqn:Hg;
        [|discriminate].
      apply get_In in Hg. apply in_map_iff. exists (k, a). auto. }
  destruct (formattedAnswers_seq (DynamicQuizModal.questions m)
              (DynamicQuizModal.answers m) 0 (DynamicQuizModal.questions m))
    as (formatted & Hf & Hmap & Hforall).
  - exact Hkeys.
  - reflexivity.
  - intros k v Hin. destruct (Hopt _ _ Hin) as (q & Hq & Hq').
    exists q. split; [exact Hq|]. split; [exact Hq'|].
    assert (Hk : k < n) by (apply nth_error_Some; congruence).
    specialize (Hall k Hk). rewrite (In_get _ _ _ Hasc Hin) in Hall.
    cbn in Hall. intros ->. discriminate.
  - exists formatted. split; [exact Hf|]. split; [reflexivity|]. split; assumption.
Qed.

Ltac quiz_open Hc m :=
  destruct Hc as [Hasc Hopt Hbefore Hrange Hreq Hpre Hspin];
  destruct m as [vw lt cn qs ans idx err aw cl qr cr];
  unfold DynamicQuizModal.complete in *; cbn in *.

Ltac quiz_done :=
  try solve
    [ assumption | exact I | reflexivity | discriminate
    | intros; lia
    | intros [?|?]; discriminate
    | intros ? []
    | intros ? ? []
    | intros _; split; [discriminate | congruence] ].

Ltac quiz_build :=
  constructor; unfold DynamicQuizModal.complete; cbn; quiz_done.

Lemma consistent_setConcept (text : string) (m : DynamicQuizModal.Modal) :
  DynamicQuizModal.Consistent m ->
  DynamicQuizModal.view m = DynamicQuizModal.conceptView ->
  DynamicQuizModal.Consistent (DynamicQuizModal.setConcept text m).
Proof.
  intros Hc Hview. quiz_open Hc m. subst vw.
  rewrite Hpre in * by now left. quiz_build.
Qed.

Lemma consistent_handleConceptSubmit (m : DynamicQuizModal.Modal) :
  DynamicQuizModal.Consistent m ->
  DynamicQuizModal.view m = DynamicQuizModal.conceptView ->
  DynamicQuizModal.Consistent (DynamicQuizModal.handleConceptSubmit m).
Proof.
  intros Hc Hview. unfold DynamicQuizModal.handleConceptSubmit.
  destruct (negb _); quiz_open Hc m; subst vw;
    rewrite Hpre in * by (now left); quiz_build.
Qed.

Lemma consistent_questionsSettled
    (outcome : DynamicQuizModal.Settled (option (list DynamicQuizModal.QuizQuestion)))
    (m : DynamicQuizModal.Modal) :
  DynamicQuizModal.Consistent m ->
  DynamicQuizModal.awaited m = Some DynamicQuizModal.questionsPromise ->
  DynamicQuizModal.Consistent (DynamicQuizModal.questionsSettled outcome m).
Proof.
  intros Hc Haw.
  assert (Hnone : DynamicQuizModal.characterRequests m = []).
  { apply (DynamicQuizModal.before_quiz m Hc). now right. }
  assert (Hfail : forall message,
            DynamicQuizModal.Consistent (DynamicQuizModal.questionsFailed message m)).
  { intros message. quiz_open Hc m. subst aw cr. quiz_build. }
  unfold DynamicQuizModal.questionsSettled.
  destruct outcome as [[[|q rest]|]|[message|]]; try apply Hfail.
  quiz_open Hc m. subst aw cr. quiz_build.
Qed.

Lemma consistent_handleAnswerSelect (answer : string) (q : DynamicQuizModal.QuizQuestion)
    (m : DynamicQuizModal.Modal) :
  DynamicQuizModal.Consistent m ->
  DynamicQuizModal.currentQuestion m = Some q ->
  In answer (DynamicQuizModal.q_answers q) ->
  DynamicQuizModal.Consistent (DynamicQuizModal.handleAnswerSelect answer m).
Proof.
  intros Hc Hq Hin. unfold DynamicQuizModal.currentQuestion in Hq.
  quiz_open Hc m.
  constructor; unfold DynamicQuizModal.complete; cbn; try assumption.
  - now apply assign_ascending.
  - intros k a Hka. destruct (assign_In _ _ _ _ _ Hka) as [[-> ->]|Hold].
    + exists q. split; assumption.
    + now apply Hopt.
  - intros k Hk. rewrite get_assign_ne by lia. now apply Hbefore.
Qed.

Lemma consistent_setCurrentQuestionIndex (f : nat -> nat) (m : DynamicQuizModal.Modal) :
  DynamicQuizModal.Consistent m ->
  f (DynamicQuizModal.currentQuestionIndex m) < length (DynamicQuizModal.questions m) ->
  (forall k, k < f (DynamicQuizModal.currentQuestionIndex m) ->
     DynamicQuizModal.chosen
       (DynamicQuizModal.get k (DynamicQuizModal.answers m)) = true) ->
  DynamicQuizModal.Consistent (DynamicQuizModal.setCurrentQuestionIndex f m).
Proof.
  intros Hc Hlt Hans. quiz_open Hc m.
  constructor; unfold DynamicQuizModal.complete; cbn; try assumption.
  intros _. exact Hlt.
Qed.

Lemma consistent_handleNext (m : DynamicQuizModal.Modal) :
  DynamicQuizModal.Consistent m ->
  DynamicQuizModal.chosen (DynamicQuizModal.selectedAnswer m) = true ->
  DynamicQuizModal.Consistent (DynamicQuizModal.handleNext m).
Proof.
  intros Hc Hsel. unfold DynamicQuizModal.handleNext.
  destruct (Z.ltb_spec (Z.of_nat (DynamicQuizModal.currentQuestionIndex m))
              (Z.of_nat (length (DynamicQuizModal.questions m)) - 1)) as [Hlt|_];
    [|exact Hc].
  apply consistent_setCurrentQuestionIndex; [exact Hc | lia |].
  intros k Hk.
  destruct (Nat.eq_dec k (DynamicQuizModal.currentQuestionIndex m)) as [->|Hne];
    [exact Hsel|].
  apply (DynamicQuizModal.answered_before m Hc). lia.
Qed.

Lemma consistent_handleBack (m : DynamicQuizModal.Modal) :
  DynamicQuizModal.Consistent m ->
  DynamicQuizModal.view m = DynamicQuizModal.quizView ->
  DynamicQuizModal.Consistent (DynamicQuizModal.handleBack m).
Proof.
  intros Hc Hview. unfold DynamicQuizModal.handleBack.
  destruct (Nat.ltb_spec 0 (DynamicQuizModal.currentQuestionIndex m)) as [Hlt|_];
    [|exact Hc].
  pose proof (DynamicQuizModal.in_range m Hc (or_introl Hview)) as Hr.
  apply consistent_setCurrentQuestionIndex; [exact Hc | lia |].
  intros k Hk. apply (DynamicQuizModal.answered_before m Hc). lia.
Qed.

Lemma consistent_characterFailed (message : string) (m : DynamicQuizModal.Modal) :
  DynamicQuizModal.Consistent m ->
  DynamicQuizModal.view m = DynamicQuizModal.quizView
  \/ DynamicQuizModal.awaited m = Some DynamicQuizModal.characterPromise ->
  DynamicQuizModal.closed m = false ->
  DynamicQuizModal.Consistent (DynamicQuizModal.characterFailed message m).
Proof.
  intros Hc Hphase Hcl.
  pose proof (DynamicQuizModal.in_range m Hc Hphase) as Hr.
  quiz_open Hc m. subst cl.
  constructor; unfold DynamicQuizModal.complete; cbn; try assumption.
  - intros _. exact Hr.
  - intros [H|H]; discriminate.
  - intros _. split; [discriminate | congruence].
Qed.

Lemma consistent_handleGenerateCharacter (typeError : string)
    (m : DynamicQuizModal.Modal) :
  DynamicQuizModal.Consistent m ->
  DynamicQuizModal.closed m = false ->
  DynamicQuizModal.view m = DynamicQuizModal.quizView ->
  DynamicQuizModal.isLastQuestion m = true ->
  DynamicQuizModal.chosen (DynamicQuizModal.selectedAnswer m) = true ->
  DynamicQuizModal.Consistent (DynamicQuizModal.handleGenerateCharacter typeError m).
Proof.
  intros Hc Hcl Hview Hlast Hsel.
  destruct (request_complete m Hc Hview Hlast Hsel) as (formatted & Hf & Hcomplete).
  unfold DynamicQuizModal.handleGenerateCharacter. rewrite Hf.
  pose proof (DynamicQuizModal.in_range m Hc (or_introl Hview)) as Hr.
  quiz_open Hc m. subst vw cl.
  constructor; unfold DynamicQuizModal.complete; cbn; try assumption.
  - intros _. exact Hr.
  - intros r Hin. apply in_app_or in Hin as [Hin|[<-|[]]]; [now apply Hreq|].
    exact Hcomplete.
  - intros [H|H]; discriminate.
  - intros _. split; [discriminate | reflexivity].
Qed.

Lemma consistent_close (m : DynamicQuizModal.Modal) :
  DynamicQuizModal.Consistent m ->
  DynamicQuizModal.Consistent (DynamicQuizModal.close m).
Proof.
  intros Hc. quiz_open Hc m.
  constructor; unfold DynamicQuizModal.complete; cbn; try assumption.
  discriminate.
Qed.

Lemma consistent_characterSettled (outcome : DynamicQuizModal.Settled unit)
    (m : DynamicQuizModal.Modal) :
  DynamicQuizModal.Consistent m ->
  DynamicQuizModal.closed m = false ->
  DynamicQuizModal.awaited m = Some DynamicQuizModal.characterPromise ->
  DynamicQuizModal.Consistent (DynamicQuizModal.characterSettled outcome m).
Proof.
  intros Hc Hcl Haw. unfold DynamicQuizModal.characterSettled.
  destruct outcome as [[]|[message|]].
  - now apply consistent_close.
  - apply consistent_characterFailed; auto.
  - apply consistent_characterFailed; auto.
Qed.

Lemma consistent_dispatch (typeError : string) (m : DynamicQuizModal.Modal)
    (e : DynamicQuizModal.Event) :
  DynamicQuizModal.Consistent m ->
  DynamicQuizModal.Consistent (DynamicQuizModal.dispatch typeError m e).
Proof.
  intros Hc. unfold DynamicQuizModal.dispatch.
  destruct (DynamicQuizModal.closed m) eqn:Hcl; [exact Hc|].
  destruct e.
  - destruct (DynamicQuizModal.view m) eqn:Hv; try exact Hc.
    now apply consistent_setConcept.
  - destruct (DynamicQuizModal.view m) eqn:Hv; try exact Hc.
    destruct (JS.nonEmpty _); [|exact Hc].
    now apply consistent_handleConceptSubmit.
  - destruct (DynamicQuizModal.awaited m) as [[|]|] eqn:Haw; try exact Hc.
    now apply consistent_questionsSettled.
  - destruct (DynamicQuizModal.view m) eqn:Hv; try exact Hc.
    destruct (DynamicQuizModal.currentQuestion m) as [q|] eqn:Hq; [|exact Hc].
    destruct (nth_error (DynamicQuizModal.q_answers q) n) as [answer|] eqn:Hn;
      [|exact Hc].
    apply consistent_handleAnswerSelect with (q := q); try assumption.
    eapply nth_error_In; exact Hn.
  - destruct (DynamicQuizModal.view m) eqn:Hv; try exact Hc.
    destruct (DynamicQuizModal.currentQuestion m) as [q|] eqn:Hq; [|exact Hc].
    destruct (negb _) eqn:Hl; [|exact Hc]. cbn [andb].
    destruct (DynamicQuizModal.chosen _) eqn:Hs; [|exact Hc].
    now apply consistent_handleNext.
  - destruct (DynamicQuizModal.view m) eqn:Hv; try exact Hc.
    destruct (DynamicQuizModal.currentQuestion m) as [q|] eqn:Hq; [|exact Hc].
    destruct (_ =? _)%nat; [exact Hc|].
    now apply consistent_handleBack.
  - destruct (DynamicQuizModal.view m) eqn:Hv; try exact Hc.
    destruct (DynamicQuizModal.currentQuestion m) as [q|] eqn:Hq; [|exact Hc].
    destruct (DynamicQuizModal.isLastQuestion m) eqn:Hl; [|exact Hc]. cbn [andb].
    destruct (DynamicQuizModal.chosen _) eqn:Hs; [|exact Hc].
    now apply consistent_handleGenerateCharacter.
  - destruct (DynamicQuizModal.awaited m) as [[|]|] eqn:Haw; try exact Hc.
    now apply consistent_characterSettled.
  - now apply consistent_close.
Qed.

Lemma consistent_opened : DynamicQuizModal.Consistent DynamicQuizModal.opened.
Proof.
  quiz_build.
Qed.

Lemma consistent_run (typeError : string) (events : list DynamicQuizModal.Event) :
  forall m, DynamicQuizModal.Consistent m ->
  DynamicQuizModal.Consistent (DynamicQuizModal.run typeError m events).
Proof.
  induction events as [|e rest IH]; intros m Hc; [exact Hc|].
  apply IH. now apply consistent_dispatch.
Qed.

(** X16: every request the quiz makes for a persona is complete.  It
    carries the concept typed, and one entry per generated question, in
    the order of the questions: the question's text with an answer that
    is one of the options of that question and is not empty. *)
Theorem quiz_request_answers_every_question (typeError : string)
    (events : list DynamicQuizModal.Event) (request : string * list (string * string)) :
  let m := DynamicQuizModal.run typeError DynamicQuizModal.opened events in
  In request (DynamicQuizModal.characterRequests m) ->
  fst request = DynamicQuizModal.concept m /\
  List.map fst (snd request)
    = List.map DynamicQuizModal.q_question (DynamicQuizModal.questions m) /\
  Forall2 (fun q qa => In (snd qa) (DynamicQuizModal.q_answers q) /\ snd qa <> "")
    (DynamicQuizModal.questions m) (snd request).
Proof.
  intros m Hin.
  exact (DynamicQuizModal.requests_complete m
           (consistent_run typeError events _ consistent_opened) request Hin).
Qed.

Lemma formattedAnswers_defined (qs : list DynamicQuizModal.QuizQuestion)
    (entries : DynamicQuizModal.Answers) :
  (forall k a, In (k, a) entries -> exists q, nth_error qs k = Some q) ->
  DynamicQuizModal.formattedAnswers qs entries <> None.
Proof.
  induction entries as [|[k a] rest IH]; intros H; cbn; [discriminate|].
  destruct (H k a (or_introl eq_refl)) as [q ->].
  destruct (DynamicQuizModal.formattedAnswers qs rest) eqn:E; [discriminate|].
  exfalso. apply IH; [|reflexivity]. intros k' a' Hin. apply (H k' a'). now right.
Qed.

(** X17: whatever has happened to the quiz, the spinner shows exactly
    while a request is awaited; the quiz view always has a question to
    display, and every question before it has a non-empty answer; every
    recorded answer belongs to an existing question, so building the
    request never reads a missing question; and no persona is requested
    while the concept is still being edited. *)
Theorem quiz_views_consistent (typeError : string)
    (events : list DynamicQuizModal.Event) :
  let m := DynamicQuizModal.run typeError DynamicQuizModal.opened events in
  (DynamicQuizModal.closed m = false ->
     (DynamicQuizModal.view m = DynamicQuizModal.loadingView
      <-> DynamicQuizModal.awaited m <> None)) /\
  (DynamicQuizModal.view m = DynamicQuizModal.quizView ->
     exists q, DynamicQuizModal.currentQuestion m = Some q) /\
  (forall k, k < DynamicQuizModal.currentQuestionIndex m ->
     DynamicQuizModal.chosen
       (DynamicQuizModal.get k (DynamicQuizModal.answers m)) = true) /\
  DynamicQuizModal.formattedAnswers
    (DynamicQuizModal.questions m) (DynamicQuizModal.answers m) <> None /\
  (DynamicQuizModal.view m = DynamicQuizModal.conceptView ->
     DynamicQuizModal.characterRequests m = []).
Proof.
  intros m.
  pose proof (consistent_run typeError events _ consistent_opened) as Hc.
  fold m in Hc. destruct Hc as [Hasc Hopt Hbefore Hrange Hreq Hpre Hspin].
  split; [exact Hspin|]. split; [|split; [exact Hbefore|split]].
  - intros Hview. specialize (Hrange (or_introl Hview)).
    unfold DynamicQuizModal.currentQuestion.
    destruct (nth_error _ _) as [q|] eqn:Hq; [now exists q|].
    apply nth_error_None in Hq. lia.
  - apply formattedAnswers_defined. intros k a Hin.
    destruct (Hopt k a Hin) as (q & Hq & _). now exists q.
  - intros Hview. apply Hpre. now left.
Qed.

(** X18: in the quiz view Back and Next undo each other.  From any
    question but the first, Back followed by Next returns to the same
    state (Next is enabled there, because the earlier question is
    answered); and where Next is enabled, Next followed by Back returns
    to the same state. *)
Theorem quiz_back_and_next_are_inverse (typeError : string)
    (events : list DynamicQuizModal.Event) :
  let m := DynamicQuizModal.run typeError DynamicQuizModal.opened events in
  DynamicQuizModal.closed m = false ->
  DynamicQuizModal.view m = DynamicQuizModal.quizView ->
  (DynamicQuizModal.currentQuestionIndex m <> 0 ->
     DynamicQuizModal.dispatch typeError
       (DynamicQuizModal.dispatch typeError m DynamicQuizModal.ClickBack)
       DynamicQuizModal.ClickNext = m) /\
  (DynamicQuizModal.isLastQuestion m = false ->
   DynamicQuizModal.chosen (DynamicQuizModal.selectedAnswer m) = true ->
     DynamicQuizModal.dispatch typeError
       (DynamicQuizModal.dispatch typeError m DynamicQuizModal.ClickNext)
       DynamicQuizModal.ClickBack = m).
Proof.
  intros m.
  pose proof (consistent_run typeError events _ consistent_opened) as Hc.
  fold m in Hc. clearbody m. intros Hcl Hview.
  pose proof (DynamicQuizModal.in_range m Hc (or_introl Hview)) as Hr.
  pose proof (DynamicQuizModal.answered_before m Hc) as Hbefore.
  assert (Hnth : forall i, i < length (DynamicQuizModal.questions m) ->
            exists q, nth_error (DynamicQuizModal.questions m) i = Some q).
  { intros i Hi. destruct (nth_error _ i) as [q|] eqn:Hq; [now exists q|].
    apply nth_error_None in Hq. lia. }
  split.
  - intros Hidx.
    destruct (Hnth _ Hr) as [q Hq].
    assert (Hback : DynamicQuizModal.dispatch typeError m DynamicQuizModal.ClickBack
                    = DynamicQuizModal.setCurrentQuestionIndex (fun prev => prev - 1) m).
    { unfold DynamicQuizModal.dispatch, DynamicQuizModal.currentQuestion.
      rewrite Hcl, Hview, Hq.
      destruct (Nat.eqb_spec (DynamicQuizModal.currentQuestionIndex m) 0);
        [contradiction|].
      unfold DynamicQuizModal.handleBack.
      destruct (Nat.ltb_spec 0 (DynamicQuizModal.currentQuestionIndex m));
        [reflexivity | lia]. }
    rewrite Hback.
    set (m' := DynamicQuizModal.setCurrentQuestionIndex (fun prev => prev - 1) m).
    destruct (Hnth (DynamicQuizModal.currentQuestionIndex m - 1)) as [q' Hq']; [lia|].
    unfold DynamicQuizModal.dispatch, DynamicQuizModal.currentQuestion,
      DynamicQuizModal.isLastQuestion, DynamicQuizModal.selectedAnswer,
      DynamicQuizModal.handleNext.
    change (DynamicQuizModal.closed m') with (DynamicQuizModal.closed m).
    change (DynamicQuizModal.view m') with (DynamicQuizModal.view m).
    change (DynamicQuizModal.questions m') with (DynamicQuizModal.questions m).
    change (DynamicQuizModal.answers m') with (DynamicQuizModal.answers m).
    change (DynamicQuizModal.currentQuestionIndex m')
      with (DynamicQuizModal.currentQuestionIndex m - 1).
    rewrite Hcl, Hview, Hq'.
    rewrite (Hbefore (DynamicQuizModal.currentQuestionIndex m - 1)) by lia.
    destruct (Z.eqb_spec (Z.of_nat (DynamicQuizModal.currentQuestionIndex m - 1))
                (Z.of_nat (length (DynamicQuizModal.questions m)) - 1)) as [|_];
      [lia|].
    cbn [negb andb].
    destruct (Z.ltb_spec (Z.of_nat (DynamicQuizModal.currentQuestionIndex m - 1))
                (Z.of_nat (length (DynamicQuizModal.questions m)) - 1)) as [_|];
      [|lia].
    unfold m', DynamicQuizModal.setCurrentQuestionIndex. destruct m. cbn in *.
    f_equal. lia.
  - intros Hlast Hsel.
    destruct (Hnth _ Hr) as [q Hq].
    assert (Hnext : DynamicQuizModal.dispatch typeError m DynamicQuizModal.ClickNext
                    = DynamicQuizModal.setCurrentQuestionIndex (fun prev => prev + 1) m).
    { unfold DynamicQuizModal.dispatch, DynamicQuizModal.currentQuestion.
      rewrite Hcl, Hview, Hq, Hlast, Hsel. cbn [negb andb].
      unfold DynamicQuizModal.handleNext.
      unfold DynamicQuizModal.isLastQuestion in Hlast. apply Z.eqb_neq in Hlast.
      destruct (Z.ltb_spec (Z.of_nat (DynamicQuizModal.currentQuestionIndex m))
                  (Z.of_nat (length (DynamicQuizModal.questions m)) - 1));
        [reflexivity | lia]. }
    rewrite Hnext.
    set (m' := DynamicQuizModal.setCurrentQuestionIndex (fun prev => prev + 1) m).
    unfold DynamicQuizModal.isLastQuestion in Hlast. apply Z.eqb_neq in Hlast.
    destruct (Hnth (DynamicQuizModal.currentQuestionIndex m + 1)) as [q' Hq']; [lia|].
    unfold DynamicQuizModal.dispatch, DynamicQuizModal.currentQuestion,
      DynamicQuizModal.handleBack.
    change (DynamicQuizModal.closed m') with (DynamicQuizModal.closed m).
    change (DynamicQuizModal.view m') with (DynamicQuizModal.view m).
    change (DynamicQuizModal.questions m') with (DynamicQuizModal.questions m).
    change (DynamicQuizModal.currentQuestionIndex m')
      with (DynamicQuizModal.currentQuestionIndex m + 1).
    rewrite Hcl, Hview, Hq'.
    destruct (Nat.eqb_spec (DynamicQuizModal.currentQuestionIndex m + 1) 0) as [|_];
      [lia|].
    destruct (Nat.ltb_spec 0 (DynamicQuizModal.currentQuestionIndex m + 1)) as [_|];
      [|lia].
    unfold m', DynamicQuizModal.setCurrentQuestionIndex. destruct m. cbn in *.
    f_equal. lia.
Qed.


(** ** Replies that arrive late *)

Lemma nextUuid_render (s : App) : nextUuid (render s) = nextUuid s.
Proof. unfold_effects. destruct s; cbn. case_matches; reflexivity. Qed.

Section Replies.

Variable JSON_parse : string -> option JSValue.

(** The reply to a chat call replaces the conversation of the persona
    the call was made for by the history the call captured plus the
    decoded message, whatever is selected by then. *)
Lemma reply_step (s : App) (i : nat) (call : GatewayCall) (body : string) :
  nth_error (inflight s) i = Some call -> isChatCall (gc_kind call) = true ->
  let d := step JSON_parse s (Settles i (Fulfilled body)) in
  chats d
    = <[gc_character call :=
          gc_appendTo call
            ++ [parseAiMessage JSON_parse (fallbackFor (gc_kind call)) (nextUuid s) body]]>
        (chats s) /\
  characters d = characters s /\
  activeCharacterId d = activeCharacterId s.
Proof.
  intros Hn Hk d. unfold d, step.
  rewrite chats_render, characters_render, activeCharacterId_render.
  unfold dispatch. rewrite Hn.
  destruct call as [kind ch mode hist msg app].
  destruct kind; try discriminate; unfold_page; destruct s; cbn;
    case_matches; auto.
Qed.

Lemma delete_step (s : App) (id : string) :
  let d := step JSON_parse s (DeleteCharacter id) in
  inflight d = inflight s /\ nextUuid d = nextUuid s /\
  chats d = delete id (chats s) /\
  characters d = List.filter (fun c => negb (String.eqb (c_id c) id)) (characters s).
Proof.
  intros d. unfold d, step.
  rewrite inflight_render, nextUuid_render, chats_render, characters_render.
  unfold_page. destruct s; cbn. case_matches; auto.
Qed.

(** X19: a persona deleted while one of its chat calls is pending
    gets its conversation back when the reply arrives: the deletion
    removes the persona and its conversation, and the reply then stores
    the history the call captured plus the decoded message under the
    deleted id, for which no persona exists any more. *)
Theorem reply_after_delete_recreates_conversation (s : App) (i : nat)
    (call : GatewayCall) (body : string) :
  nth_error (inflight s) i = Some call -> isChatCall (gc_kind call) = true ->
  let id := gc_character call in
  let deleted := step JSON_parse s (DeleteCharacter id) in
  let d := step JSON_parse deleted (Settles i (Fulfilled body)) in
  chats deleted !! id = None /\
  chats d !! id
    = Some (gc_appendTo call
              ++ [parseAiMessage JSON_parse (fallbackFor (gc_kind call))
                    (nextUuid s) body]) /\
  (forall other, other <> id -> chats d !! other = chats s !! other) /\
  (forall c, In c (characters d) -> c_id c <> id).
Proof.
  intros Hn Hk id deleted d.
  destruct (delete_step s id) as (Hin & Hu & Hch & Hcs).
  fold deleted in Hin, Hu, Hch, Hcs.
  assert (Hn' : nth_error (inflight deleted) i = Some call) by now rewrite Hin.
  destruct (reply_step deleted i call body Hn' Hk) as (Hd & Hc & _).
  fold d in Hd, Hc. fold id in Hd.
  split; [|split; [|split]].
  - rewrite Hch. apply lookup_delete_eq.
  - rewrite Hd, Hu. apply lookup_insert_eq.
  - intros other Hne. rewrite Hd, lookup_insert_ne by congruence.
    rewrite Hch. now apply lookup_delete_ne.
  - intros c Hc'. rewrite Hc, Hcs in Hc'. apply filter_In in Hc' as [_ Hc'].
    apply negb_true_iff, String.eqb_neq in Hc'. exact Hc'.
Qed.

(** X20: selecting another persona cancels the follow-up timer the
    inactivity ref holds and arms none: every follow-up timer pending
    afterwards was pending before and is not the one the ref held, and a
    follow-up timer that neither ref holds stays pending.  The ref itself
    keeps the stale handle; conversations, pending calls and the loading
    flag are untouched, so a call in flight is not cancelled by the
    switch. *)
Theorem switch_cancels_held_follow_up_timer (s : App) (id : string) :
  activeCharacterId s <> Some id ->
  let d := step JSON_parse s (SelectCharacter id) in
  activeCharacterId d = Some id /\
  (forall t, In t (followUpTimers d) ->
     In t (followUpTimers s) /\ inactivityTimerRef s <> Some (t_handle t)) /\
  (forall t, In t (followUpTimers s) ->
     inactivityTimerRef s <> Some (t_handle t) ->
     proactiveGreetingTimerRef s <> Some (t_handle t) ->
     In t (followUpTimers d)) /\
  inactivityTimerRef d = inactivityTimerRef s /\
  chats d = chats s /\ inflight d = inflight s /\ isLoading d = isLoading s.
Proof.
  intros Hother d. unfold d, step, dispatch, setActiveCharacterId.
  destruct (decide (activeCharacterId s = Some id)) as [|_]; [tauto|].
  clear Hother. unfold followUpTimers. unfold_effects. destruct s; cbn.
  assert (Hneq : forall (x : Timer) h,
            negb (Pos.eqb (t_handle x) h) = true <-> Some h <> Some (t_handle x)).
  { intros x h. split.
    - intros Hn Heq. injection Heq as ->. rewrite Pos.eqb_refl in Hn. discriminate.
    - intros Hne. apply negb_true_iff, Pos.eqb_neq. congruence. }
  split; [|split; [|split; [|repeat split]]]; case_matches; try reflexivity.
  all: intros x; rewrite ?List.filter_app; cbn; rewrite ?app_nil_r;
    rewrite ?filter_In, ?Hneq; intuition (try discriminate; try congruence).
Qed.

End Replies.

(** ** A quiz that cannot be completed *)

Lemma Forall2_in_left {A B} (P : A -> B -> Prop) (l : list A) (k : list B) (x : A) :
  Forall2 P l k -> In x l -> exists y, In y k /\ P x y.
Proof.
  induction 1 as [|a b l k Hab _ IH]; intros Hin; [destruct Hin|].
  destruct Hin as [<-|Hin].
  - exists b. split; [now left | exact Hab].
  - destruct (IH Hin) as (y & Hy & Hp). exists y. split; [now right | exact Hp].
Qed.

(** X21: when one of the generated questions offers no answer that is
    a non-empty string, the quiz can never be completed: whatever the user
    does, no persona is ever requested. *)
Theorem quiz_unanswerable_question_blocks_request (typeError : string)
    (events : list DynamicQuizModal.Event) (q : DynamicQuizModal.QuizQuestion) :
  let m := DynamicQuizModal.run typeError DynamicQuizModal.opened events in
  In q (DynamicQuizModal.questions m) ->
  (forall a, In a (DynamicQuizModal.q_answers q) -> a = "") ->
  DynamicQuizModal.characterRequests m = [].
Proof.
  intros m Hq Hempty.
  pose proof (consistent_run typeError events _ consistent_opened) as Hc.
  fold m in Hc.
  destruct (DynamicQuizModal.characterRequests m) as [|r rest] eqn:Hr; [reflexivity|].
  exfalso.
  destruct (DynamicQuizModal.requests_complete m Hc r) as (_ & _ & Hall).
  { rewrite Hr. now left. }
  destruct (Forall2_in_left _ _ _ q Hall Hq) as (qa & _ & Hin & Hne).
  apply Hne. now apply Hempty.
Qed.

(** ** A quiz that can be completed *)

Lemma firstNonEmpty_spec (options : list string) :
  (exists a, In a options /\ a <> "") ->
  exists n a, firstNonEmpty options = Some n /\
              nth_error options n = Some a /\ JS.nonEmpty a = true.
Proof.
  induction options as [|a rest IH]; intros (b & Hin & Hne); [destruct Hin|].
  cbn [firstNonEmpty]. destruct (JS.nonEmpty a) eqn:Ha.
  - exists 0, a. auto.
  - destruct IH as (n & c & Hn & Hc & Hc').
    + destruct Hin as [->|Hin]; [|now exists b].
      apply nonEmpty_true in Hne. congruence.
    + exists (S n), c. rewrite Hn. auto.
Qed.

Lemma skipn_cons {A} (l : list A) : forall (i : nat) (x : A) (rest : list A),
  skipn i l = x :: rest ->
  nth_error l i = Some x /\ skipn (S i) l = rest /\ length l = i + S (length rest).
Proof.
  induction l as [|y l IH]; intros i x rest H.
  - destruct i; discriminate.
  - destruct i as [|i].
    + cbn in H. injection H as -> ->. auto.
    + cbn [skipn] in H. destruct (IH i x rest H) as (H1 & H2 & H3).
      cbn [nth_error length]. split; [exact H1|]. split; [exact H2 | lia].
Qed.

Lemma dispatch_answer (typeError : string) (m : DynamicQuizModal.Modal)
    (q : DynamicQuizModal.QuizQuestion) (n : nat) (a : string) :
  DynamicQuizModal.closed m = false ->
  DynamicQuizModal.view m = DynamicQuizModal.quizView ->
  DynamicQuizModal.currentQuestion m = Some q ->
  nth_error (DynamicQuizModal.q_answers q) n = Some a ->
  DynamicQuizModal.dispatch typeError m (DynamicQuizModal.ClickAnswer n)
    = DynamicQuizModal.handleAnswerSelect a m.
Proof.
  intros Hcl Hview Hq Ha. unfold DynamicQuizModal.dispatch.
  now rewrite Hcl, Hview, Hq, Ha.
Qed.

Lemma dispatch_next (typeError : string) (m : DynamicQuizModal.Modal)
    (q : DynamicQuizModal.QuizQuestion) :
  DynamicQuizModal.closed m = false ->
  DynamicQuizModal.view m = DynamicQuizModal.quizView ->
  DynamicQuizModal.currentQuestion m = Some q ->
  (DynamicQuizModal.currentQuestionIndex m + 1
   < length (DynamicQuizModal.questions m))%nat ->
  DynamicQuizModal.chosen (DynamicQuizModal.selectedAnswer m) = true ->
  DynamicQuizModal.dispatch typeError m DynamicQuizModal.ClickNext
    = DynamicQuizModal.setCurrentQuestionIndex (fun prev => prev + 1) m.
Proof.
  intros Hcl Hview Hq Hlt Hsel.
  unfold DynamicQuizModal.dispatch, DynamicQuizModal.isLastQuestion,
    DynamicQuizModal.handleNext.
  rewrite Hcl, Hview, Hq, Hsel.
  destruct (Z.eqb_spec (Z.of_nat (DynamicQuizModal.currentQuestionIndex m))
              (Z.of_nat (length (DynamicQuizModal.questions m)) - 1)); [lia|].
  cbn [negb andb].
  destruct (Z.ltb_spec (Z.of_nat (DynamicQuizModal.currentQuestionIndex m))
              (Z.of_nat (length (DynamicQuizModal.questions m)) - 1));
    [reflexivity | lia].
Qed.

Lemma dispatch_generate (typeError : string) (m : DynamicQuizModal.Modal)
    (q : DynamicQuizModal.QuizQuestion) :
  DynamicQuizModal.closed m = false ->
  DynamicQuizModal.view m = DynamicQuizModal.quizView ->
  DynamicQuizModal.currentQuestion m = Some q ->
  DynamicQuizModal.isLastQuestion m = true ->
  DynamicQuizModal.chosen (DynamicQuizModal.selectedAnswer m) = true ->
  DynamicQuizModal.dispatch typeError m DynamicQuizModal.ClickGenerateCharacter
    = DynamicQuizModal.handleGenerateCharacter typeError m.
Proof.
  intros Hcl Hview Hq Hlast Hsel. unfold DynamicQuizModal.dispatch.
  now rewrite Hcl, Hview, Hq, Hlast, Hsel.
Qed.

Lemma answerAll_completes (typeError concept : string)
    (qs : list DynamicQuizModal.QuizQuestion) :
  forall (remaining : list DynamicQuizModal.QuizQuestion) (i : nat)
         (m : DynamicQuizModal.Modal),
  remaining <> [] ->
  skipn i qs = remaining ->
  (forall q, In q remaining ->
     exists a, In a (DynamicQuizModal.q_answers q) /\ a <> "") ->
  DynamicQuizModal.Consistent m ->
  DynamicQuizModal.closed m = false ->
  DynamicQuizModal.view m = DynamicQuizModal.quizView ->
  DynamicQuizModal.questions m = qs ->
  DynamicQuizModal.currentQuestionIndex m = i ->
  DynamicQuizModal.concept m = concept ->
  DynamicQuizModal.characterRequests m = [] ->
  let d := DynamicQuizModal.run typeError m (answerAll remaining) in
  DynamicQuizModal.view d = DynamicQuizModal.loadingView /\
  DynamicQuizModal.awaited d = Some DynamicQuizModal.characterPromise /\
  exists formatted,
    DynamicQuizModal.characterRequests d = [(concept, formatted)] /\
    List.map fst formatted = List.map DynamicQuizModal.q_question qs.
Proof.
  induction remaining as [|q rest IH]; intros i m Hne Hskip Hpick Hc Hcl Hview Hqs Hi
    Hcon Hreq; [congruence|].
  destruct (skipn_cons qs i q rest Hskip) as (Hnth & Hskip' & Hlen).
  destruct (firstNonEmpty_spec (DynamicQuizModal.q_answers q)) as (n & a & Hn & Ha & Ha').
  { apply Hpick. now left. }
  assert (Hq : DynamicQuizModal.currentQuestion m = Some q).
  { unfold DynamicQuizModal.currentQuestion. now rewrite Hqs, Hi. }
  pose proof (dispatch_answer typeError m q n a Hcl Hview Hq Ha) as Hstep.
  set (m1 := DynamicQuizModal.handleAnswerSelect a m) in *.
  assert (Hc1 : DynamicQuizModal.Consistent m1).
  { rewrite <- Hstep. now apply consistent_dispatch. }
  assert (Hsel : DynamicQuizModal.chosen (DynamicQuizModal.selectedAnswer m1) = true).
  { unfold DynamicQuizModal.selectedAnswer, m1. cbn.
    rewrite get_assign_eq. exact Ha'. }
  assert (Hq1 : DynamicQuizModal.currentQuestion m1 = Some q) by exact Hq.
  cbn [answerAll]. rewrite Hn. cbn [default from_option]. change (id n) with n.
  unfold DynamicQuizModal.run. cbn [fold_left]. rewrite Hstep.
  destruct rest as [|q' rest'].
  - cbn [fold_left].
    assert (Hlast : DynamicQuizModal.isLastQuestion m1 = true).
    { unfold DynamicQuizModal.isLastQuestion, m1. cbn. rewrite Hqs, Hi, Hlen.
      cbn [length]. apply Z.eqb_eq. lia. }
    rewrite (dispatch_generate typeError m1 q Hcl Hview Hq1 Hlast Hsel).
    destruct (request_complete m1 Hc1 Hview Hlast Hsel) as (formatted & Hf & Hcomplete).
    unfold DynamicQuizModal.handleGenerateCharacter. rewrite Hf. cbn.
    split; [reflexivity|]. split; [reflexivity|].
    exists formatted. rewrite Hreq, Hcon. split; [reflexivity|].
    destruct Hcomplete as (_ & Hmap & _). cbn in Hmap. now rewrite <- Hqs.
  - cbn [fold_left].
    rewrite (dispatch_next typeError m1 q Hcl Hview Hq1); [| |exact Hsel].
    2: { unfold m1. cbn. rewrite Hqs, Hi, Hlen. cbn [length]. lia. }
    set (m2 := DynamicQuizModal.setCurrentQuestionIndex (fun prev => prev + 1) m1).
    assert (Hc2 : DynamicQuizModal.Consistent m2).
    { unfold m2.
      rewrite <- (dispatch_next typeError m1 q Hcl Hview Hq1);
        [now apply consistent_dispatch | | exact Hsel].
      unfold m1. cbn. rewrite Hqs, Hi, Hlen. cbn [length]. lia. }
    apply (IH (S i) m2); try assumption.
    + discriminate.
    + intros q0 Hq0. apply Hpick. now right.
    + unfold m2, m1. cbn. rewrite Hi. lia.
Qed.

(** X22: a quiz can be completed as soon as every question offers a
    non-empty answer: after a non-blank concept and a non-empty list of
    such questions, answering each question with its first non-empty
    option and pressing Next, then Generate Character on the last one,
    issues exactly one persona request, for that concept, with one entry
    per question in order, and leaves the modal waiting for it. *)
Theorem quiz_can_be_completed (typeError concept : string)
    (qs : list DynamicQuizModal.QuizQuestion) :
  JS.trim concept <> "" -> qs <> [] ->
  (forall q, In q qs ->
     exists a, In a (DynamicQuizModal.q_answers q) /\ a <> "") ->
  let m := DynamicQuizModal.run typeError DynamicQuizModal.opened
             (completeQuiz concept qs) in
  DynamicQuizModal.view m = DynamicQuizModal.loadingView /\
  DynamicQuizModal.awaited m = Some DynamicQuizModal.characterPromise /\
  exists formatted,
    DynamicQuizModal.characterRequests m = [(concept, formatted)] /\
    List.map fst formatted = List.map DynamicQuizModal.q_question qs.
Proof.
  intros Hconcept Hne Hpick m. unfold m, completeQuiz, DynamicQuizModal.run.
  rewrite fold_left_app.
  set (m0 := fold_left _ [_; _; _] _).
  assert (Hc0 : DynamicQuizModal.Consistent m0).
  { apply (consistent_run typeError [_; _; _] _ consistent_opened). }
  assert (Hm0 : m0 = {| DynamicQuizModal.view := DynamicQuizModal.quizView;
                        DynamicQuizModal.loadingText := "Generating tailored questions...";
                        DynamicQuizModal.concept := concept;
                        DynamicQuizModal.questions := qs;
                        DynamicQuizModal.answers := [];
                        DynamicQuizModal.currentQuestionIndex := 0;
                        DynamicQuizModal.error := None;
                        DynamicQuizModal.awaited := None;
                        DynamicQuizModal.closed := false;
                        DynamicQuizModal.questionRequests := [concept];
                        DynamicQuizModal.characterRequests := [] |}).
  { unfold m0. cbn [fold_left]. apply nonEmpty_true in Hconcept.
    unfold DynamicQuizModal.dispatch, DynamicQuizModal.handleConceptSubmit,
      DynamicQuizModal.questionsSettled, DynamicQuizModal.setConcept,
      DynamicQuizModal.opened.
    unfold JS.trim in Hconcept. cbn. rewrite Hconcept. cbn.
    destruct qs as [|q rest]; [congruence | reflexivity]. }
  apply (answerAll_completes typeError concept qs qs 0 m0); try assumption;
    try (rewrite Hm0; reflexivity).
  reflexivity.
Qed.

(** ** The properties above at concrete inputs *)

Lemma follow_up_timers_armed_by_replies_only_witness :
  armsFollowUp awaitingReply (Settles 0 (Fulfilled "Hello!")) = true /\
  inactivityTimerRef (dispatch exampleParse awaitingReply (Settles 0 (Fulfilled "Hello!")))
    = Some (nextHandle awaitingReply).
Proof.
  pose proof (follow_up_timers_armed_by_replies_only exampleParse awaitingReply
                (Settles 0 (Fulfilled "Hello!"))) as [_ H].
  assert (Ha : armsFollowUp awaitingReply (Settles 0 (Fulfilled "Hello!")) = true)
    by (vm_compute; reflexivity).
  split; [exact Ha | exact (proj2 (H Ha))].
Defined.

Lemma conversations_append_only_witness :
  exists added,
    historyOf idA
      (step exampleParse
         (run exampleParse (mounted [nova] {[ idA := [] ]}) [SelectCharacter idA])
         (Submit "hi"))
    = historyOf idA
        (run exampleParse (mounted [nova] {[ idA := [] ]}) [SelectCharacter idA])
      ++ added.
Proof.
  pose proof (conversations_append_only exampleParse [nova] {[ idA := [] ]}
                [SelectCharacter idA] (Submit "hi") idA) as H.
  cbv zeta in H. apply H. discriminate.
Defined.

Lemma submit_contract_witness :
  step exampleParse selectedA (Submit wideBlank) = selectedA /\
  historyOf idA (step exampleParse selectedA (Submit (nbsp +:+ " hi " +:+ nbsp)))
    = historyOf idA selectedA
      ++ [textMessage (nextUuid selectedA) user (JS.trim (nbsp +:+ " hi " +:+ nbsp))].
Proof.
  pose proof (submit_contract exampleParse selectedA wideBlank) as H1.
  pose proof (submit_contract exampleParse selectedA (nbsp +:+ " hi " +:+ nbsp)) as H2.
  destruct H1 as [H1 _]; [vm_compute; reflexivity | vm_compute; reflexivity |].
  destruct H2 as [_ H2]; [vm_compute; reflexivity | vm_compute; reflexivity |].
  specialize (H2 idA nova). cbv zeta in H2.
  destruct H2 as [H2 _];
    [vm_compute; discriminate | vm_compute; reflexivity
     | vm_compute; reflexivity | vm_compute; reflexivity |].
  split; [|exact H2].
  apply H1. left. vm_compute. reflexivity.
Defined.

Lemma analyze_button_agrees_with_handler_witness :
  isAnalyzing (handleAnalyzeUser twoExchanges) = true /\
  handleAnalyzeUser selectedA
    = with_alerts (alerts selectedA ++ [analysisNotice]) selectedA.
Proof.
  pose proof (analyze_button_agrees_with_handler twoExchanges idA) as H1.
  pose proof (analyze_button_agrees_with_handler selectedA idA) as H2.
  cbv zeta in H1, H2.
  destruct H1 as [H1 _]; [vm_compute; reflexivity|].
  destruct H2 as [_ H2]; [vm_compute; reflexivity|].
  split.
  - destruct H1 as (_ & _ & H1 & _); [vm_compute; reflexivity | exact H1].
  - apply H2. vm_compute. reflexivity.
Defined.

Lemma decoded_text_never_empty_witness :
  truthy (m_text (parseAiMessage exampleParse (fallbackFor GreetingCall) 0 "")) = true /\
  truthy (m_text (parseAiMessage exampleParse (fallbackFor SendCall) 0 "{}")) = true.
Proof.
  pose proof (decoded_text_never_empty exampleParse GreetingCall 0 "") as H1.
  pose proof (decoded_text_never_empty exampleParse SendCall 0 "{}") as H2.
  cbv zeta in H1, H2.
  destruct H1 as [H1 _]; [reflexivity|].
  destruct H2 as [H2 _]; [reflexivity|].
  split; assumption.
Defined.

Lemma delete_character_contract_witness :
  activeCharacterId (step exampleParse awaitingReply (DeleteCharacter idA)) = None /\
  chats (step exampleParse awaitingReply (DeleteCharacter idA)) !! idA = None.
Proof.
  pose proof (delete_character_contract exampleParse awaitingReply idA) as H.
  cbv zeta in H. destruct H as (_ & _ & Hchat & _ & Hactive & _).
  assert (Ha : activeCharacterId awaitingReply = Some idA) by (vm_compute; reflexivity).
  split; [exact (proj1 (Hactive Ha)) | exact Hchat].
Defined.

Lemma create_then_delete_restores_witness :
  characters (handleDeleteCharacter idA (handleSaveCharacter (1 # 2) nova (mounted [vega] ∅)))
    = [vega].
Proof.
  pose proof (create_then_delete_restores (1 # 2) nova (mounted [vega] ∅)) as H.
  cbv zeta in H. destruct H as [H _].
  - intros c [<-|[]]. vm_compute. discriminate.
  - vm_compute. reflexivity.
  - exact H.
Defined.

Lemma voice_follows_language_witness :
  getCharacterVoice [david; anna] german = Some anna /\
  JS.startsWith (v_lang anna) "de" = true.
Proof.
  assert (Hv : getCharacterVoice [david; anna] german = Some anna)
    by (vm_compute; reflexivity).
  pose proof (voice_follows_language [david; anna] german anna Hv) as H.
  cbv zeta in H. destruct H as [H _].
  split; [exact Hv|]. apply H. vm_compute. reflexivity.
Defined.

Lemma female_named_voice_scores_alike_witness :
  voiceScore male ukFemale = voiceScore female ukFemale.
Proof.
  pose proof (female_named_voice_scores_alike ukFemale) as H.
  destruct H as [H _]; [vm_compute; reflexivity | exact H].
Defined.

Lemma speech_toggle_contract_witness :
  Speech.speakingMessageId
    (Speech.handleToggleSpeech german (textMessage 7 model "Hallo") silentWindow)
    = Some 7.
Proof.
  pose proof (speech_toggle_contract german (textMessage 7 model "Hallo") silentWindow)
    as H.
  cbv zeta in H. destruct H as (_ & _ & H).
  destruct H as [H _]; [discriminate | discriminate | exact H].
Defined.

Lemma editor_stores_valid_personas_witness :
  CharacterModal.handleSubmit None idB rexForm = inr rex /\
  c_id (characterToSave (1 # 2) rex) = idB /\
  exists p, c_purpose (characterToSave (1 # 2) rex) = Some p /\ p <> "".
Proof.
  assert (Hs : CharacterModal.handleSubmit None idB rexForm = inr rex)
    by (vm_compute; reflexivity).
  pose proof (editor_stores_valid_personas (1 # 2) None idB rexForm rex) as H.
  cbv zeta in H.
  destruct H as (_ & _ & _ & Hp & _ & Hnew);
    [vm_compute; discriminate | reflexivity | discriminate | exact Hs |].
  split; [exact Hs|]. split; [exact (Hnew eq_refl) | exact Hp].
Defined.


Lemma quiz_request_answers_every_question_witness :
  List.map fst (snd quizRequest)
    = List.map DynamicQuizModal.q_question
        (DynamicQuizModal.questions
           (DynamicQuizModal.run engineTypeError DynamicQuizModal.opened quizRun)).
Proof.
  pose proof (quiz_request_answers_every_question engineTypeError quizRun quizRequest)
    as H.
  cbv zeta in H. destruct H as (_ & H & _); [vm_compute; auto | exact H].
Defined.

Lemma quiz_views_consistent_witness :
  exists q,
    DynamicQuizModal.currentQuestion
      (DynamicQuizModal.run engineTypeError DynamicQuizModal.opened quizSecondQuestion)
    = Some q.
Proof.
  pose proof (quiz_views_consistent engineTypeError quizSecondQuestion) as H.
  cbv zeta in H. destruct H as (_ & H & _).
  apply H. vm_compute. reflexivity.
Defined.

Lemma quiz_back_and_next_are_inverse_witness :
  DynamicQuizModal.dispatch engineTypeError
    (DynamicQuizModal.dispatch engineTypeError
       (DynamicQuizModal.run engineTypeError DynamicQuizModal.opened quizSecondQuestion)
       DynamicQuizModal.ClickBack)
    DynamicQuizModal.ClickNext
  = DynamicQuizModal.run engineTypeError DynamicQuizModal.opened quizSecondQuestion.
Proof.
  pose proof (quiz_back_and_next_are_inverse engineTypeError quizSecondQuestion) as H.
  cbv zeta in H.
  destruct H as [H _]; [vm_compute; reflexivity | vm_compute; reflexivity |].
  apply H. vm_compute. discriminate.
Defined.

Lemma reply_after_delete_recreates_conversation_witness :
  chats (step exampleParse awaitingReply (DeleteCharacter (gc_character firstCall)))
    !! gc_character firstCall = None /\
  chats (step exampleParse
           (step exampleParse awaitingReply (DeleteCharacter (gc_character firstCall)))
           (Settles 0 (Fulfilled "Hello!")))
    !! gc_character firstCall
  = Some (gc_appendTo firstCall
            ++ [parseAiMessage exampleParse (fallbackFor (gc_kind firstCall))
                  (nextUuid awaitingReply) "Hello!"]).
Proof.
  pose proof (reply_after_delete_recreates_conversation exampleParse awaitingReply 0
                firstCall "Hello!") as H.
  cbv zeta in H.
  destruct H as (H1 & H2 & _); [vm_compute; reflexivity | reflexivity |].
  split; [exact H1 | exact H2].
Defined.

Lemma switch_cancels_held_follow_up_timer_witness :
  activeCharacterId (step exampleParse afterFirstExchange (SelectCharacter idB)) = Some idB /\
  chats (step exampleParse afterFirstExchange (SelectCharacter idB))
    = chats afterFirstExchange.
Proof.
  pose proof (switch_cancels_held_follow_up_timer exampleParse afterFirstExchange idB) as H.
  cbv zeta in H.
  destruct H as (H1 & _ & _ & _ & H2 & _); [vm_compute; discriminate|].
  split; [exact H1 | exact H2].
Defined.

Lemma quiz_unanswerable_question_blocks_request_witness :
  DynamicQuizModal.characterRequests
    (DynamicQuizModal.run engineTypeError DynamicQuizModal.opened deadEndQuiz) = [].
Proof.
  pose proof (quiz_unanswerable_question_blocks_request engineTypeError deadEndQuiz
                deadEndQuestion) as H.
  cbv zeta in H. apply H.
  - vm_compute. auto.
  - intros a [<-|[]]. reflexivity.
Defined.

Lemma quiz_can_be_completed_witness :
  DynamicQuizModal.view
    (DynamicQuizModal.run engineTypeError DynamicQuizModal.opened
       (completeQuiz "A grumpy space pirate" quizQuestions))
  = DynamicQuizModal.loadingView.
Proof.
  pose proof (quiz_can_be_completed engineTypeError "A grumpy space pirate"
                quizQuestions) as H.
  cbv zeta in H. destruct H as [H _].
  - vm_compute. discriminate.
  - discriminate.
  - intros q [<-|[<-|[]]]; eexists; (split; [left; reflexivity | discriminate]).
  - exact H.
Defined.
